(** * FoodRush shopping cart ([script.js], the [Cart] module)

    A shallow embedding of the in-memory cart of [script.js]: the [items]
    array, the operations [add], [changeQty], [getCount], [getSubtotal],
    [render], [open], [close] and the helper [showToast], together with
    the part of the page they read and write.

    Conventions of the embedding:
    - a JavaScript number is an IEEE 754 binary64 value ([float], the
      kernel's primitive doubles): prices, quantities, deltas and the
      sums [getCount] and [getSubtotal] compute; [qty += delta] is the
      double addition, which is exact for integers only below 2^53;
    - strings are byte strings (UTF-8);
    - [$(selector)] may find no element: every element the module looks
      up is an [option], and dereferencing a missing one throws;
    - the page records the values written into it, not their printed
      form: [formatPrice] and string interpolation of numbers are not
      expanded into digits; the text assigned to [innerHTML] is kept as
      the template literal with its interpolated values, and what the
      HTML parser makes of it is outside the model;
    - timers ([setTimeout]) are not part of the state: a state is what a
      handler leaves behind when it returns. *)

From Stdlib Require Import ZArith List Bool String Ascii DecimalString Lia.
From Stdlib Require Import PrimFloat FloatOps SpecFloat FloatAxioms.
Import ListNotations.

Set Warnings "-inexact-float".
Local Open Scope string_scope.
Local Open Scope Z_scope.

(** ** JavaScript numbers and [parseFloat] *)

Module JS.

Definition number := float.

(** The double nearest to an integer (ties to even). *)
Definition of_Z (z : Z) : number :=
  SF2Prim (binary_normalize prec emax z 0 false).

Definition bytes (s : string) : list N :=
  map N_of_ascii (list_ascii_of_string s).

(** [TrimString(s, start)]: drops leading [WhiteSpace] and
    [LineTerminator] code points (given here by their UTF-8 bytes). *)
Fixpoint trim_start (s : list N) : list N :=
  match s with
  | (9 | 10 | 11 | 12 | 13 | 32)%N :: r => trim_start r
  | 194%N :: 160%N :: r => trim_start r                       (* U+00A0 *)
  | 225%N :: 154%N :: 128%N :: r => trim_start r              (* U+1680 *)
  | 226%N :: 128%N :: c :: r =>
      if ((128 <=? c) && (c <=? 138) || (c =? 168) || (c =? 169)
          || (c =? 175))%N                    (* U+2000..200A, 2028, 2029, 202F *)
      then trim_start r else s
  | 226%N :: 129%N :: 159%N :: r => trim_start r              (* U+205F *)
  | 227%N :: 128%N :: 128%N :: r => trim_start r              (* U+3000 *)
  | 239%N :: 187%N :: 191%N :: r => trim_start r              (* U+FEFF *)
  | _ => s
  end.

Definition is_digit (c : N) : bool := ((48 <=? c) && (c <=? 57))%N.

(** The longest run of decimal digits at the head, and the rest. *)
Fixpoint span_digits (s : list N) : list N * list N :=
  match s with
  | c :: r =>
      if is_digit c then let '(d, r') := span_digits r in (c :: d, r')
      else ([], s)
  | [] => ([], [])
  end.

Definition digits_value (ds : list N) : Z :=
  fold_left (fun acc c => 10 * acc + (Z.of_N c - 48)) ds 0.

Fixpoint starts_with (p s : list N) : bool :=
  match p, s with
  | [], _ => true
  | a :: p', b :: s' => (a =? b)%N && starts_with p' s'
  | _ :: _, [] => false
  end.

(** [ExponentPart]: [e] or [E], an optional sign and at least one digit;
    anything else is not part of the literal and counts as exponent 0. *)
Definition exponent_part (s : list N) : Z :=
  match s with
  | (101 | 69)%N :: r =>
      let '(neg, r') :=
        match r with
        | 43%N :: r' => (false, r')
        | 45%N :: r' => (true, r')
        | _ => (false, r)
        end in
      match fst (span_digits r') with
      | [] => 0
      | ds => if neg then - digits_value ds else digits_value ds
      end
  | _ => 0
  end.

(** The double nearest to [(-1)^neg * m * 10^e] for [0 <= m]. *)
Definition decimal_value (neg : bool) (m e : Z) : number :=
  if m =? 0 then (if neg then neg_zero else zero)
  else if 0 <=? e then
    SF2Prim (binary_normalize prec emax (cond_Zopp neg (m * 10 ^ e)) 0 false)
  else
    let '(q, e', l) := SFdiv_core_binary prec emax m 0 (10 ^ (- e)) 0 in
    SF2Prim (binary_round_aux prec emax neg q e' l).

(** [parseFloat]: the value of the longest prefix of the trimmed string
    that is a [StrDecimalLiteral], [NaN] when there is none. *)
Definition parseFloat (s : string) : number :=
  let t := trim_start (bytes s) in
  let '(neg, u) :=
    match t with
    | 43%N :: r => (false, r)
    | 45%N :: r => (true, r)
    | _ => (false, t)
    end in
  if starts_with (bytes "Infinity") u
  then (if neg then neg_infinity else infinity)
  else
    let '(ip, r1) := span_digits u in
    let '(fp, r2) :=
      match r1 with
      | 46%N :: r => span_digits r
      | _ => ([], r1)
      end in
    match (ip ++ fp)%list with
    | [] => nan
    | ds =>
        decimal_value neg (digits_value ds)
          (exponent_part r2 - Z.of_nat (List.length fp))
    end.

(** [Number.isFinite(x)] *)
Definition isFinite (x : number) : bool :=
  match Prim2SF x with
  | S754_zero _ | S754_finite _ _ _ => true
  | _ => false
  end.

(** [Number.isInteger(x)] *)
Definition isInteger (x : number) : bool :=
  match Prim2SF x with
  | S754_zero _ => true
  | S754_finite _ m e => (0 <=? e) || (Zpos m mod 2 ^ (- e) =? 0)
  | _ => false
  end.

(** The integer part of a number ([Math.trunc]), 0 for [NaN] and the
    infinities. *)
Definition to_Z (x : number) : Z :=
  match Prim2SF x with
  | S754_finite s m e =>
      cond_Zopp s (if 0 <=? e then Zpos m * 2 ^ e else Zpos m / 2 ^ (- e))
  | _ => 0
  end.

(** [Number.isSafeInteger(x)]: an integer of magnitude at most
    [2^53 - 1]. *)
Definition isSafeInteger (x : number) : bool :=
  isInteger x && (Z.abs (to_Z x) <? 2 ^ 53).

End JS.

(** ** The page: the elements the cart module looks up *)

(** [el.classList]: an ordered set of class tokens. *)
Module ClassList.

Definition t := list string.

Definition contains (c : string) (l : t) : bool :=
  existsb (String.eqb c) l.

Definition add (c : string) (l : t) : t :=
  if contains c l then l else (l ++ [c])%list.

Definition remove (c : string) (l : t) : t :=
  filter (fun x => negb (String.eqb c x)) l.

End ClassList.

(** An element with a class list and an [aria-hidden] attribute
    ([#cartDrawer], [#cartOverlay]). *)
Record Element := {
  classList : ClassList.t;
  aria_hidden : option string
}.

(** [#toast]. *)
Record ToastEl := {
  textContent : string;
  className : string
}.

(** What [emojiMap[id]] evaluates to: one of the map's own emoji, or,
    for a key such as [constructor], the member the object literal
    inherits from [Object.prototype]. *)
Inductive Glyph :=
| Emoji (s : string)
| Inherited (key : string).

(** A piece of the text a template literal evaluates to: the literal
    text between two interpolations, or an interpolated value, which
    the evaluation turns into text ([formatPrice] and the conversion of
    numbers and of inherited members are not expanded). *)
Inductive Piece :=
| Lit (text : string)
| Str (s : string)
| Num (x : JS.number)
| Formatted (x : JS.number)          (* [formatPrice(x)] *)
| Member (g : Glyph).

(** The [div] that [render] creates for one line item: its [className],
    its [dataset.itemId] and the text assigned to its [innerHTML]. *)
Record Row := {
  row_className : string;
  row_itemId : string;
  row_innerHTML : list Piece
}.

(** The elements [render] and [animateBadge] write.  [bodyEl] holds the
    [.cart-item] children of [#cartBody] (every one is removed and the
    new ones are appended at each [render]); [badgeEl] is the count
    written to the badge and the badge's class list, [cartBtn] the count
    in its [aria-label], [emptyEl] and [footerEl] their [style.display],
    [subtotalEl] and [totalEl] the arguments of [formatPrice]. *)
Record View := {
  bodyEl : option (list Row);
  emptyEl : option string;
  footerEl : option string;
  badgeEl : option (JS.number * ClassList.t);
  cartBtn : option JS.number;
  subtotalEl : option JS.number;
  totalEl : option JS.number
}.

(** [document.body.style], and what [getScrollbarWidth()] reads
    ([window.innerWidth - document.documentElement.clientWidth]).  The
    width is data of the page: how the layout changes it when [overflow]
    changes is not modelled, and no property below depends on it. *)
Record BodyStyle := {
  overflow : string;
  paddingRight : option Z;      (* [Some w] is [w ++ "px"], [None] is [""] *)
  scrollbarWidth : Z
}.

Record Page := {
  drawerEl : option Element;
  overlayEl : option Element;
  view : View;
  toast : option ToastEl;
  body : BodyStyle
}.

(** ** The cart *)

Module Item.

(** [{ id, name, price, qty, emoji }] *)
Record t := mk {
  id : string;
  name : string;
  price : JS.number;
  qty : JS.number;
  emoji : Glyph
}.

Definition has_id (k : string) (i : t) : bool := String.eqb (id i) k.

(** [i.qty += d] *)
Definition add_qty (d : JS.number) (i : t) : t :=
  mk (id i) (name i) (price i) (qty i + d)%float (emoji i).

End Item.

Record State := {
  items : list Item.t;
  page : Page
}.

Definition set_items (l : list Item.t) (s : State) : State :=
  {| items := l; page := page s |}.

Definition set_page (p : Page) (s : State) : State :=
  {| items := items s; page := p |}.

Definition set_view (v : View) (p : Page) : Page :=
  {| drawerEl := drawerEl p; overlayEl := overlayEl p; view := v;
     toast := toast p; body := body p |}.

Definition set_toast (t : option ToastEl) (p : Page) : Page :=
  {| drawerEl := drawerEl p; overlayEl := overlayEl p; view := view p;
     toast := t; body := body p |}.

(** *** Calls: a state transformer that returns or throws *)

Inductive Exception := TypeError.

Inductive Result (A : Type) :=
| Ok (a : A) (s : State)
| Thrown (e : Exception) (s : State).
Arguments Ok {A} a s.
Arguments Thrown {A} e s.

Definition M (A : Type) := State -> Result A.

Definition ret {A} (a : A) : M A := fun s => Ok a s.

Definition bind {A B} (c : M A) (k : A -> M B) : M B :=
  fun s => match c s with
           | Ok a s' => k a s'
           | Thrown e s' => Thrown e s'
           end.

Definition throw {A} (e : Exception) : M A := fun s => Thrown e s.
Definition get_items : M (list Item.t) := fun s => Ok (items s) s.
Definition put_items (l : list Item.t) : M unit := fun s => Ok tt (set_items l s).
Definition get_page : M Page := fun s => Ok (page s) s.
Definition put_page (p : Page) : M unit := fun s => Ok tt (set_page p s).

Declare Scope js_scope.
Delimit Scope js_scope with js.
Notation "x <- c ;; k" := (bind c (fun x => k))
  (at level 61, c at next level, right associativity) : js_scope.
Notation "c ;; k" := (bind c (fun _ => k))
  (at level 61, right associativity) : js_scope.
Local Open Scope js_scope.

(** The state a call leaves behind, whether it returned or threw. *)
Definition state_of {A} (r : Result A) : State :=
  match r with Ok _ s => s | Thrown _ s => s end.

(** The value a call returned, if it returned. *)
Definition fst_value {A} (r : Result A) : option A :=
  match r with Ok a _ => Some a | Thrown _ _ => None end.

Definition returns {A} (r : Result A) : bool :=
  match r with Ok _ _ => true | Thrown _ _ => false end.

(** [showToast(message, type = '')].  [$('#toast')] is dereferenced
    unguarded: without the element the first assignment throws. *)
Definition showToast (message type : string) : M unit :=
  p <- get_page ;;
  match toast p with
  | None => throw TypeError
  | Some _ =>
      put_page
        (set_toast
           (Some {| textContent := message;
                    className := "toast is-visible"
                      ++ (if String.eqb type "" then "" else " toast--" ++ type)
                 |}) p)
  end.

Module Cart.

(** [emojiMap]: the own properties of the object literal. *)
Definition emojiMap : list (string * string) :=
  [ ("1", "🍔"); ("2", "🍕"); ("3", "🍣"); ("4", "🥗");
    ("5", "🌮"); ("6", "🍜"); ("7", "🍰"); ("8", "🥙") ].

(** The keys an object literal inherits from [Object.prototype]; each
    evaluates to a function or an object, so each is truthy. *)
Definition object_prototype : list string :=
  [ "constructor"; "__defineGetter__"; "__defineSetter__"; "hasOwnProperty";
    "__lookupGetter__"; "__lookupSetter__"; "isPrototypeOf";
    "propertyIsEnumerable"; "toString"; "valueOf"; "__proto__";
    "toLocaleString" ].

(** [emojiMap[id]], [None] for [undefined]. *)
Definition emojiMap_get (id : string) : option Glyph :=
  match find (fun kv => String.eqb (fst kv) id) emojiMap with
  | Some kv => Some (Emoji (snd kv))
  | None =>
      if existsb (String.eqb id) object_prototype
      then Some (Inherited id) else None
  end.

(** [emojiMap[id] || '🍽️'] *)
Definition emoji_for (id : string) : Glyph :=
  match emojiMap_get id with
  | Some g => g
  | None => Emoji "🍽️"
  end.

(** Applies [f] to the first element that satisfies [p]: the effect of
    assigning through the reference [items.find(p)] returned. *)
Fixpoint update_first {A} (p : A -> bool) (f : A -> A) (l : list A) : list A :=
  match l with
  | [] => []
  | x :: r => if p x then f x :: r else x :: update_first p f r
  end.

(** [getCount()]: [items.reduce((sum, i) => sum + i.qty, 0)] *)
Definition getCount : M JS.number :=
  its <- get_items ;;
  ret (fold_left (fun sum i => (sum + Item.qty i)%float) its 0%float).

(** [getSubtotal()]: [items.reduce((sum, i) => sum + i.price * i.qty, 0)] *)
Definition getSubtotal : M JS.number :=
  its <- get_items ;;
  ret (fold_left
         (fun sum i => (sum + Item.price i * Item.qty i)%float)
         its 0%float).

(** [animateBadge()] *)
Definition animateBadge : M unit :=
  p <- get_page ;;
  let v := view p in
  match badgeEl v with
  | None => ret tt
  | Some (n, cl) =>
      put_page
        (set_view
           {| bodyEl := bodyEl v; emptyEl := emptyEl v; footerEl := footerEl v;
              badgeEl := Some (n, ClassList.add "navbar__cart-badge--bump" cl);
              cartBtn := cartBtn v;
              subtotalEl := subtotalEl v; totalEl := totalEl v |} p)
  end.

Definition DELIVERY_FEE : JS.number := 2.99%float.

(** The locals [count], [subtotal], [delivery] and [total] of [render]. *)
Definition totals : M (JS.number * JS.number * JS.number * JS.number) :=
  count <- getCount ;;
  subtotal <- getSubtotal ;;
  its <- get_items ;;
  let delivery := match its with [] => 0%float | _ :: _ => DELIVERY_FEE end in
  let total := (subtotal + delivery)%float in
  ret (count, subtotal, delivery, total).

(** The literal text of the row template.  The template's double quotes
    are written as single quotes in this file and put back by [lit]; the
    template has no single quote of its own. *)
Fixpoint requote (s : string) : string :=
  match s with
  | EmptyString => EmptyString
  | String c r =>
      String (if Ascii.eqb c "'"%char then ascii_of_nat 34 else c) (requote r)
  end.

Definition lit (s : string) : Piece := Lit (requote s).

(** The template literal assigned to [div.innerHTML]. *)
Definition row_template (item : Item.t) : list Piece :=
  [ lit "
        <div class='cart-item__emoji' aria-hidden='true'>";
    Member (Item.emoji item);
    lit "</div>
        <div class='cart-item__info'>
          <p class='cart-item__name'>";
    Str (Item.name item);
    lit "</p>
          <p class='cart-item__price'>";
    Formatted (Item.price item * Item.qty item)%float;
    lit "</p>
        </div>
        <div class='cart-item__qty'>
          <button class='cart-item__qty-btn' data-action='decrement' data-id='";
    Str (Item.id item);
    lit "' aria-label='Decrease quantity of ";
    Str (Item.name item);
    lit "'>−</button>
          <span class='cart-item__qty-num' aria-label='";
    Num (Item.qty item);
    lit " of ";
    Str (Item.name item);
    lit "'>";
    Num (Item.qty item);
    lit "</span>
          <button class='cart-item__qty-btn' data-action='increment' data-id='";
    Str (Item.id item);
    lit "' aria-label='Increase quantity of ";
    Str (Item.name item);
    lit "'>+</button>
        </div>
      " ].

(** The body of [items.forEach(item => ...)]: the [div] that is
    appended to [#cartBody]. *)
Definition row_of (item : Item.t) : Row :=
  {| row_className := "cart-item";
     row_itemId := Item.id item;
     row_innerHTML := row_template item |}.

(** [render()] *)
Definition render : M unit :=
  p <- get_page ;;
  let v := view p in
  match bodyEl v with
  | None => ret tt
  | Some _ =>
      t <- totals ;;
      let '(count, subtotal, delivery, total) := t in
      its <- get_items ;;
      let nonempty := match its with [] => false | _ :: _ => true end in
      put_page
        (set_view
           {| bodyEl := Some (map row_of its);
              emptyEl :=
                option_map (fun _ => if nonempty then "none" else "flex")
                  (emptyEl v);
              footerEl :=
                option_map (fun _ => if nonempty then "block" else "none")
                  (footerEl v);
              badgeEl := option_map (fun b => (count, snd b)) (badgeEl v);
              cartBtn := option_map (fun _ => count) (cartBtn v);
              subtotalEl := option_map (fun _ => subtotal) (subtotalEl v);
              totalEl := option_map (fun _ => total) (totalEl v) |} p)
  end.

(** [add(id, name, price)] *)
Definition add (id name price : string) : M unit :=
  its <- get_items ;;
  match find (Item.has_id id) its with
  | Some existing =>
      put_items (update_first (Item.has_id id) (Item.add_qty 1%float) its)
  | None =>
      put_items
        (its ++ [Item.mk id name (JS.parseFloat price) 1%float (emoji_for id)])%list
  end ;;
  render ;;
  animateBadge ;;
  showToast ("🛒 " ++ name ++ " added to cart!") "success".

(** [changeQty(id, delta)] *)
Definition changeQty (id : string) (delta : JS.number) : M unit :=
  its <- get_items ;;
  match find (Item.has_id id) its with
  | None => ret tt
  | Some item =>
      put_items (update_first (Item.has_id id) (Item.add_qty delta) its) ;;
      (if (Item.qty item + delta <=? 0)%float
       then its' <- get_items ;;
            put_items (filter (fun i => negb (Item.has_id id i)) its')
       else ret tt) ;;
      render
  end.

(** [getScrollbarWidth()] *)
Definition getScrollbarWidth : M Z :=
  p <- get_page ;; ret (scrollbarWidth (body p)).

(** [open()] *)
Definition open : M unit :=
  p <- get_page ;;
  match drawerEl p, overlayEl p with
  | Some d, Some o =>
      w <- getScrollbarWidth ;;
      put_page
        {| drawerEl :=
             Some {| classList := ClassList.add "is-open" (classList d);
                     aria_hidden := Some "false" |};
           overlayEl :=
             Some {| classList := ClassList.add "is-open" (classList o);
                     aria_hidden := aria_hidden o |};
           view := view p;
           toast := toast p;
           body := {| overflow := "hidden"; paddingRight := Some w;
                      scrollbarWidth := scrollbarWidth (body p) |} |}
  | _, _ => ret tt
  end.

(** [close()] *)
Definition close : M unit :=
  p <- get_page ;;
  match drawerEl p, overlayEl p with
  | Some d, Some o =>
      put_page
        {| drawerEl :=
             Some {| classList := ClassList.remove "is-open" (classList d);
                     aria_hidden := Some "true" |};
           overlayEl :=
             Some {| classList := ClassList.remove "is-open" (classList o);
                     aria_hidden := aria_hidden o |};
           view := view p;
           toast := toast p;
           body := {| overflow := ""; paddingRight := None;
                      scrollbarWidth := scrollbarWidth (body p) |} |}
  | _, _ => ret tt
  end.

(** The module's initial state on a page [p]: [items = []], then the
    initialising [render()]. *)
Definition init (p : Page) : State :=
  state_of (render {| items := []; page := p |}).

(** Whether the drawer shows, as the Escape handler tests it:
    [drawerEl?.classList.contains('is-open')]. *)
Inductive Visibility := Closed | Open.

Definition visibility (s : State) : Visibility :=
  match drawerEl (page s) with
  | Some d => if ClassList.contains "is-open" (classList d) then Open else Closed
  | None => Closed
  end.

(** The calls that reach the cart, one per dispatched event. *)
Inductive Call :=
| CallAdd (id name price : string)
| CallChangeQty (id : string) (delta : JS.number)
| CallOpen
| CallClose.

Definition call (c : Call) : M unit :=
  match c with
  | CallAdd id name price => add id name price
  | CallChangeQty id delta => changeQty id delta
  | CallOpen => open
  | CallClose => close
  end.

(** A handler runs to completion; what it leaves behind, also when it
    threw, is the state the next one starts from. *)
Definition step (s : State) (c : Call) : State := state_of (call c s).

Definition run (cs : list Call) (s : State) : State := fold_left step cs s.

End Cart.

Import Cart.

(** * Definitions used to state the properties *)

(** [s'] differs from [s] at most in the view and the toast. *)
Definition same_cart (s s' : State) : Prop :=
  items s' = items s /\
  drawerEl (page s') = drawerEl (page s) /\
  overlayEl (page s') = overlayEl (page s) /\
  body (page s') = body (page s).

Definition toast_of (message type : string) : ToastEl :=
  {| textContent := message;
     className := "toast is-visible"
       ++ (if String.eqb type "" then "" else " toast--" ++ type) |}.

(** The items [add] leaves behind. *)
Definition add_items (id name price : string) (its : list Item.t) :=
  match find (Item.has_id id) its with
  | Some _ => update_first (Item.has_id id) (Item.add_qty 1%float) its
  | None =>
      (its ++ [Item.mk id name (JS.parseFloat price) 1%float (emoji_for id)])%list
  end.

(** The items [changeQty] leaves behind. *)
Definition changeQty_items (id : string) (delta : JS.number) (its : list Item.t) :=
  match find (Item.has_id id) its with
  | None => its
  | Some item =>
      let its1 := update_first (Item.has_id id) (Item.add_qty delta) its in
      if (Item.qty item + delta <=? 0)%float
      then filter (fun i => negb (Item.has_id id i)) its1
      else its1
  end.

Definition ids (l : list Item.t) : list string := map Item.id l.

Definition positive_qty (l : list Item.t) : Prop :=
  Forall (fun i => (0 <? Item.qty i)%float = true) l.

(** Every quantity is an integer of magnitude at most [2^53 - 1]. *)
Definition safe_qty (l : list Item.t) : Prop :=
  Forall (fun i => JS.isSafeInteger (Item.qty i) = true) l.





(** The items after one call. *)
Definition step_items (c : Call) (l : list Item.t) : list Item.t :=
  match c with
  | CallAdd id name price => add_items id name price l
  | CallChangeQty id delta => changeQty_items id delta l
  | CallOpen | CallClose => l
  end.

(** [add(id, n1, p1)], [add(id, n2, p2)], ...: calls with one id. *)
Definition add_calls (id : string) (args : list (string * string)) : list Call :=
  map (fun a => CallAdd id (fst a) (snd a)) args.

(** The sum of all quantities, in double arithmetic, taken in the order
    of the collection. *)
Definition itemCount_spec (l : list Item.t) : JS.number :=
  fold_left PrimFloat.add (map Item.qty l) 0%float.


(** The spec's words: the sum of [unitPrice * quantity] over all items,
    in double arithmetic, taken in the order of the collection. *)
Definition subtotal_spec (l : list Item.t) : JS.number :=
  fold_left PrimFloat.add
    (map (fun i => (Item.price i * Item.qty i)%float) l) 0%float.

(** The spec's words: [subtotal() + (deliveryFee if itemCount() > 0 else 0)]. *)
Definition total_spec (l : list Item.t) : JS.number :=
  if (0 <? itemCount_spec l)%float
  then (subtotal_spec l + DELIVERY_FEE)%float
  else subtotal_spec l.

(** The locals [delivery] and [total] of [render], as functions of the
    items. *)
Definition delivery_of (l : list Item.t) : JS.number :=
  match l with [] => 0%float | _ :: _ => DELIVERY_FEE end.

Definition total_of (l : list Item.t) : JS.number :=
  (subtotal_spec l + delivery_of l)%float.

(** What [render] writes into a view [v] for the items [l]. *)
Definition rendered_view (l : list Item.t) (v : View) : View :=
  let nonempty := match l with [] => false | _ :: _ => true end in
  {| bodyEl := Some (map row_of l);
     emptyEl := option_map (fun _ => if nonempty then "none" else "flex") (emptyEl v);
     footerEl := option_map (fun _ => if nonempty then "block" else "none") (footerEl v);
     badgeEl := option_map (fun b => (itemCount_spec l, snd b)) (badgeEl v);
     cartBtn := option_map (fun _ => itemCount_spec l) (cartBtn v);
     subtotalEl := option_map (fun _ => subtotal_spec l) (subtotalEl v);
     totalEl := option_map (fun _ => total_of l) (totalEl v) |}.

(** Both elements [open] and [close] insist on are on the page. *)
Definition mounted (s : State) : bool :=
  match drawerEl (page s), overlayEl (page s) with
  | Some _, Some _ => true
  | _, _ => false
  end.

(** Modelled from the spec: the page's markup ([index.html]) is not among
    the sources; the spec gives the initial state as [Closed], that is, a
    drawer whose markup carries no [is-open] class. *)
Definition markup_closed (p : Page) : Prop :=
  match drawerEl p with
  | Some d => ClassList.contains "is-open" (classList d) = false
  | None => True
  end.

(** A sample page: every element present, the drawer closed, nothing
    rendered yet, a 15px scrollbar. *)
Definition page0 : Page :=
  {| drawerEl := Some {| classList := ["cart-drawer"]; aria_hidden := Some "true" |};
     overlayEl := Some {| classList := ["cart-overlay"]; aria_hidden := None |};
     view := {| bodyEl := Some []; emptyEl := Some "flex"; footerEl := Some "none";
                badgeEl := Some (0%float, ["navbar__cart-badge"]);
                cartBtn := Some 0%float;
                subtotalEl := Some 0%float; totalEl := Some 0%float |};
     toast := Some {| textContent := ""; className := "toast" |};
     body := {| overflow := ""; paddingRight := None; scrollbarWidth := 15 |} |}.

(** The sample page without its [#cartOverlay]. *)
Definition page_without_overlay : Page :=
  {| drawerEl := drawerEl page0; overlayEl := None; view := view page0;
     toast := toast page0; body := body page0 |}.

(** [open(); close(); ...]: [true] is a call of [open], [false] of [close]. *)
Definition toggles (l : list bool) : list Call :=
  map (fun b : bool => if b then CallOpen else CallClose) l.

(** A price text that is not a non-negative decimal: nothing parses, or
    what parses is negative. *)
Definition malformed_price (price : string) : bool :=
  let x := JS.parseFloat price in
  (is_nan x || (x <? 0)%float)%bool.

(** [a] occurs before [b] in [l]. *)
Definition before {A} (a b : A) (l : list A) : Prop :=
  exists l1 l2 l3, l = (l1 ++ a :: l2 ++ b :: l3)%list.

(** The state in which call number [k] of [cs] starts (calls are
    numbered from 0), [s0] being the state before the first call. *)
Definition state_before (cs : list Call) (s0 : State) (k : nat) : State :=
  run (firstn k cs) s0.

(** The id a call inserts a line item for, if it inserts one. *)
Definition inserts (s : State) (c : Call) : option string :=
  match c with
  | CallAdd id _ _ =>
      match find (Item.has_id id) (items s) with
      | Some _ => None
      | None => Some id
      end
  | _ => None
  end.

(** Call number [k] of [cs] inserted the line item of [id], and the id
    has been in the cart ever since. *)
Definition inserted_at (cs : list Call) (s0 : State) (id : string) (k : nat) : Prop :=
  (exists c, nth_error cs k = Some c /\ inserts (state_before cs s0 k) c = Some id) /\
  (forall j, (k < j <= List.length cs)%nat ->
             In id (ids (items (state_before cs s0 j)))).

(** The view shows what [render] writes for the current items. *)
Definition synced (s : State) : Prop :=
  exists v0, view (page s) = rendered_view (items s) v0.

(** ** Binary64 values ([SpecFloat]) *)

Module Binary64.

Definition emin : Z := SpecFloat.emin prec emax.
Definition fexp : Z -> Z := SpecFloat.fexp prec emax.

(** A value that is not [NaN] and has the sign [s]. *)
Definition signed (s : bool) (x : spec_float) : Prop :=
  match x with
  | S754_nan => False
  | S754_zero s' | S754_infinity s' | S754_finite s' _ _ => s' = s
  end.

Definition nonzero (x : spec_float) : Prop :=
  match x with
  | S754_infinity _ | S754_finite _ _ _ => True
  | _ => False
  end.

(** [0 < x], [x <= 0] and [0 <= x]. *)
Definition is_pos (x : spec_float) : bool :=
  match x with
  | S754_finite false _ _ | S754_infinity false => true
  | _ => false
  end.

Definition is_nonpos (x : spec_float) : bool :=
  match x with
  | S754_zero _ | S754_finite true _ _ | S754_infinity true => true
  | _ => false
  end.

Definition is_nonneg (x : spec_float) : bool :=
  match x with
  | S754_zero _ | S754_finite false _ _ | S754_infinity false => true
  | _ => false
  end.

(** The representation of a positive integer [n < 2^53]: 53 digits of
    mantissa, the exponent that goes with them. *)
Definition canon (s : bool) (n : Z) : spec_float :=
  S754_finite s (Z.to_pos (n * 2 ^ (53 - Zdigits2 n))) (Zdigits2 n - 53).

(** What [binary_normalize] makes of an integer. *)
Definition repr (n : Z) : spec_float := binary_normalize prec emax n 0 false.



End Binary64.

Import Binary64.

(** * Lemmas *)

(** ** Binary64 arithmetic *)

Lemma fexp_eq x : fexp x = Z.max (x - 53) (-1074).
Proof. reflexivity. Qed.

Lemma digits_log2 p : Zpos (digits2_pos p) = Z.log2 (Zpos p) + 1.
Proof.
  assert (S : forall q, digits2_pos q = Pos.size q)
    by (induction q; simpl; congruence).
  destruct p; simpl; rewrite ?S; lia.
Qed.

Lemma Zdigits2_log2 m : 0 < m -> Zdigits2 m = Z.log2 m + 1.
Proof. destruct m; try lia. intros _. apply digits_log2. Qed.

Lemma Zdigits2_bounds m :
  0 < m -> 2 ^ (Zdigits2 m - 1) <= m < 2 ^ Zdigits2 m.
Proof.
  intros H. rewrite (Zdigits2_log2 m H).
  replace (Z.log2 m + 1 - 1) with (Z.log2 m) by lia.
  replace (Z.log2 m + 1) with (Z.succ (Z.log2 m)) by lia.
  now apply Z.log2_spec.
Qed.

Lemma Zdigits2_pos m : 0 < m -> 0 < Zdigits2 m.
Proof.
  intros H. rewrite (Zdigits2_log2 m H). pose proof (Z.log2_nonneg m). lia.
Qed.

Lemma Zdigits2_mul_pow2 m k :
  0 < m -> 0 <= k -> Zdigits2 (m * 2 ^ k) = Zdigits2 m + k.
Proof.
  intros H K. rewrite !Zdigits2_log2 by (try apply Z.mul_pos_pos; lia).
  rewrite Z.log2_mul_pow2 by assumption. lia.
Qed.

Lemma Zdigits2_div_pow2 m k :
  0 < m -> 0 <= k < Zdigits2 m ->
  0 < m / 2 ^ k /\ Zdigits2 (m / 2 ^ k) = Zdigits2 m - k.
Proof.
  intros H K. pose proof (Zdigits2_bounds m H) as [B _].
  assert (P : 0 < m / 2 ^ k).
  { apply Z.div_str_pos. split; [lia|].
    apply Z.le_trans with (2 ^ (Zdigits2 m - 1)); [|exact B].
    apply Z.pow_le_mono_r; lia. }
  split; [exact P|]. rewrite !Zdigits2_log2 by assumption.
  rewrite <- Z.shiftr_div_pow2 by lia. rewrite Z.log2_shiftr by assumption.
  rewrite Zdigits2_log2 in K by assumption. lia.
Qed.

Lemma Zdigits2_le m n : 0 < m -> m <= n -> Zdigits2 m <= Zdigits2 n.
Proof.
  intros H L. rewrite !Zdigits2_log2 by lia.
  pose proof (Z.log2_le_mono m n L). lia.
Qed.

(** *** Shifting a mantissa to the right *)

Lemma shr_1_m mrs : 0 <= shr_m mrs -> shr_m (shr_1 mrs) = shr_m mrs / 2.
Proof.
  destruct mrs as [m r s]. simpl. intros H.
  destruct m as [|[p|p|]|p]; try lia; try reflexivity.
  - simpl. rewrite Pos2Z.inj_xI.
    apply (Z.div_unique _ 2 _ 1); lia.
  - simpl. rewrite Pos2Z.inj_xO.
    apply (Z.div_unique _ 2 _ 0); lia.
Qed.

Lemma pow2_xO p : 2 ^ Zpos p~0 = 2 ^ Zpos p * 2 ^ Zpos p.
Proof. rewrite Pos2Z.inj_xO, <- Z.pow_add_r by lia. f_equal. lia. Qed.

Lemma pow2_xI p : 2 ^ Zpos p~1 = 2 * (2 ^ Zpos p * 2 ^ Zpos p).
Proof.
  rewrite Pos2Z.inj_xI, <- Z.pow_add_r by lia.
  replace (2 * Zpos p + 1) with (Z.succ (Zpos p + Zpos p)) by lia.
  rewrite Z.pow_succ_r by lia. reflexivity.
Qed.

Lemma iter_shr_m p :
  forall mrs, 0 <= shr_m mrs ->
    shr_m (iter_pos shr_1 p mrs) = shr_m mrs / 2 ^ Zpos p.
Proof.
  assert (P2 : forall q, 0 < 2 ^ Zpos q) by (intros; apply Z.pow_pos_nonneg; lia).
  induction p as [p IH|p IH|]; intros mrs H; cbn [iter_pos].
  - assert (H1 : 0 <= shr_m (shr_1 mrs))
      by (rewrite shr_1_m by assumption; apply Z.div_pos; lia).
    assert (H2 : 0 <= shr_m (iter_pos shr_1 p (shr_1 mrs)))
      by (rewrite IH by assumption; apply Z.div_pos; [assumption | apply P2]).
    rewrite IH, IH, shr_1_m by assumption.
    rewrite pow2_xI, !Z.div_div; try lia; try apply P2.
  - assert (H2 : 0 <= shr_m (iter_pos shr_1 p mrs))
      by (rewrite IH by assumption; apply Z.div_pos; [assumption | apply P2]).
    rewrite IH, IH by assumption.
    rewrite pow2_xO, !Z.div_div; try lia; try apply P2.
  - now apply shr_1_m.
Qed.

Lemma shr_1_double c :
  0 <= c ->
  shr_1 (Build_shr_record (2 * c) false false) = Build_shr_record c false false.
Proof. destruct c as [|p|p]; try lia; reflexivity. Qed.

Lemma iter_shr_exact p :
  forall c, 0 <= c ->
    iter_pos shr_1 p (Build_shr_record (c * 2 ^ Zpos p) false false)
    = Build_shr_record c false false.
Proof.
  assert (P2 : forall q, 0 < 2 ^ Zpos q) by (intros; apply Z.pow_pos_nonneg; lia).
  induction p as [p IH|p IH|]; intros c H; cbn [iter_pos].
  - rewrite pow2_xI.
    replace (c * (2 * (2 ^ Zpos p * 2 ^ Zpos p)))
      with (2 * (c * 2 ^ Zpos p * 2 ^ Zpos p)) by ring.
    pose proof (P2 p).
    rewrite shr_1_double by nia. rewrite IH by nia. now apply IH.
  - rewrite pow2_xO. rewrite Z.mul_assoc.
    pose proof (P2 p). rewrite IH by nia. now apply IH.
  - change (2 ^ 1) with 2. rewrite Z.mul_comm. now apply shr_1_double.
Qed.

Lemma shr_m_of_loc m l : shr_m (shr_record_of_loc m l) = m.
Proof. destruct l as [|[]]; reflexivity. Qed.

Lemma fexp_ge_emin x : emin <= fexp x.
Proof. rewrite fexp_eq. unfold emin. change (SpecFloat.emin prec emax) with (-1074). lia. Qed.

(** One rounding shift keeps a mantissa positive as long as the value is
    above the smallest subnormal, and keeps [digits + exponent]. *)
Lemma shr_fexp_pos m e l :
  0 < m -> emin < Zdigits2 m + e ->
  let r := shr_fexp prec emax m e l in
  0 < shr_m (fst r) /\ Zdigits2 (shr_m (fst r)) + snd r = Zdigits2 m + e.
Proof.
  intros H E r. subst r. unfold shr_fexp, shr.
  change (SpecFloat.fexp prec emax) with fexp.
  destruct (fexp (Zdigits2 m + e) - e) as [|p|p] eqn:N; cbn [fst snd];
    rewrite ?shr_m_of_loc; try (split; [assumption | reflexivity]).
  rewrite iter_shr_m by (rewrite shr_m_of_loc; lia). rewrite shr_m_of_loc.
  rewrite fexp_eq in N. change emin with (-1074) in E.
  destruct (Zdigits2_div_pow2 m (Zpos p) H) as [P D]; [lia|].
  split; [exact P|]. rewrite D. lia.
Qed.

Lemma shr_fexp_nonneg m e l :
  0 <= m -> 0 <= shr_m (fst (shr_fexp prec emax m e l)).
Proof.
  intros H. unfold shr_fexp, shr.
  destruct (SpecFloat.fexp prec emax (Zdigits2 m + e) - e) as [|p|p];
    cbn [fst]; rewrite ?shr_m_of_loc; try assumption.
  rewrite iter_shr_m by (rewrite shr_m_of_loc; lia). rewrite shr_m_of_loc.
  apply Z.div_pos; [assumption | apply Z.pow_pos_nonneg; lia].
Qed.

Lemma round_nearest_even_ge m l : m <= round_nearest_even m l.
Proof.
  destruct l as [|[]]; simpl; try lia. destruct (Z.even m); lia.
Qed.

Lemma binary_round_aux_signed s m e l :
  0 <= m -> signed s (binary_round_aux prec emax s m e l).
Proof.
  intros H. unfold binary_round_aux.
  pose proof (shr_fexp_nonneg m e l H) as H1.
  destruct (shr_fexp prec emax m e l) as [mrs' e']. cbn [fst] in H1.
  set (m2 := round_nearest_even (shr_m mrs') (loc_of_shr_record mrs')).
  assert (H2 : 0 <= m2)
    by (pose proof (round_nearest_even_ge (shr_m mrs') (loc_of_shr_record mrs')); lia).
  pose proof (shr_fexp_nonneg m2 e' loc_Exact H2) as H3.
  destruct (shr_fexp prec emax m2 e' loc_Exact) as [mrs'' e'']. cbn [fst] in H3.
  destruct (shr_m mrs'') as [|q|q]; try lia; [exact eq_refl|].
  destruct (e'' <=? emax - prec); exact eq_refl.
Qed.

Lemma binary_round_aux_nonzero s m e l :
  0 < m -> emin < Zdigits2 m + e ->
  nonzero (binary_round_aux prec emax s m e l).
Proof.
  intros H E. unfold binary_round_aux.
  pose proof (shr_fexp_pos m e l H E) as [H1 D1].
  destruct (shr_fexp prec emax m e l) as [mrs' e']. cbn [fst snd] in H1, D1.
  set (m2 := round_nearest_even (shr_m mrs') (loc_of_shr_record mrs')).
  pose proof (round_nearest_even_ge (shr_m mrs') (loc_of_shr_record mrs')) as G.
  fold m2 in G.
  assert (H2 : 0 < m2) by lia.
  assert (E2 : emin < Zdigits2 m2 + e')
    by (pose proof (Zdigits2_le _ _ H1 G); lia).
  pose proof (shr_fexp_pos m2 e' loc_Exact H2 E2) as [H3 _].
  destruct (shr_fexp prec emax m2 e' loc_Exact) as [mrs'' e'']. cbn [fst] in H3.
  destruct (shr_m mrs'') as [|q|q]; try lia.
  destruct (e'' <=? emax - prec); exact I.
Qed.

(** *** Aligning a mantissa to a smaller exponent *)

Lemma iter_xO p d : Zpos (Pos.iter xO p d) = Zpos p * 2 ^ Zpos d.
Proof.
  induction d as [|d IH] using Pos.peano_ind.
  - simpl. lia.
  - rewrite Pos.iter_succ, Pos2Z.inj_xO, IH, Pos2Z.inj_succ.
    rewrite Z.pow_succ_r by lia. ring.
Qed.

Lemma shl_align_spec p e e' :
  snd (shl_align p e e') = Z.min e e' /\
  Zpos (fst (shl_align p e e')) = Zpos p * 2 ^ (e - Z.min e e').
Proof.
  unfold shl_align. destruct (e' - e) as [|d|d] eqn:D; cbn [fst snd].
  - replace (Z.min e e') with e by lia. rewrite Z.sub_diag. simpl. lia.
  - replace (Z.min e e') with e by lia. rewrite Z.sub_diag. simpl. lia.
  - replace (Z.min e e') with e' by lia. split; [reflexivity|].
    rewrite iter_xO. f_equal. f_equal. lia.
Qed.

Lemma binary_round_signed s p e : signed s (binary_round prec emax s p e).
Proof.
  unfold binary_round.
  destruct (shl_align p e _) as [mz ez].
  apply binary_round_aux_signed. lia.
Qed.

Lemma binary_round_nonzero s p e :
  emin <= e -> nonzero (binary_round prec emax s p e).
Proof.
  intros E. unfold binary_round.
  change (SpecFloat.fexp prec emax) with fexp.
  pose proof (shl_align_spec p e (fexp (Zpos (digits2_pos p) + e))) as [S M].
  destruct (shl_align p e _) as [mz ez]. cbn [fst snd] in S, M.
  apply binary_round_aux_nonzero; [lia|].
  change (Zdigits2 (Zpos mz)) with (Zdigits2 (Zpos mz)).
  rewrite M, Zdigits2_mul_pow2 by lia.
  pose proof (Zdigits2_pos (Zpos p)). lia.
Qed.

Lemma binary_normalize_not_nan m e sz :
  binary_normalize prec emax m e sz <> S754_nan.
Proof.
  destruct m as [|p|p]; simpl; [discriminate| |].
  - pose proof (binary_round_signed false p e) as H.
    destruct (binary_round prec emax false p e); try discriminate. destruct H.
  - pose proof (binary_round_signed true p e) as H.
    destruct (binary_round prec emax true p e); try discriminate. destruct H.
Qed.

(** *** Integers below 2^53 are represented exactly *)

Lemma digits_below n : 0 < n -> n < 2 ^ 53 -> 0 < Zdigits2 n <= 53.
Proof.
  intros H B. split; [now apply Zdigits2_pos|].
  pose proof (Zdigits2_bounds n H) as [L _].
  destruct (Z.le_gt_cases (Zdigits2 n) 53) as [D|D]; [exact D|].
  assert (2 ^ 53 <= 2 ^ (Zdigits2 n - 1)) by (apply Z.pow_le_mono_r; lia).
  lia.
Qed.

Lemma shr_fexp_exact c k e :
  0 < c -> 0 <= k -> fexp (Zdigits2 c + k + e) = e + k ->
  shr_fexp prec emax (c * 2 ^ k) e loc_Exact
  = (Build_shr_record c false false, e + k).
Proof.
  intros C K F. unfold shr_fexp, shr.
  change (SpecFloat.fexp prec emax) with fexp.
  rewrite Zdigits2_mul_pow2, F by assumption.
  replace (e + k - e) with k by lia. cbn [shr_record_of_loc].
  destruct k as [|q|q]; try lia.
  - rewrite Z.pow_0_r, Z.mul_1_r, Z.add_0_r. reflexivity.
  - rewrite iter_shr_exact by lia. reflexivity.
Qed.

Lemma binary_round_aux_exact s c k e :
  0 < c -> 0 <= k -> Zdigits2 c = 53 -> -1074 <= e + k <= 971 ->
  binary_round_aux prec emax s (c * 2 ^ k) e loc_Exact
  = S754_finite s (Z.to_pos c) (e + k).
Proof.
  intros C K D E. unfold binary_round_aux.
  rewrite shr_fexp_exact by (try rewrite D, fexp_eq; lia).
  cbn [shr_m loc_of_shr_record round_nearest_even].
  replace c with (c * 2 ^ 0) at 1 by (rewrite Z.pow_0_r; lia).
  rewrite shr_fexp_exact by (try rewrite D, fexp_eq; lia).
  cbn [shr_m]. rewrite Z.add_0_r.
  destruct c as [|q|q]; try lia.
  replace (e + k <=? emax - prec) with true
    by (symmetry; apply Z.leb_le; change (emax - prec) with 971; lia).
  reflexivity.
Qed.

Lemma binary_round_exact s m e n :
  0 < n -> n < 2 ^ 53 -> e <= 0 -> Zpos m = n * 2 ^ (- e) ->
  binary_round prec emax s m e = canon s n.
Proof.
  intros N B E M. pose proof (digits_below n N B) as D.
  unfold binary_round. change (SpecFloat.fexp prec emax) with fexp.
  change (Zpos (digits2_pos m)) with (Zdigits2 (Zpos m)).
  rewrite M, Zdigits2_mul_pow2 by lia.
  replace (Zdigits2 n + - e + e) with (Zdigits2 n) by lia.
  rewrite fexp_eq. replace (Z.max (Zdigits2 n - 53) (-1074)) with (Zdigits2 n - 53) by lia.
  pose proof (shl_align_spec m e (Zdigits2 n - 53)) as [S A].
  destruct (shl_align m e (Zdigits2 n - 53)) as [mz ez]. cbn [fst snd] in S, A.
  set (c := n * 2 ^ (53 - Zdigits2 n)).
  assert (Pc : 0 < c) by (apply Z.mul_pos_pos; [lia | apply Z.pow_pos_nonneg; lia]).
  assert (Dc : Zdigits2 c = 53)
    by (unfold c; rewrite Zdigits2_mul_pow2 by lia; lia).
  assert (Mz : Zpos mz = c * 2 ^ (Zdigits2 n - 53 - ez)).
  { rewrite A, M, <- S. unfold c. rewrite <- !Z.mul_assoc, <- !Z.pow_add_r by lia.
    f_equal. f_equal. lia. }
  rewrite Mz, binary_round_aux_exact by lia.
  unfold canon. fold c. f_equal. lia.
Qed.

Lemma canon_valid s n :
  0 < n -> n < 2 ^ 53 -> valid_binary (canon s n) = true.
Proof.
  intros N B. pose proof (digits_below n N B) as D.
  unfold canon, SpecFloat.valid_binary, bounded, canonical_mantissa.
  set (c := n * 2 ^ (53 - Zdigits2 n)).
  assert (Pc : 0 < c) by (apply Z.mul_pos_pos; [lia | apply Z.pow_pos_nonneg; lia]).
  assert (Dc : Zdigits2 c = 53)
    by (unfold c; rewrite Zdigits2_mul_pow2 by lia; lia).
  change (Zpos (digits2_pos (Z.to_pos c))) with (Zdigits2 (Zpos (Z.to_pos c))).
  rewrite Z2Pos.id, Dc by assumption.
  change (SpecFloat.fexp prec emax) with fexp. rewrite fexp_eq.
  apply andb_true_intro. split; [apply Z.eqb_eq | apply Z.leb_le]; 
    change (emax - prec) with 971; lia.
Qed.

Lemma repr_pos n : 0 < n -> n < 2 ^ 53 -> repr n = canon false n.
Proof.
  intros N B. unfold repr. destruct n as [|p|p]; try lia.
  apply binary_round_exact; try lia.
Qed.

Lemma repr_neg n : n < 0 -> - n < 2 ^ 53 -> repr n = canon true (- n).
Proof.
  intros N B. unfold repr. destruct n as [|p|p]; try lia.
  apply binary_round_exact; try lia.
Qed.

Lemma repr_valid n : Z.abs n < 2 ^ 53 -> valid_binary (repr n) = true.
Proof.
  intros B. destruct (Z.lt_total n 0) as [H|[->|H]].
  - rewrite repr_neg by lia. apply canon_valid; lia.
  - reflexivity.
  - rewrite repr_pos by lia. apply canon_valid; lia.
Qed.

(** The mantissa of [canon] aligned to a smaller exponent. *)
Lemma canon_aligned n ez p :
  0 < n -> n < 2 ^ 53 -> ez <= Zdigits2 n - 53 ->
  p = Z.to_pos (n * 2 ^ (53 - Zdigits2 n)) ->
  Zpos (fst (shl_align p (Zdigits2 n - 53) ez)) = n * 2 ^ (- ez).
Proof.
  intros N B E ->. pose proof (digits_below n N B) as D.
  destruct (shl_align_spec (Z.to_pos (n * 2 ^ (53 - Zdigits2 n))) (Zdigits2 n - 53) ez)
    as [_ A].
  rewrite A. replace (Z.min (Zdigits2 n - 53) ez) with ez by lia.
  rewrite Z2Pos.id by (apply Z.mul_pos_pos; [lia | apply Z.pow_pos_nonneg; lia]).
  rewrite <- Z.mul_assoc, <- Z.pow_add_r by lia. f_equal. f_equal. lia.
Qed.

Lemma binary_normalize_exact z ez :
  Z.abs z < 2 ^ 53 -> ez <= 0 ->
  binary_normalize prec emax (z * 2 ^ (- ez)) ez false = repr z.
Proof.
  intros B E. assert (P : 0 < 2 ^ (- ez)) by (apply Z.pow_pos_nonneg; lia).
  destruct (Z.lt_total z 0) as [H|[->|H]].
  - rewrite repr_neg by lia.
    destruct (z * 2 ^ (- ez)) as [|m|m] eqn:M; try nia.
    cbn [binary_normalize]. apply binary_round_exact; try lia.
  - reflexivity.
  - rewrite repr_pos by lia.
    destruct (z * 2 ^ (- ez)) as [|m|m] eqn:M; try nia.
    cbn [binary_normalize]. apply binary_round_exact; try lia.
Qed.

Lemma SFadd_canon sa a sb b :
  0 < a -> a < 2 ^ 53 -> 0 < b -> b < 2 ^ 53 ->
  Z.abs (cond_Zopp sa a + cond_Zopp sb b) < 2 ^ 53 ->
  SFadd prec emax (canon sa a) (canon sb b)
  = repr (cond_Zopp sa a + cond_Zopp sb b).
Proof.
  intros A BA B BB S.
  pose proof (digits_below a A BA). pose proof (digits_below b B BB).
  unfold canon at 1 2. cbn [SFadd].
  set (ez := Z.min (Zdigits2 a - 53) (Zdigits2 b - 53)).
  rewrite (canon_aligned a ez) by (reflexivity || lia).
  rewrite (canon_aligned b ez) by (reflexivity || lia).
  rewrite <- binary_normalize_exact with (ez := ez) by lia.
  f_equal. destruct sa, sb; simpl; ring.
Qed.

Lemma SFadd_repr a b :
  Z.abs a < 2 ^ 53 -> Z.abs b < 2 ^ 53 -> Z.abs (a + b) < 2 ^ 53 ->
  SFadd prec emax (repr a) (repr b) = repr (a + b).
Proof.
  intros A B S.
  destruct (Z.lt_total a 0) as [Ha|[->|Ha]], (Z.lt_total b 0) as [Hb|[->|Hb]];
    rewrite ?Z.add_0_r, ?Z.add_0_l;
    rewrite ?(repr_neg a), ?(repr_neg b), ?(repr_pos a), ?(repr_pos b) by lia;
    try reflexivity.
  - rewrite SFadd_canon by (simpl; lia). f_equal. simpl. lia.
  - rewrite SFadd_canon by (simpl; lia). f_equal. simpl. lia.
  - rewrite SFadd_canon by (simpl; lia). f_equal. simpl. lia.
  - rewrite SFadd_canon by (simpl; lia). f_equal.
Qed.

Lemma ltb_0 x : (0 <? x)%float = is_pos (Prim2SF x).
Proof.
  rewrite ltb_spec. change (Prim2SF 0) with (S754_zero false).
  destruct (Prim2SF x) as [[]|[]| |[] m e]; reflexivity.
Qed.

Lemma leb_0 x : (x <=? 0)%float = is_nonpos (Prim2SF x).
Proof.
  rewrite leb_spec. change (Prim2SF 0) with (S754_zero false).
  destruct (Prim2SF x) as [[]|[]| |[] m e]; reflexivity.
Qed.

Lemma le_0 x : (0 <=? x)%float = is_nonneg (Prim2SF x).
Proof.
  rewrite leb_spec. change (Prim2SF 0) with (S754_zero false).
  destruct (Prim2SF x) as [[]|[]| |[] m e]; reflexivity.
Qed.

Lemma valid_emin s m e :
  valid_binary (S754_finite s m e) = true -> emin <= e.
Proof.
  unfold SpecFloat.valid_binary, bounded, canonical_mantissa.
  intros H. apply andb_prop in H as [H _]. apply Z.eqb_eq in H.
  rewrite <- H. apply fexp_ge_emin.
Qed.

(** A sum of a number that is not negative and a positive one is
    positive. *)
Lemma add_pos a b :
  (0 <=? a)%float = true -> (0 <? b)%float = true -> (0 <? a + b)%float = true.
Proof.
  rewrite le_0, !ltb_0, add_spec.
  pose proof (Prim2SF_valid a) as Va. pose proof (Prim2SF_valid b) as Vb.
  destruct (Prim2SF a) as [sa|[]| |[] ma ea], (Prim2SF b) as [sb|[]| |[] mb eb];
    try discriminate; try reflexivity.
  intros _ _. unfold SF64add. cbn [SFadd cond_Zopp Z.add binary_normalize].
  apply valid_emin in Va, Vb.
  set (ez := Z.min ea eb). set (p := (_ + _)%positive).
  pose proof (binary_round_signed false p ez) as S.
  pose proof (binary_round_nonzero false p ez ltac:(lia)) as N.
  destruct (binary_round prec emax false p ez); simpl in S, N; subst;
    try contradiction; reflexivity.
Qed.

(** A finite number added to a positive one never gives [NaN]: the sum
    is positive unless it is [<= 0]. *)
Lemma add_finite_sign q d :
  (0 <? q)%float = true -> JS.isFinite d = true ->
  (q + d <=? 0)%float = false -> (0 <? q + d)%float = true.
Proof.
  rewrite !ltb_0, leb_0, add_spec. unfold JS.isFinite.
  destruct (Prim2SF q) as [sa|[]| |[] ma ea], (Prim2SF d) as [sb|[]| |sb mb eb];
    try discriminate; try reflexivity.
  intros _ _. unfold SF64add. cbn [SFadd].
  match goal with |- context [binary_normalize _ _ ?m ?e ?z] =>
    pose proof (binary_normalize_not_nan m e z) as N;
    destruct (binary_normalize prec emax m e z) as [[]|[]| |[] ? ?]
  end; try discriminate; try reflexivity. congruence.
Qed.

(** [q + (-q)] is a zero for every finite [q]. *)
Lemma add_opp_finite q :
  JS.isFinite q = true -> (q + (- q) <=? 0)%float = true.
Proof.
  rewrite leb_0, add_spec, opp_spec. unfold JS.isFinite.
  destruct (Prim2SF q) as [[]|[]| |s m e]; try discriminate; try reflexivity.
  intros _. unfold SF64add. cbn [SFopp SFadd].
  set (x := Zpos (fst (shl_align m e (Z.min e e)))). clearbody x.
  replace (cond_Zopp s x + cond_Zopp (negb s) x) with 0
    by (destruct s; simpl; lia).
  reflexivity.
Qed.

Lemma Prim2SF_of_Z n :
  Z.abs n < 2 ^ 53 -> Prim2SF (JS.of_Z n) = repr n.
Proof. intros B. apply Prim2SF_SF2Prim. now apply repr_valid. Qed.

(** Addition of integers is exact as long as the operands and the sum
    are below [2^53] in magnitude. *)
Lemma add_of_Z a b :
  Z.abs a < 2 ^ 53 -> Z.abs b < 2 ^ 53 -> Z.abs (a + b) < 2 ^ 53 ->
  (JS.of_Z a + JS.of_Z b)%float = JS.of_Z (a + b).
Proof.
  intros A B S. apply Prim2SF_inj.
  rewrite add_spec, !Prim2SF_of_Z by assumption.
  now apply SFadd_repr.
Qed.

Lemma canon_value n :
  0 < n -> n < 2 ^ 53 ->
  (if 0 <=? Zdigits2 n - 53
   then Zpos (Z.to_pos (n * 2 ^ (53 - Zdigits2 n))) * 2 ^ (Zdigits2 n - 53)
   else Zpos (Z.to_pos (n * 2 ^ (53 - Zdigits2 n))) / 2 ^ (- (Zdigits2 n - 53))) = n /\
  ((0 <=? Zdigits2 n - 53)
   || (Zpos (Z.to_pos (n * 2 ^ (53 - Zdigits2 n))) mod 2 ^ (- (Zdigits2 n - 53)) =? 0)) = true.
Proof.
  intros N B. pose proof (digits_below n N B) as D.
  assert (P : 0 < 2 ^ (53 - Zdigits2 n)) by (apply Z.pow_pos_nonneg; lia).
  rewrite Z2Pos.id by nia.
  replace (- (Zdigits2 n - 53)) with (53 - Zdigits2 n) by lia.
  destruct (Z.leb_spec 0 (Zdigits2 n - 53)) as [L|L].
  - replace (Zdigits2 n) with 53 by lia. simpl. split; [lia | reflexivity].
  - rewrite Z.div_mul, Z.mod_mul by lia. split; reflexivity.
Qed.

Lemma to_Z_of_Z n : Z.abs n < 2 ^ 53 -> JS.to_Z (JS.of_Z n) = n.
Proof.
  intros B. unfold JS.to_Z. rewrite Prim2SF_of_Z by assumption.
  destruct (Z.lt_total n 0) as [H|[->|H]]; [| reflexivity |].
  - rewrite repr_neg by lia. unfold canon.
    rewrite (proj1 (canon_value (- n) ltac:(lia) ltac:(lia))). simpl. lia.
  - rewrite repr_pos by lia. unfold canon.
    rewrite (proj1 (canon_value n ltac:(lia) ltac:(lia))). reflexivity.
Qed.

Lemma isSafeInteger_of_Z n :
  Z.abs n < 2 ^ 53 -> JS.isSafeInteger (JS.of_Z n) = true.
Proof.
  intros B. unfold JS.isSafeInteger. rewrite to_Z_of_Z by assumption.
  apply andb_true_intro. split; [|now apply Z.ltb_lt].
  unfold JS.isInteger. rewrite Prim2SF_of_Z by assumption.
  destruct (Z.lt_total n 0) as [H|[->|H]]; [| reflexivity |].
  - rewrite repr_neg by lia. unfold canon.
    apply (canon_value (- n)); lia.
  - rewrite repr_pos by lia. unfold canon.
    apply (canon_value n); lia.
Qed.

Lemma of_Z_ltb n : Z.abs n < 2 ^ 53 -> (0 <? JS.of_Z n)%float = (0 <? n).
Proof.
  intros B. rewrite ltb_0, Prim2SF_of_Z by assumption.
  destruct (Z.lt_total n 0) as [H|[->|H]]; [| reflexivity |].
  - rewrite repr_neg by lia. simpl. symmetry. apply Z.ltb_ge. lia.
  - rewrite repr_pos by lia. simpl. symmetry. apply Z.ltb_lt. lia.
Qed.

Lemma of_Z_leb n : Z.abs n < 2 ^ 53 -> (JS.of_Z n <=? 0)%float = (n <=? 0).
Proof.
  intros B. rewrite leb_0, Prim2SF_of_Z by assumption.
  destruct (Z.lt_total n 0) as [H|[->|H]]; [| reflexivity |].
  - rewrite repr_neg by lia. simpl. symmetry. apply Z.leb_le. lia.
  - rewrite repr_pos by lia. simpl. symmetry. apply Z.leb_gt. lia.
Qed.

(** A safe integer other than zero is the double of its integer
    value. *)
Lemma safe_integer_of_Z x :
  JS.isSafeInteger x = true -> JS.to_Z x <> 0 -> x = JS.of_Z (JS.to_Z x).
Proof.
  unfold JS.isSafeInteger, JS.isInteger, JS.to_Z.
  pose proof (Prim2SF_valid x) as V. intros H N.
  apply Prim2SF_inj.
  destruct (Prim2SF x) as [s0| | |s m e]; try tauto; try discriminate.
  apply andb_prop in H as [I B]. apply Z.ltb_lt in B.
  set (v := if 0 <=? e then Zpos m * 2 ^ e else Zpos m / 2 ^ (- e)) in *.
  assert (Hv : 0 < v /\ Zpos m = v * 2 ^ (- e) /\ Zdigits2 (Zpos m) + e = Zdigits2 v).
  { subst v. destruct (Z.leb_spec 0 e) as [L|L].
    - assert (P : 0 < 2 ^ e) by (apply Z.pow_pos_nonneg; lia).
      assert (Pv : 0 < Zpos m * 2 ^ e) by nia.
      assert (Dv : Zdigits2 (Zpos m * 2 ^ e) = Zdigits2 (Zpos m) + e)
        by (apply Zdigits2_mul_pow2; lia).
      assert (Z.abs (cond_Zopp s (Zpos m * 2 ^ e)) = Zpos m * 2 ^ e)
        by (destruct s; cbn [cond_Zopp]; lia).
      pose proof (digits_below _ Pv ltac:(lia)) as D.
      unfold SpecFloat.valid_binary, bounded, canonical_mantissa in V.
      apply andb_prop in V as [V _]. apply Z.eqb_eq in V.
      change (SpecFloat.fexp prec emax) with fexp in V. rewrite fexp_eq in V.
      change (Zpos (digits2_pos m)) with (Zdigits2 (Zpos m)) in V.
      assert (e = 0) by lia. subst e. change (- 0) with 0.
      rewrite !Z.pow_0_r, !Z.mul_1_r, Z.add_0_r.
      split; [lia|]. split; reflexivity.
    - simpl in I. apply Z.eqb_eq in I.
      assert (P : 0 < 2 ^ (- e)) by (apply Z.pow_pos_nonneg; lia).
      pose proof (Z.div_mod (Zpos m) (2 ^ (- e)) ltac:(lia)) as E.
      rewrite I, Z.add_0_r in E.
      assert (Pv : 0 < Zpos m / 2 ^ (- e)) by nia.
      split; [exact Pv|]. split; [lia|].
      rewrite E at 1. rewrite Z.mul_comm, Zdigits2_mul_pow2 by lia. lia. }
  destruct Hv as (Pv & M & D).
  assert (Bv : v < 2 ^ 53) by (destruct s; cbn [cond_Zopp] in B; lia).
  pose proof (digits_below v Pv Bv) as Dv.
  unfold SpecFloat.valid_binary, bounded, canonical_mantissa in V.
  apply andb_prop in V as [V _]. apply Z.eqb_eq in V.
  change (SpecFloat.fexp prec emax) with fexp in V. rewrite fexp_eq in V.
  change (Zpos (digits2_pos m)) with (Zdigits2 (Zpos m)) in V.
  assert (E : e = Zdigits2 v - 53) by lia.
  assert (C : S754_finite s m e = canon s v).
  { unfold canon. rewrite <- E. f_equal.
    replace (53 - Zdigits2 v) with (- e) by lia. rewrite <- M. reflexivity. }
  rewrite C, Prim2SF_of_Z by exact B.
  destruct s; simpl.
  - rewrite repr_neg by lia. now rewrite Z.opp_involutive.
  - now rewrite repr_pos by lia.
Qed.

(** Adding two safe integers whose sum is safe gives that sum. *)
Lemma add_safe x y :
  JS.isSafeInteger x = true -> JS.isSafeInteger y = true ->
  JS.to_Z x <> 0 ->
  Z.abs (JS.to_Z x + JS.to_Z y) < 2 ^ 53 ->
  (x + y)%float = JS.of_Z (JS.to_Z x + JS.to_Z y).
Proof.
  intros X Y N S.
  assert (Bx : Z.abs (JS.to_Z x) < 2 ^ 53)
    by (apply andb_prop in X as [_ X]; now apply Z.ltb_lt in X).
  assert (By : Z.abs (JS.to_Z y) < 2 ^ 53)
    by (apply andb_prop in Y as [_ Y]; now apply Z.ltb_lt in Y).
  destruct (Z.eq_dec (JS.to_Z y) 0) as [Zy|Zy].
  - rewrite Zy, Z.add_0_r, <- (safe_integer_of_Z x X N).
    apply Prim2SF_inj. rewrite add_spec.
    rewrite (safe_integer_of_Z x X N) at 1 2.
    rewrite Prim2SF_of_Z by assumption.
    unfold JS.isSafeInteger, JS.isInteger in Y. unfold JS.to_Z in Zy.
    destruct (Prim2SF y) as [sy| | |sy my ey]; try discriminate.
    + destruct (Z.lt_total (JS.to_Z x) 0) as [H|[H|H]]; [|lia|].
      * rewrite repr_neg by lia. reflexivity.
      * rewrite repr_pos by lia. reflexivity.
    + exfalso. apply andb_prop in Y as [Y _].
      destruct (Z.leb_spec 0 ey) as [L|L].
      * assert (0 < 2 ^ ey) by (apply Z.pow_pos_nonneg; lia).
        destruct sy; cbn [cond_Zopp] in Zy; nia.
      * simpl in Y. apply Z.eqb_eq in Y.
        assert (P : 0 < 2 ^ (- ey)) by (apply Z.pow_pos_nonneg; lia).
        pose proof (Z.div_mod (Zpos my) (2 ^ (- ey)) ltac:(lia)) as E.
        rewrite Y, Z.add_0_r in E. destruct sy; cbn [cond_Zopp] in Zy; nia.
  - rewrite (safe_integer_of_Z x X N) at 1.
    rewrite (safe_integer_of_Z y Y Zy) at 1.
    now apply add_of_Z.
Qed.

(** *** Sums of integers are integers *)
















(** *** Numbers of the cart *)

Lemma pos_nonneg x : (0 <? x)%float = true -> (0 <=? x)%float = true.
Proof.
  rewrite ltb_0, le_0. now destruct (Prim2SF x) as [[]|[]| |[] m e].
Qed.

(** An integer whose integer part is 0 is a zero. *)
Lemma integer_zero x :
  JS.isInteger x = true -> JS.to_Z x = 0 -> exists s, Prim2SF x = S754_zero s.
Proof.
  unfold JS.isInteger, JS.to_Z.
  destruct (Prim2SF x) as [s| | |s m e]; try discriminate; [eauto|].
  intros I Z. exfalso. destruct (Z.leb_spec 0 e) as [L|L].
  - assert (0 < 2 ^ e) by (apply Z.pow_pos_nonneg; lia).
    destruct s; cbn [cond_Zopp] in Z; nia.
  - simpl in I. apply Z.eqb_eq in I.
    assert (P : 0 < 2 ^ (- e)) by (apply Z.pow_pos_nonneg; lia).
    pose proof (Z.div_mod (Zpos m) (2 ^ (- e)) ltac:(lia)) as E.
    rewrite I, Z.add_0_r in E. destruct s; cbn [cond_Zopp] in Z; nia.
Qed.

(** A positive safe integer is the double of a positive integer below
    [2^53]. *)
Lemma safe_positive x :
  JS.isSafeInteger x = true -> (0 <? x)%float = true ->
  x = JS.of_Z (JS.to_Z x) /\ 0 < JS.to_Z x /\ JS.to_Z x < 2 ^ 53.
Proof.
  intros S P.
  assert (B : Z.abs (JS.to_Z x) < 2 ^ 53)
    by (apply andb_prop in S as [_ S]; now apply Z.ltb_lt in S).
  assert (N : JS.to_Z x <> 0).
  { intros Z. apply andb_prop in S as [S _].
    destruct (integer_zero x S Z) as [s E].
    rewrite ltb_0, E in P. discriminate. }
  pose proof (safe_integer_of_Z x S N) as E.
  split; [exact E|]. rewrite E, of_Z_ltb in P by exact B.
  apply Z.ltb_lt in P. lia.
Qed.

(** [n + 1] is exact up to [2^53]. *)
Lemma succ_of_Z n :
  0 <= n < 2 ^ 53 -> (JS.of_Z n + 1)%float = JS.of_Z (n + 1).
Proof.
  intros B. destruct (Z.eq_dec n (2 ^ 53 - 1)) as [->|N].
  - reflexivity.
  - change 1%float with (JS.of_Z 1). apply add_of_Z; lia.
Qed.

Lemma opp_safe d :
  JS.isSafeInteger (- d)%float = JS.isSafeInteger d /\
  JS.to_Z (- d)%float = - JS.to_Z d.
Proof.
  unfold JS.isSafeInteger, JS.isInteger, JS.to_Z. rewrite opp_spec.
  destruct (Prim2SF d) as [s|s| |s m e]; cbn [SFopp]; try (split; reflexivity).
  set (v := if 0 <=? e then Zpos m * 2 ^ e else Zpos m / 2 ^ (- e)).
  assert (E : cond_Zopp (negb s) v = - cond_Zopp s v)
    by (destruct s; cbn [cond_Zopp negb]; lia).
  rewrite E, Z.abs_opp. split; reflexivity.
Qed.

(** ** What each call leaves untouched *)

Lemma same_cart_refl s : same_cart s s.
Proof. repeat split. Qed.

Lemma same_cart_trans s1 s2 s3 :
  same_cart s1 s2 -> same_cart s2 s3 -> same_cart s1 s3.
Proof.
  unfold same_cart. intros (a & b & c & d) (a' & b' & c' & d').
  repeat split; congruence.
Qed.

Ltac unfold_m :=
  unfold bind, ret, throw, get_items, put_items, get_page, put_page,
    set_items, set_page, set_view, set_toast in *.

Lemma render_ok s :
  exists s', render s = Ok tt s' /\ same_cart s s' /\
             toast (page s') = toast (page s).
Proof.
  unfold render, totals, getCount, getSubtotal. unfold_m.
  destruct (bodyEl (view (page s))).
  - eexists. split; [reflexivity|]. now repeat split.
  - exists s. now repeat split.
Qed.

Lemma animateBadge_ok s :
  exists s', animateBadge s = Ok tt s' /\ same_cart s s' /\
             toast (page s') = toast (page s).
Proof.
  unfold animateBadge. unfold_m.
  destruct (badgeEl (view (page s))) as [[n cl]|].
  - eexists. split; [reflexivity|]. now repeat split.
  - exists s. now repeat split.
Qed.

Lemma showToast_some message type s t :
  toast (page s) = Some t ->
  exists s', showToast message type s = Ok tt s' /\ same_cart s s' /\
             toast (page s') = Some (toast_of message type).
Proof.
  intros H. unfold showToast. unfold_m. rewrite H.
  eexists. split; [reflexivity|]. now repeat split.
Qed.

Lemma showToast_none message type s :
  toast (page s) = None ->
  showToast message type s = Thrown TypeError s.
Proof. intros H. unfold showToast. unfold_m. now rewrite H. Qed.

Lemma showToast_same message type s :
  same_cart s (state_of (showToast message type s)).
Proof.
  destruct (toast (page s)) eqn:E.
  - destruct (showToast_some message type s _ E) as (s' & -> & H & _). exact H.
  - rewrite showToast_none by assumption. apply same_cart_refl.
Qed.

Lemma add_run id name price s :
  exists s1,
    same_cart (set_items (add_items id name price (items s)) s) s1 /\
    toast (page s1) = toast (page s) /\
    add id name price s =
      showToast ("🛒 " ++ name ++ " added to cart!") "success" s1.
Proof.
  unfold add, add_items.
  set (msg := "🛒 " ++ name ++ " added to cart!").
  unfold bind at 1. unfold get_items at 1.
  destruct (find (Item.has_id id) (items s)) as [existing|];
    unfold bind at 1; unfold put_items at 1; cbv beta iota;
    match goal with |- context [set_items ?l s] => set (s0 := set_items l s) end;
    (destruct (render_ok s0) as (s1 & E1 & F1 & T1);
     unfold bind at 1; rewrite E1;
     destruct (animateBadge_ok s1) as (s2 & E2 & F2 & T2);
     unfold bind at 1; rewrite E2;
     exists s2; split; [eapply same_cart_trans; eassumption|];
     split; [ rewrite T2, T1; reflexivity | reflexivity ]).
Qed.

Lemma add_same id name price s :
  same_cart (set_items (add_items id name price (items s)) s)
            (state_of (add id name price s)).
Proof.
  destruct (add_run id name price s) as (s1 & F & _ & ->).
  eapply same_cart_trans; [exact F | apply showToast_same].
Qed.

Lemma add_items_eq id name price s :
  items (state_of (add id name price s)) = add_items id name price (items s).
Proof. now destruct (add_same id name price s) as (-> & _). Qed.

Lemma changeQty_same id delta s :
  exists s', changeQty id delta s = Ok tt s' /\
    same_cart (set_items (changeQty_items id delta (items s)) s) s' /\
    toast (page s') = toast (page s).
Proof.
  unfold changeQty, changeQty_items.
  unfold bind at 1. unfold get_items at 1.
  destruct (find (Item.has_id id) (items s)) as [item|].
  - unfold bind at 1; unfold put_items at 1; cbv beta iota.
    destruct (Item.qty item + delta <=? 0)%float.
    + unfold bind at 1. unfold bind at 1. unfold get_items at 1.
      unfold put_items at 1. cbv beta iota.
      match goal with |- context [render ?x] => destruct (render_ok x) as (s1 & E1 & F1 & T1) end.
      exists s1. split; [exact E1|]. split; [exact F1 | exact T1].
    + unfold bind at 1. unfold ret at 1. cbv beta iota.
      match goal with |- context [render ?x] => destruct (render_ok x) as (s1 & E1 & F1 & T1) end.
      exists s1. split; [exact E1|]. split; [exact F1 | exact T1].
  - exists s. unfold ret. split; [reflexivity|].
    split; [|reflexivity]. destruct s; apply same_cart_refl.
Qed.

Lemma changeQty_items_eq id delta s :
  items (state_of (changeQty id delta s)) = changeQty_items id delta (items s).
Proof.
  destruct (changeQty_same id delta s) as (s' & E & (H & _) & _).
  rewrite E. exact H.
Qed.

(** ** Lists of line items *)

Lemma has_id_iff k i : Item.has_id k i = true <-> Item.id i = k.
Proof. unfold Item.has_id. apply String.eqb_eq. Qed.

Lemma has_id_add_qty k d i :
  Item.has_id k (Item.add_qty d i) = Item.has_id k i.
Proof. reflexivity. Qed.

Lemma find_none_iff k l :
  find (Item.has_id k) l = None <-> ~ In k (ids l).
Proof.
  induction l as [|x l IH]; simpl.
  - tauto.
  - destruct (Item.has_id k x) eqn:E.
    + apply has_id_iff in E. split; [discriminate | tauto].
    + rewrite IH. split.
      * intros H [H1|H1]; [|tauto].
        apply has_id_iff in H1. congruence.
      * tauto.
Qed.

Lemma find_some_id k l it :
  find (Item.has_id k) l = Some it -> Item.id it = k /\ In it l.
Proof.
  intros H. apply find_some in H as [H1 H2].
  now apply has_id_iff in H2.
Qed.

(** The found item splits the list: nothing before it has the id. *)
Lemma find_split k l it :
  find (Item.has_id k) l = Some it ->
  exists l1 l2, l = (l1 ++ it :: l2)%list /\ ~ In k (ids l1) /\
    forall f, update_first (Item.has_id k) f l = (l1 ++ f it :: l2)%list.
Proof.
  induction l as [|x l IH]; simpl; [discriminate|].
  destruct (Item.has_id k x) eqn:E.
  - intros [= <-]. exists [], l.
    split; [reflexivity|]. split; [simpl; tauto|].
    intros f. reflexivity.
  - intros H. destruct (IH H) as (l1 & l2 & -> & N & U).
    exists (x :: l1), l2.
    split; [reflexivity|]. split.
    + intros [H1|H1]; [|tauto]. apply has_id_iff in H1. congruence.
    + intros f. simpl. now rewrite U.
Qed.

Lemma update_first_ids k d l :
  ids (update_first (Item.has_id k) (Item.add_qty d) l) = ids l.
Proof.
  induction l as [|x l IH]; simpl; [reflexivity|].
  destruct (Item.has_id k x); simpl; [reflexivity | now rewrite IH].
Qed.

Lemma filter_update_first k d l :
  filter (fun i => negb (Item.has_id k i))
    (update_first (Item.has_id k) (Item.add_qty d) l)
  = filter (fun i => negb (Item.has_id k i)) l.
Proof.
  induction l as [|x l IH]; simpl; [reflexivity|].
  destruct (Item.has_id k x) eqn:E; simpl.
  - now rewrite has_id_add_qty, E.
  - now rewrite E, IH.
Qed.

Lemma filter_ids k l :
  ids (filter (fun i => negb (Item.has_id k i)) l)
  = filter (fun x => negb (String.eqb x k)) (ids l).
Proof.
  induction l as [|x l IH]; simpl; [reflexivity|].
  unfold Item.has_id at 1. destruct (String.eqb (Item.id x) k); simpl;
    now rewrite IH.
Qed.

Lemma filter_without k l :
  ~ In k (ids (filter (fun i => negb (Item.has_id k i)) l)).
Proof.
  rewrite filter_ids. intros H. apply filter_In in H as [_ H].
  now rewrite String.eqb_refl in H.
Qed.


Lemma positive_update_first k d l it :
  find (Item.has_id k) l = Some it ->
  (0 <? Item.qty it + d)%float = true ->
  positive_qty l ->
  positive_qty (update_first (Item.has_id k) (Item.add_qty d) l).
Proof.
  intros F H P. destruct (find_split _ _ _ F) as (l1 & l2 & -> & _ & U).
  rewrite U. unfold positive_qty in *.
  rewrite Forall_app in *. destruct P as [P1 P2].
  split; [exact P1|]. inversion P2; subst. constructor; assumption.
Qed.

Lemma positive_filter (p : Item.t -> bool) l :
  positive_qty l -> positive_qty (filter p l).
Proof.
  unfold positive_qty. rewrite !Forall_forall. intros H x Hx.
  apply filter_In in Hx. now apply H.
Qed.

Lemma positive_found k l it :
  positive_qty l -> find (Item.has_id k) l = Some it ->
  (0 <? Item.qty it)%float = true.
Proof.
  intros P F. apply find_some_id in F as [_ F].
  unfold positive_qty in P. rewrite Forall_forall in P. now apply P.
Qed.

(** *** [add] and [changeQty] keep both invariants *)




Lemma changeQty_items_positive id delta l :
  JS.isFinite delta = true ->
  positive_qty l -> positive_qty (changeQty_items id delta l).
Proof.
  unfold changeQty_items. intros D H.
  destruct (find (Item.has_id id) l) eqn:F; [|exact H].
  cbv zeta. destruct (Item.qty t + delta <=? 0)%float eqn:E.
  - rewrite filter_update_first. now apply positive_filter.
  - apply (positive_update_first _ _ _ _ F); [|exact H].
    apply add_finite_sign; [|exact D|exact E].
    now apply (positive_found id l).
Qed.

Lemma open_same s : exists s', open s = Ok tt s' /\ items s' = items s /\
  view (page s') = view (page s) /\ toast (page s') = toast (page s).
Proof.
  unfold open, getScrollbarWidth. unfold_m.
  destruct (drawerEl (page s)), (overlayEl (page s)); eexists; eauto.
Qed.

Lemma close_same s : exists s', close s = Ok tt s' /\ items s' = items s /\
  view (page s') = view (page s) /\ toast (page s') = toast (page s).
Proof.
  unfold close. unfold_m.
  destruct (drawerEl (page s)), (overlayEl (page s)); eexists; eauto.
Qed.

Lemma step_items_eq s c : items (step s c) = step_items c (items s).
Proof.
  unfold step. destruct c; simpl.
  - apply add_items_eq.
  - apply changeQty_items_eq.
  - destruct (open_same s) as (s' & E & H & _). rewrite E. exact H.
  - destruct (close_same s) as (s' & E & H & _). rewrite E. exact H.
Qed.


Lemma init_items p : items (init p) = [].
Proof.
  unfold init. destruct (render_ok {| items := []; page := p |})
    as (s' & E & (H & _) & _). rewrite E. exact H.
Qed.

Lemma run_snoc cs c s : run (cs ++ [c]) s = step (run cs s) c.
Proof. unfold run. now rewrite fold_left_app. Qed.



(** *** With integer deltas the quantities stay integers *)






(** ** Running a sequence of calls *)

Lemma run_items cs s :
  items (run cs s) = fold_left (fun l c => step_items c l) cs (items s).
Proof.
  revert s. induction cs as [|c cs IH]; intros s; [reflexivity|].
  simpl. now rewrite IH, step_items_eq.
Qed.

Lemma add_items_new id name price l :
  ~ In id (ids l) ->
  add_items id name price l
  = (l ++ [Item.mk id name (JS.parseFloat price) 1%float (emoji_for id)])%list.
Proof.
  intros H. apply find_none_iff in H. unfold add_items. now rewrite H.
Qed.

Lemma find_last k l it :
  ~ In k (ids l) -> Item.id it = k ->
  find (Item.has_id k) (l ++ [it]) = Some it.
Proof.
  intros N E. induction l as [|x l IH]; simpl.
  - apply has_id_iff in E. now rewrite E.
  - destruct (Item.has_id k x) eqn:H.
    + apply has_id_iff in H. simpl in N. tauto.
    + apply IH. simpl in N. tauto.
Qed.

Lemma update_first_last k f l it :
  ~ In k (ids l) -> Item.id it = k ->
  update_first (Item.has_id k) f (l ++ [it]) = (l ++ [f it])%list.
Proof.
  intros N E. destruct (find_split k _ it (find_last k l it N E))
    as (l1 & l2 & S & N1 & U).
  rewrite U. clear U. revert l1 S N1.
  induction l as [|x l IH]; intros l1 S N1.
  - destruct l1 as [|y l1]; simpl in *.
    + now injection S as <-.
    + injection S as -> S. destruct l1; discriminate.
  - destruct l1 as [|y l1]; simpl in *.
    + injection S as -> _. tauto.
    + injection S as -> S. f_equal. apply IH; tauto.
Qed.

Lemma add_items_last id name price l it :
  ~ In id (ids l) -> Item.id it = id ->
  add_items id name price (l ++ [it]) = (l ++ [Item.add_qty 1%float it])%list.
Proof.
  intros N E. unfold add_items. rewrite (find_last _ _ _ N E).
  now apply update_first_last.
Qed.

(** [add] that many times on the last line item, as long as the
    quantity stays within [2^53]. *)
Lemma add_calls_items id more l it n :
  ~ In id (ids l) -> Item.id it = id ->
  Item.qty it = JS.of_Z n -> 0 <= n ->
  n + Z.of_nat (List.length more) <= 2 ^ 53 ->
  fold_left (fun l c => step_items c l) (add_calls id more) (l ++ [it])%list
  = (l ++ [Item.mk (Item.id it) (Item.name it) (Item.price it)
             (JS.of_Z (n + Z.of_nat (List.length more))) (Item.emoji it)])%list.
Proof.
  intros N. revert it n. induction more as [|a more IH]; intros it n E Q P B.
  - simpl. rewrite Z.add_0_r, <- Q. now destruct it.
  - cbn [add_calls map fold_left step_items].
    rewrite (add_items_last _ _ _ _ _ N E).
    fold (add_calls id more). cbn [List.length] in B.
    rewrite (IH _ (n + 1)); try (exact E || lia).
    + cbn [Item.add_qty Item.id Item.name Item.price Item.emoji].
      do 3 f_equal. cbn [List.length]. f_equal. lia.
    + cbn [Item.add_qty Item.qty]. rewrite Q. apply succ_of_Z. lia.
Qed.

Lemma filter_has_id_last k l it :
  ~ In k (ids l) -> Item.id it = k ->
  filter (Item.has_id k) (l ++ [it]) = [it].
Proof.
  intros N E. rewrite filter_app. simpl.
  apply has_id_iff in E. rewrite E.
  replace (filter (Item.has_id k) l) with (@nil Item.t); [reflexivity|].
  symmetry. induction l as [|x l IH]; [reflexivity|]. simpl in *.
  destruct (Item.has_id k x) eqn:H.
  - apply has_id_iff in H. tauto.
  - apply IH. tauto.
Qed.

(** ** Totals *)

Lemma fold_count_map l a :
  fold_left (fun sum i => (sum + Item.qty i)%float) l a
  = fold_left PrimFloat.add (map Item.qty l) a.
Proof.
  revert a. induction l as [|x l IH]; intros a; simpl; [reflexivity|apply IH].
Qed.

Lemma fold_subtotal_map l a :
  fold_left (fun sum i => (sum + Item.price i * Item.qty i)%float) l a
  = fold_left PrimFloat.add
      (map (fun i => (Item.price i * Item.qty i)%float) l) a.
Proof.
  revert a. induction l as [|x l IH]; intros a; simpl; [reflexivity|apply IH].
Qed.

Lemma getCount_eq s : getCount s = Ok (itemCount_spec (items s)) s.
Proof.
  unfold getCount. unfold_m. now rewrite fold_count_map.
Qed.

Lemma getSubtotal_eq s : getSubtotal s = Ok (subtotal_spec (items s)) s.
Proof.
  unfold getSubtotal. unfold_m. now rewrite fold_subtotal_map.
Qed.

Lemma totals_eq s :
  totals s =
  Ok (itemCount_spec (items s), subtotal_spec (items s),
      delivery_of (items s), total_of (items s)) s.
Proof.
  unfold totals. unfold bind at 1. rewrite getCount_eq.
  unfold bind at 1. rewrite getSubtotal_eq. unfold_m.
  destruct (items s); reflexivity.
Qed.

(** A sum of positive quantities that starts from a number that is not
    negative is positive. *)
Lemma fold_count_positive l a :
  positive_qty l -> l <> [] -> (0 <=? a)%float = true ->
  (0 <? fold_left PrimFloat.add (map Item.qty l) a)%float = true.
Proof.
  intros P. revert a. induction P as [|x l H P IH]; intros a N A; [tauto|].
  simpl. pose proof (add_pos a (Item.qty x) A H) as S.
  destruct l as [|y l]; [exact S|].
  apply IH; [discriminate|]. now apply pos_nonneg.
Qed.

Lemma itemCount_positive l :
  positive_qty l -> l <> [] -> (0 <? itemCount_spec l)%float = true.
Proof. intros P N. now apply fold_count_positive. Qed.

Lemma itemCount_nonneg l : positive_qty l -> (0 <=? itemCount_spec l)%float = true.
Proof.
  intros P. destruct l as [|x l]; [reflexivity|].
  apply pos_nonneg, itemCount_positive; [exact P | discriminate].
Qed.

(** With positive quantities the cart is empty exactly when the count
    is 0, so the total [render] computes is the spec's. *)
Lemma total_of_spec l : positive_qty l -> total_of l = total_spec l.
Proof.
  intros P. unfold total_of, total_spec, delivery_of.
  destruct l as [|x l].
  - reflexivity.
  - rewrite itemCount_positive; [reflexivity | exact P | discriminate].
Qed.

(** *** Where the count is the exact sum *)




Lemma render_view s rows :
  bodyEl (view (page s)) = Some rows ->
  render s = Ok tt (set_page (set_view (rendered_view (items s) (view (page s))) (page s)) s).
Proof.
  intros H. unfold render. unfold bind at 1. unfold get_page at 1.
  cbv zeta. rewrite H. unfold bind at 1. rewrite totals_eq.
  unfold_m. reflexivity.
Qed.

(** ** Visibility of the drawer *)

Lemma contains_add c l : ClassList.contains c (ClassList.add c l) = true.
Proof.
  unfold ClassList.add. destruct (ClassList.contains c l) eqn:E; [exact E|].
  unfold ClassList.contains. rewrite existsb_app. simpl.
  rewrite String.eqb_refl. now rewrite orb_true_r.
Qed.

Lemma add_idem c l : ClassList.add c (ClassList.add c l) = ClassList.add c l.
Proof. unfold ClassList.add at 1. now rewrite contains_add. Qed.

Lemma contains_remove c l : ClassList.contains c (ClassList.remove c l) = false.
Proof.
  unfold ClassList.contains, ClassList.remove.
  induction l as [|x l IH]; simpl; [reflexivity|].
  destruct (String.eqb c x) eqn:E; simpl; [exact IH|]. now rewrite E.
Qed.

Lemma remove_idem c l :
  ClassList.remove c (ClassList.remove c l) = ClassList.remove c l.
Proof.
  unfold ClassList.remove. induction l as [|x l IH]; simpl; [reflexivity|].
  destruct (String.eqb c x) eqn:E; simpl; [exact IH|]. now rewrite E, IH.
Qed.

Lemma visibility_same s s' :
  drawerEl (page s') = drawerEl (page s) -> visibility s' = visibility s.
Proof. unfold visibility. now intros ->. Qed.

Lemma open_unmounted s : mounted s = false -> open s = Ok tt s.
Proof.
  unfold mounted, open. unfold_m.
  destruct (drawerEl (page s)), (overlayEl (page s)); easy.
Qed.

Lemma close_unmounted s : mounted s = false -> close s = Ok tt s.
Proof.
  unfold mounted, close. unfold_m.
  destruct (drawerEl (page s)), (overlayEl (page s)); easy.
Qed.

Lemma open_mounted s :
  mounted s = true ->
  exists s', open s = Ok tt s' /\ mounted s' = true /\ visibility s' = Open /\
    exists s'', open s' = Ok tt s'' /\
                drawerEl (page s'') = drawerEl (page s') /\
                overlayEl (page s'') = overlayEl (page s').
Proof.
  unfold mounted, open, getScrollbarWidth, visibility. unfold_m.
  destruct (drawerEl (page s)) as [d|], (overlayEl (page s)) as [o|];
    try discriminate.
  intros _. eexists. split; [reflexivity|]. simpl.
  rewrite contains_add. split; [reflexivity|]. split; [reflexivity|].
  eexists. split; [reflexivity|]. simpl. now rewrite !add_idem.
Qed.

Lemma close_mounted s :
  mounted s = true ->
  exists s', close s = Ok tt s' /\ mounted s' = true /\ visibility s' = Closed /\
    exists s'', close s' = Ok tt s'' /\
                drawerEl (page s'') = drawerEl (page s') /\
                overlayEl (page s'') = overlayEl (page s').
Proof.
  unfold mounted, close, visibility. unfold_m.
  destruct (drawerEl (page s)) as [d|], (overlayEl (page s)) as [o|];
    try discriminate.
  intros _. eexists. split; [reflexivity|]. simpl.
  rewrite contains_remove. split; [reflexivity|]. split; [reflexivity|].
  eexists. split; [reflexivity|]. simpl. now rewrite !remove_idem.
Qed.

(** ** Malformed prices *)

Lemma add_items_grows id name price l :
  ~ In id (ids l) -> add_items id name price l <> l.
Proof.
  intros N. rewrite add_items_new by exact N.
  intros H. apply (f_equal (@List.length Item.t)) in H.
  rewrite length_app in H. simpl in H. lia.
Qed.

(** ** Order of the line items *)

Lemma state_before_snoc cs c s0 j :
  (j <= List.length cs)%nat ->
  state_before (cs ++ [c]) s0 j = state_before cs s0 j.
Proof.
  intros H. unfold state_before. rewrite firstn_app.
  replace (j - List.length cs)%nat with 0%nat by lia.
  simpl. now rewrite app_nil_r.
Qed.

Lemma state_before_end cs s0 : state_before cs s0 (List.length cs) = run cs s0.
Proof. unfold state_before. now rewrite firstn_all. Qed.

Lemma inserted_at_lt cs s0 id k :
  inserted_at cs s0 id k -> (k < List.length cs)%nat.
Proof.
  intros [(c & H & _) _]. apply nth_error_Some. congruence.
Qed.

Lemma inserted_at_alive cs s0 id k :
  inserted_at cs s0 id k -> In id (ids (items (run cs s0))).
Proof.
  intros H. pose proof (inserted_at_lt _ _ _ _ H) as L.
  destruct H as [_ H]. rewrite <- state_before_end. apply H. lia.
Qed.

Lemma inserted_at_snoc_inv cs c s0 id k :
  inserted_at (cs ++ [c]) s0 id k ->
  ((k < List.length cs)%nat /\ inserted_at cs s0 id k) \/
  (k = List.length cs /\ inserts (run cs s0) c = Some id).
Proof.
  intros H. pose proof (inserted_at_lt _ _ _ _ H) as L.
  rewrite length_app in L. simpl in L.
  destruct H as [(c' & N & I) A].
  destruct (Nat.eq_dec k (List.length cs)) as [->|D].
  - right. split; [reflexivity|].
    rewrite nth_error_app2, Nat.sub_diag in N by lia. injection N as <-.
    rewrite state_before_snoc, state_before_end in I by lia. exact I.
  - left. assert (k < List.length cs)%nat by lia. split; [assumption|].
    split.
    + exists c'. rewrite nth_error_app1 in N by assumption.
      rewrite state_before_snoc in I by lia. now split.
    + intros j Hj. rewrite <- (state_before_snoc cs c) by lia.
      apply A. rewrite length_app. simpl. lia.
Qed.

Lemma inserted_at_snoc_old cs c s0 id k :
  inserted_at cs s0 id k ->
  In id (ids (items (step (run cs s0) c))) ->
  inserted_at (cs ++ [c]) s0 id k.
Proof.
  intros H I. pose proof (inserted_at_lt _ _ _ _ H) as L.
  destruct H as [(c' & N & J) A]. split.
  - exists c'. rewrite nth_error_app1 by assumption.
    rewrite state_before_snoc by lia. now split.
  - intros j Hj. rewrite length_app in Hj. simpl in Hj.
    destruct (Nat.eq_dec j (S (List.length cs))) as [->|D].
    + replace (S (List.length cs)) with (List.length (cs ++ [c]))
        by (rewrite length_app; simpl; lia).
      now rewrite state_before_end, run_snoc.
    + rewrite state_before_snoc by lia. apply A. lia.
Qed.

Lemma inserted_at_snoc_new cs c s0 id :
  inserts (run cs s0) c = Some id ->
  In id (ids (items (step (run cs s0) c))) ->
  inserted_at (cs ++ [c]) s0 id (List.length cs).
Proof.
  intros H I. split.
  - exists c. rewrite nth_error_app2, Nat.sub_diag by lia.
    rewrite state_before_snoc, state_before_end by lia. now split.
  - intros j Hj. rewrite length_app in Hj. simpl in Hj.
    replace j with (List.length (cs ++ [c])) by (rewrite length_app; simpl; lia).
    now rewrite state_before_end, run_snoc.
Qed.

(** A call either appends the id it inserts or keeps a sublist of the ids. *)
Lemma step_ids_cases s c :
  (exists id, inserts s c = Some id /\ ~ In id (ids (items s)) /\
              ids (items (step s c)) = (ids (items s) ++ [id])%list) \/
  (inserts s c = None /\
   exists f, ids (items (step s c)) = filter f (ids (items s))).
Proof.
  rewrite step_items_eq. destruct c as [id name price|id delta| |]; simpl.
  - unfold add_items. destruct (find (Item.has_id id) (items s)) eqn:F.
    + right. split; [reflexivity|]. exists (fun _ => true).
      rewrite update_first_ids. symmetry. apply filter_true.
    + left. exists id. apply find_none_iff in F.
      split; [reflexivity|]. split; [exact F|].
      unfold ids. now rewrite map_app.
  - right. split; [reflexivity|]. unfold changeQty_items.
    destruct (find (Item.has_id id) (items s)).
    + cbv zeta. destruct (Item.qty t + delta <=? 0)%float.
      * rewrite filter_update_first, filter_ids. eauto.
      * rewrite update_first_ids. exists (fun _ => true).
        symmetry. apply filter_true.
    + exists (fun _ => true). symmetry. apply filter_true.
  - right. split; [reflexivity|]. exists (fun _ => true).
    symmetry. apply filter_true.
  - right. split; [reflexivity|]. exists (fun _ => true).
    symmetry. apply filter_true.
Qed.

Lemma filter_split {A} (f : A -> bool) l l1 x r :
  filter f l = (l1 ++ x :: r)%list ->
  exists l1' r', l = (l1' ++ x :: r')%list /\ filter f r' = r.
Proof.
  revert l1. induction l as [|y l IH]; intros l1 H; simpl in H.
  - destruct l1; discriminate.
  - destruct (f y) eqn:E.
    + destruct l1 as [|z l1]; simpl in H.
      * injection H as -> H. exists [], l. now split.
      * injection H as -> H. destruct (IH _ H) as (l1' & r' & -> & R).
        exists (z :: l1'), r'. now split.
    + destruct (IH _ H) as (l1' & r' & -> & R).
      exists (y :: l1'), r'. now split.
Qed.

Lemma before_filter {A} (f : A -> bool) a b l :
  before a b (filter f l) -> before a b l.
Proof.
  intros (l1 & l2 & l3 & H).
  destruct (filter_split _ _ _ _ _ H) as (l1' & r' & -> & R).
  destruct (filter_split _ _ _ _ _ R) as (l2' & r'' & -> & _).
  now exists l1', l2', r''.
Qed.

Lemma before_snoc {A} (a b x : A) l :
  before a b (l ++ [x]) -> before a b l \/ (b = x /\ In a l).
Proof.
  intros (l1 & l2 & l3 & H).
  destruct (exists_last (l := b :: l3)) as (m & y & E); [discriminate|].
  rewrite E in H.
  replace (l1 ++ a :: l2 ++ m ++ [y])%list
    with ((l1 ++ a :: l2 ++ m) ++ [y])%list in H
    by (rewrite <- !app_assoc; simpl; now rewrite <- !app_assoc).
  apply app_inj_tail in H as [-> ->].
  destruct m as [|z m]; simpl in E.
  - injection E as -> _. right. split; [reflexivity|].
    rewrite app_nil_r. apply in_elt.
  - injection E as -> E. left. now exists l1, l2, m.
Qed.

Lemma insertion_order cs :
  forall s0 a b ka kb,
    before a b (ids (items (run cs s0))) ->
    inserted_at cs s0 a ka -> inserted_at cs s0 b kb -> (ka < kb)%nat.
Proof.
  induction cs as [|c cs IH] using rev_ind; intros s0 a b ka kb B Ha Hb.
  - apply inserted_at_lt in Ha. simpl in Ha. lia.
  - rewrite run_snoc in B.
    apply inserted_at_snoc_inv in Ha, Hb.
    destruct (step_ids_cases (run cs s0) c)
      as [(id & I & N & E) | (I & f & E)]; rewrite E in B.
    + apply before_snoc in B as [B | [-> Ia]].
      * destruct B as (l1 & l2 & l3 & B).
        destruct Ha as [[_ Ha] | [_ Ha]], Hb as [[_ Hb] | [_ Hb]];
          try (eapply IH; [exists l1, l2, l3; exact B | eassumption | eassumption]).
        all: rewrite I in *.
        -- injection Hb as <-. exfalso. apply N. rewrite B.
           rewrite in_app_iff. right. right. rewrite in_app_iff. right. now left.
        -- injection Ha as <-. exfalso. apply N. rewrite B.
           rewrite in_app_iff. right. now left.
        -- injection Ha as <-. exfalso. apply N. rewrite B.
           rewrite in_app_iff. right. now left.
      * destruct Hb as [[_ Hb] | [-> _]].
        -- exfalso. apply N. eapply inserted_at_alive. exact Hb.
        -- destruct Ha as [[Ha _] | [_ Ha]]; [exact Ha|].
           rewrite I in Ha. injection Ha as <-. tauto.
    + apply before_filter in B.
      destruct Ha as [[_ Ha] | [_ Ha]]; [|congruence].
      destruct Hb as [[_ Hb] | [_ Hb]]; [|congruence].
      eapply IH; eassumption.
Qed.

Lemma insertion_exists p cs id :
  In id (ids (items (run cs (init p)))) ->
  exists k, inserted_at cs (init p) id k.
Proof.
  revert id. induction cs as [|c cs IH] using rev_ind; intros id H.
  - simpl in H. now rewrite init_items in H.
  - rewrite run_snoc in H.
    destruct (step_ids_cases (run cs (init p)) c)
      as [(id' & I & N & E) | (I & f & E)].
    + pose proof H as H'. rewrite E, in_app_iff in H'.
      destruct H' as [H'|[->|[]]].
      * destruct (IH _ H') as (k & K). exists k.
        now apply inserted_at_snoc_old.
      * exists (List.length cs). now apply inserted_at_snoc_new.
    + pose proof H as H'. rewrite E in H'. apply filter_In in H' as [H' _].
      destruct (IH _ H') as (k & K). exists k. now apply inserted_at_snoc_old.
Qed.

Lemma filter_idem {A} (f : A -> bool) l : filter f (filter f l) = filter f l.
Proof.
  induction l as [|x l IH]; simpl; [reflexivity|].
  destruct (f x) eqn:E; simpl; [now rewrite E, IH | exact IH].
Qed.

Lemma add_items_others id name price l :
  filter (fun i => negb (Item.has_id id i)) (add_items id name price l)
  = filter (fun i => negb (Item.has_id id i)) l.
Proof.
  unfold add_items. destruct (find (Item.has_id id) l).
  - apply filter_update_first.
  - rewrite filter_app. simpl. unfold Item.has_id at 2. simpl.
    rewrite String.eqb_refl. simpl. apply app_nil_r.
Qed.

Lemma changeQty_items_others id delta l :
  filter (fun i => negb (Item.has_id id i)) (changeQty_items id delta l)
  = filter (fun i => negb (Item.has_id id i)) l.
Proof.
  unfold changeQty_items. destruct (find (Item.has_id id) l); [|reflexivity].
  cbv zeta. destruct (Item.qty t + delta <=? 0)%float.
  - now rewrite filter_idem, filter_update_first.
  - apply filter_update_first.
Qed.

(** ** The rendered view follows the items *)

Lemma add_unfold id name price s :
  add id name price s
  = (render ;; animateBadge ;;
     showToast ("🛒 " ++ name ++ " added to cart!") "success")
      (set_items (add_items id name price (items s)) s).
Proof.
  unfold add, add_items. unfold bind at 1. unfold get_items at 1.
  destruct (find (Item.has_id id) (items s)); reflexivity.
Qed.

Lemma render_synced s rows :
  bodyEl (view (page s)) = Some rows ->
  exists s', render s = Ok tt s' /\ items s' = items s /\ synced s'.
Proof.
  intros H. rewrite (render_view _ _ H). eexists. split; [reflexivity|].
  split; [reflexivity|]. now exists (view (page s)).
Qed.

Lemma animateBadge_synced s :
  synced s ->
  exists s', animateBadge s = Ok tt s' /\ items s' = items s /\ synced s'.
Proof.
  intros [v0 H]. unfold animateBadge. unfold_m. rewrite H.
  destruct (badgeEl v0) as [[n cl]|] eqn:B; simpl; rewrite B; simpl.
  - eexists. split; [reflexivity|]. split; [reflexivity|].
    exists {| bodyEl := bodyEl v0; emptyEl := emptyEl v0; footerEl := footerEl v0;
              badgeEl := Some (n, ClassList.add "navbar__cart-badge--bump" cl);
              cartBtn := cartBtn v0; subtotalEl := subtotalEl v0;
              totalEl := totalEl v0 |}.
    reflexivity.
  - exists s. split; [reflexivity|]. split; [reflexivity|].
    exists v0. exact H.
Qed.

Lemma showToast_synced message type s :
  synced s ->
  items (state_of (showToast message type s)) = items s /\
  synced (state_of (showToast message type s)).
Proof.
  intros [v0 H]. unfold showToast. unfold_m.
  destruct (toast (page s)); simpl; (split; [reflexivity|]); now exists v0.
Qed.

Lemma synced_body s : synced s -> exists rows, bodyEl (view (page s)) = Some rows.
Proof. intros [v0 H]. rewrite H. simpl. eauto. Qed.

Lemma step_synced s c : synced s -> synced (step s c).
Proof.
  intros H. destruct (synced_body _ H) as [rows B].
  unfold step. destruct c as [id name price|id delta| |]; cbn [call].
  - rewrite add_unfold.
    set (s0 := set_items (add_items id name price (items s)) s).
    destruct (render_synced s0 rows B) as (s1 & E1 & _ & S1).
    unfold bind at 1. rewrite E1.
    destruct (animateBadge_synced s1 S1) as (s2 & E2 & _ & S2).
    unfold bind at 1. rewrite E2.
    now apply showToast_synced.
  - unfold changeQty. unfold bind at 1. unfold get_items at 1.
    destruct (find (Item.has_id id) (items s)) as [item|]; [|exact H].
    unfold bind at 1. unfold put_items at 1. cbv beta iota.
    destruct (Item.qty item + delta <=? 0)%float.
    + unfold bind at 1. unfold bind at 1. unfold get_items at 1.
      unfold put_items at 1. cbv beta iota.
      match goal with
      | |- context [render ?x] => destruct (render_synced x rows B) as (s1 & -> & _ & S1)
      end.
      exact S1.
    + unfold bind at 1. unfold ret at 1. cbv beta iota.
      match goal with
      | |- context [render ?x] => destruct (render_synced x rows B) as (s1 & -> & _ & S1)
      end.
      exact S1.
  - destruct H as [v0 H]. destruct (open_same s) as (s' & -> & I & V & _).
    exists v0. cbn [state_of]. now rewrite V, I.
  - destruct H as [v0 H]. destruct (close_same s) as (s' & -> & I & V & _).
    exists v0. cbn [state_of]. now rewrite V, I.
Qed.

Lemma reachable_synced p rows cs :
  bodyEl (view p) = Some rows -> synced (run cs (init p)).
Proof.
  intros B. assert (S0 : synced (init p)).
  { unfold init.
    destruct (render_synced {| items := []; page := p |} rows B)
      as (s' & -> & _ & S). exact S. }
  generalize (init p) S0. clear. induction cs as [|c cs IH]; intros s S.
  - exact S.
  - simpl. apply IH. now apply step_synced.
Qed.

Lemma to_Z_of_Z_le n : Z.abs n <= 2 ^ 53 -> JS.to_Z (JS.of_Z n) = n.
Proof.
  intros B. destruct (Z.eq_dec n (2 ^ 53)) as [->|P]; [reflexivity|].
  destruct (Z.eq_dec n (- 2 ^ 53)) as [->|N]; [reflexivity|].
  apply to_Z_of_Z. lia.
Qed.

(** * Properties of the cart *)

(** C1, as the code has it: [add] on an id that is in the cart replaces
    the quantity of its line item by the double sum [qty + 1], which is
    one more whenever the quantity is an integer below 2^53, and keeps
    the name, price and emoji stored by the add that created it; on a new
    id it appends a line item of quantity 1; so [n <= 2^53] calls
    [add(id, ...)] in a row, whatever their names and prices, starting
    without the id, leave exactly one line item with that id, of
    quantity [n], with the first call's name, price and emoji. *)
Theorem add_accumulates_first_write_wins :
  forall (s : State) (id name price : string),
    (forall it, find (Item.has_id id) (items s) = Some it ->
       (exists l1 l2,
          items s = (l1 ++ it :: l2)%list /\ ~ In id (ids l1) /\
          items (state_of (add id name price s))
          = (l1 ++ Item.mk (Item.id it) (Item.name it) (Item.price it)
                     (Item.qty it + 1)%float (Item.emoji it) :: l2)%list) /\
       (forall n, Item.qty it = JS.of_Z n -> 0 <= n < 2 ^ 53 ->
          (Item.qty it + 1)%float = JS.of_Z (n + 1) /\
          JS.to_Z (Item.qty it + 1)%float = n + 1)) /\
    (~ In id (ids (items s)) ->
       items (state_of (add id name price s))
       = (items s ++ [Item.mk id name (JS.parseFloat price) 1%float (emoji_for id)])%list) /\
    (~ In id (ids (items s)) ->
       forall more : list (string * string),
         let calls := add_calls id ((name, price) :: more) in
         let n := Z.of_nat (List.length calls) in
         n <= 2 ^ 53 ->
         let line := Item.mk id name (JS.parseFloat price) (JS.of_Z n) (emoji_for id) in
         items (run calls s) = (items s ++ [line])%list /\
         filter (Item.has_id id) (items (run calls s)) = [line] /\
         JS.to_Z (Item.qty line) = n).
Proof.
  intros s id name price. split; [|split].
  - intros it F. split.
    + rewrite add_items_eq. unfold add_items. rewrite F.
      destruct (find_split _ _ _ F) as (l1 & l2 & E & N & U).
      exists l1, l2. split; [exact E|]. split; [exact N|]. apply U.
    + intros n Q B. rewrite Q, succ_of_Z by exact B.
      split; [reflexivity|]. apply to_Z_of_Z_le. lia.
  - intros N. rewrite add_items_eq. now apply add_items_new.
  - intros N more calls n B line.
    assert (L : n = 1 + Z.of_nat (List.length more)).
    { subst n calls. unfold add_calls. cbn [map List.length].
      rewrite length_map. lia. }
    assert (E : items (run calls s) = (items s ++ [line])%list).
    { subst calls. rewrite run_items.
      cbn [add_calls map fold_left step_items fst snd].
      rewrite (add_items_new _ _ _ _ N). fold (add_calls id more).
      rewrite (add_calls_items id more (items s) _ 1); try (reflexivity || lia || exact N).
      subst line. cbn [Item.id Item.name Item.price Item.emoji].
      now rewrite <- L. }
    split; [exact E|]. split.
    + rewrite E. now apply filter_has_id_last.
    + subst line. cbn [Item.qty]. apply to_Z_of_Z_le. lia.
Qed.

Lemma add_accumulates_first_write_wins_witness :
  ~ In "1" (ids (items (init page0))) /\
  items (run (add_calls "1" [("Burger", "5.00"); ("Cheeseburger", "free")])
             (init page0))
  = [Item.mk "1" "Burger" 5%float 2%float (Emoji "🍔")].
Proof.
  split; [simpl; tauto|].
  apply (proj2 (proj2 (add_accumulates_first_write_wins
                         (init page0) "1" "Burger" "5.00")));
    [simpl; tauto | simpl; lia].
Defined.

(** C1 as stated fails: a line item whose quantity is 2^53 is left with
    that very quantity by [add]; the increment is lost in the double
    addition.  The state is reached by [add("1", ...)] and
    [changeQty("1", 2^53 - 1)]. *)
Lemma add_at_2_53_is_absorbed :
  let s := run [CallAdd "1" "Burger" "5.00";
                CallChangeQty "1" 9007199254740991%float] (init page0) in
  let s' := state_of (add "1" "Burger" "5.00" s) in
  JS.isInteger 9007199254740991%float = true /\
  map (fun i => JS.to_Z (Item.qty i)) (items s) = [2 ^ 53] /\
  map (fun i => JS.to_Z (Item.qty i)) (items s') = [2 ^ 53] /\
  map (fun i => JS.to_Z (Item.qty i)) (items s') <> [2 ^ 53 + 1] /\
  items s' = items s.
Proof.
  vm_compute. repeat split; discriminate.
Qed.

(** C2, as the code has it: [changeQty] on an id that is in the cart
    replaces the quantity of its line item by the double sum
    [qty + delta]; when that is [<= 0] the line item is removed.  The
    sum is the integer sum whenever the quantity, the delta and their sum
    are integers of magnitude below 2^53.  [changeQty(id, -qty)] leaves
    no item with that id (for a finite quantity), and with a finite delta
    a cart whose quantities are positive stays so. *)
Theorem changeQty_adds_delta_or_removes :
  forall (s : State) (id : string) (delta : JS.number) (it : Item.t),
    find (Item.has_id id) (items s) = Some it ->
    let after d := items (state_of (changeQty id d s)) in
    let moved d := Item.mk (Item.id it) (Item.name it) (Item.price it)
                     (Item.qty it + d)%float (Item.emoji it) in
    ((Item.qty it + delta <=? 0)%float = false ->
       find (Item.has_id id) (after delta) = Some (moved delta) /\
       exists l1 l2,
         items s = (l1 ++ it :: l2)%list /\ ~ In id (ids l1) /\
         after delta = (l1 ++ moved delta :: l2)%list) /\
    ((Item.qty it + delta <=? 0)%float = true ->
       ~ In id (ids (after delta)) /\
       after delta = filter (fun i => negb (Item.has_id id i)) (items s)) /\
    (JS.isSafeInteger (Item.qty it) = true -> (0 <? Item.qty it)%float = true ->
     JS.isSafeInteger delta = true ->
     Z.abs (JS.to_Z (Item.qty it) + JS.to_Z delta) < 2 ^ 53 ->
       (Item.qty it + delta)%float = JS.of_Z (JS.to_Z (Item.qty it) + JS.to_Z delta) /\
       JS.to_Z (Item.qty it + delta)%float = JS.to_Z (Item.qty it) + JS.to_Z delta /\
       (Item.qty it + delta <=? 0)%float = (JS.to_Z (Item.qty it) + JS.to_Z delta <=? 0)) /\
    (JS.isFinite (Item.qty it) = true -> ~ In id (ids (after (- Item.qty it)%float))) /\
    (JS.isFinite delta = true ->
     positive_qty (items s) -> positive_qty (after delta)).
Proof.
  intros s id delta it F after moved.
  assert (R : forall d, (Item.qty it + d <=? 0)%float = true ->
            after d = filter (fun i => negb (Item.has_id id i)) (items s)).
  { intros d H. unfold after. rewrite changeQty_items_eq.
    unfold changeQty_items. rewrite F. cbv zeta. rewrite H.
    apply filter_update_first. }
  split; [|split; [|split; [|split]]].
  - intros H. unfold after. rewrite changeQty_items_eq.
    unfold changeQty_items. rewrite F. cbv zeta. rewrite H.
    destruct (find_split _ _ _ F) as (l1 & l2 & E & N & U).
    rewrite U. split.
    + clear U E. induction l1 as [|x l1 IH]; simpl.
      * rewrite has_id_add_qty.
        apply find_some_id in F as [F _]. apply has_id_iff in F. now rewrite F.
      * destruct (Item.has_id id x) eqn:H1.
        -- apply has_id_iff in H1. simpl in N. tauto.
        -- apply IH. simpl in N. tauto.
    + exists l1, l2. split; [exact E|]. split; [exact N | reflexivity].
  - intros H. rewrite (R _ H). split; [apply filter_without | reflexivity].
  - intros S P D B.
    destruct (safe_positive _ S P) as (_ & Hq & Bq).
    assert (E : (Item.qty it + delta)%float
                = JS.of_Z (JS.to_Z (Item.qty it) + JS.to_Z delta))
      by (apply add_safe; (assumption || lia)).
    split; [exact E|]. rewrite E. split.
    + now apply to_Z_of_Z.
    + now apply of_Z_leb.
  - intros Q. rewrite R by (now apply add_opp_finite). apply filter_without.
  - intros D P. unfold after. rewrite changeQty_items_eq.
    now apply changeQty_items_positive.
Qed.

Lemma changeQty_adds_delta_or_removes_witness :
  let s := run [CallAdd "2" "Pizza" "10"] (init page0) in
  find (Item.has_id "2") (items s)
  = Some (Item.mk "2" "Pizza" 10%float 1%float (Emoji "🍕")) /\
  find (Item.has_id "2") (items (state_of (changeQty "2" 3%float s)))
  = Some (Item.mk "2" "Pizza" 10%float 4%float (Emoji "🍕")) /\
  ~ In "2" (ids (items (state_of (changeQty "2" (-1)%float s)))).
Proof.
  split; [reflexivity|]. split.
  - apply (proj1 (changeQty_adds_delta_or_removes
             (run [CallAdd "2" "Pizza" "10"] (init page0)) "2" 3%float
             (Item.mk "2" "Pizza" 10%float 1%float (Emoji "🍕")) eq_refl)).
    reflexivity.
  - apply (proj1 (proj2 (changeQty_adds_delta_or_removes
             (run [CallAdd "2" "Pizza" "10"] (init page0)) "2" (-1)%float
             (Item.mk "2" "Pizza" 10%float 1%float (Emoji "🍕")) eq_refl))).
    reflexivity.
Defined.

(** C2 as stated fails: [changeQty("1", 2^53)] on a quantity of 1 stores
    2^53, not 2^53 + 1; the unit is lost in the double addition. *)
Lemma changeQty_by_2_53_loses_the_unit :
  let s := run [CallAdd "1" "Burger" "5.00"] (init page0) in
  let delta := 9007199254740992%float in
  let s' := state_of (changeQty "1" delta s) in
  JS.isInteger delta = true /\ JS.to_Z delta = 2 ^ 53 /\
  map (fun i => JS.to_Z (Item.qty i)) (items s) = [1] /\
  map (fun i => JS.to_Z (Item.qty i)) (items s') = [2 ^ 53] /\
  map (fun i => JS.to_Z (Item.qty i)) (items s') <> [1 + 2 ^ 53].
Proof.
  vm_compute. repeat split; discriminate.
Qed.

(** The quantity has to be finite for [changeQty(id, -qty)] to remove
    the line item: two integer deltas of 1.7e308 take the quantity to
    [Infinity], and [Infinity + -Infinity] is [NaN], which is not
    [<= 0]: the line item stays, with the quantity [NaN]. *)
Example changeQty_by_minus_infinity_stores_nan :
  let s := run [CallAdd "1" "Burger" "5.00";
                CallChangeQty "1" 1.7e308%float;
                CallChangeQty "1" 1.7e308%float] (init page0) in
  JS.isInteger 1.7e308%float = true /\
  map Item.qty (items s) = [infinity] /\
  map Item.qty (items (state_of (changeQty "1" (- infinity)%float s))) = [nan].
Proof. vm_compute. repeat split. Qed.

(** C3: in a cart whose quantities are positive, the total [render]
    computes is the subtotal plus the delivery fee when the item count is
    positive, and the subtotal itself (no fee) when the count is 0, which
    it is exactly when the cart is empty; the fee is 2.99; on a page with
    [#cartBody] and [#cartTotal] that total is what [render] hands to the
    total element. *)
Theorem total_adds_delivery_fee_unless_empty :
  forall s : State,
    positive_qty (items s) ->
    exists count subtotal delivery total,
      totals s = Ok (count, subtotal, delivery, total) s /\
      getCount s = Ok count s /\
      getSubtotal s = Ok subtotal s /\
      ((0 <? count)%float = true -> total = (subtotal + DELIVERY_FEE)%float) /\
      (count = 0%float -> total = subtotal) /\
      (0 <=? count)%float = true /\
      (items s <> [] -> (0 <? count)%float = true) /\
      (items s = [] -> count = 0%float) /\
      total = total_spec (items s) /\
      DELIVERY_FEE = 2.99%float /\
      (forall rows t0,
          bodyEl (view (page s)) = Some rows ->
          totalEl (view (page s)) = Some t0 ->
          totalEl (view (page (state_of (render s)))) = Some total).
Proof.
  intros s P.
  exists (itemCount_spec (items s)), (subtotal_spec (items s)),
    (delivery_of (items s)), (total_of (items s)).
  split; [apply totals_eq|]. split; [apply getCount_eq|].
  split; [apply getSubtotal_eq|].
  pose proof (total_of_spec _ P) as T. pose proof (itemCount_nonneg _ P) as N.
  split; [|split; [|split; [|split; [|split; [|split; [|split]]]]]].
  - intros H. rewrite T. unfold total_spec. now rewrite H.
  - intros H. rewrite T. unfold total_spec. now rewrite H.
  - exact N.
  - now apply itemCount_positive.
  - now intros ->.
  - exact T.
  - reflexivity.
  - intros rows t0 B E. rewrite (render_view _ _ B). simpl. now rewrite E.
Qed.

Lemma total_adds_delivery_fee_unless_empty_witness :
  let s := run (add_calls "1" [("Burger", "5.00"); ("Burger", "5.00")]) (init page0) in
  positive_qty (items s) /\
  exists total, fst_value (totals s) = Some (2%float, 10%float, 2.99%float, total) /\
                total = (10 + 2.99)%float.
Proof.
  assert (P : positive_qty
                (items (run (add_calls "1" [("Burger", "5.00"); ("Burger", "5.00")])
                            (init page0)))).
  { repeat constructor. }
  split; [exact P|].
  destruct (total_adds_delivery_fee_unless_empty _ P)
    as (count & subtotal & delivery & total & T & _ & _ & H & _).
  exists total. vm_compute in T. injection T as <- <- <- <-.
  split; reflexivity.
Defined.



(** C5: [changeQty] on an id that is not in the cart returns without
    throwing and leaves the whole state (items and page) as it was. *)
Theorem changeQty_absent_is_noop :
  forall (s : State) (id : string) (delta : JS.number),
    ~ In id (ids (items s)) ->
    changeQty id delta s = Ok tt s.
Proof.
  intros s id delta H. apply find_none_iff in H.
  unfold changeQty. unfold_m. now rewrite H.
Qed.

Lemma changeQty_absent_is_noop_witness :
  ~ In "7" (ids (items (init page0))) /\
  changeQty "7" (-1)%float (init page0) = Ok tt (init page0).
Proof.
  split; [simpl; tauto|].
  apply changeQty_absent_is_noop. simpl; tauto.
Defined.

(** C6, as the code has it: [add] with a malformed price is an add like
    any other.  For an id already in the cart the quantity becomes the
    double sum [qty + 1], one more for a quantity below 2^53; a new id
    gets a line item whose price is [parseFloat(price)] ([NaN] when
    nothing parses), so the cart has changed; and on a page with [#toast]
    the call returns with the success-kind "added to cart" message
    showing.  It throws only when the page has no [#toast], after the
    cart has been written. *)
Theorem add_with_malformed_price_still_adds :
  forall (s : State) (id name price : string),
    malformed_price price = true ->
    let r := add id name price s in
    (forall it, find (Item.has_id id) (items s) = Some it ->
       (exists l1 l2,
          items s = (l1 ++ it :: l2)%list /\ ~ In id (ids l1) /\
          items (state_of r)
          = (l1 ++ Item.mk (Item.id it) (Item.name it) (Item.price it)
                     (Item.qty it + 1)%float (Item.emoji it) :: l2)%list) /\
       (forall n, Item.qty it = JS.of_Z n -> 0 <= n < 2 ^ 53 ->
          JS.to_Z (Item.qty it + 1)%float = n + 1 /\
          items (state_of r) <> items s)) /\
    (~ In id (ids (items s)) ->
       items (state_of r)
       = (items s ++ [Item.mk id name (JS.parseFloat price) 1%float (emoji_for id)])%list /\
       items (state_of r) <> items s) /\
    (~ In id (ids (items s)) ->
       forall line, In line (items (state_of r)) -> Item.id line = id ->
         (is_nan (Item.price line) || (Item.price line <? 0)%float)%bool = true) /\
    (forall t, toast (page s) = Some t ->
       returns r = true /\
       toast (page (state_of r))
       = Some {| textContent := "🛒 " ++ name ++ " added to cart!";
                 className := "toast is-visible toast--success" |}) /\
    (toast (page s) = None -> r = Thrown TypeError (state_of r)).
Proof.
  intros s id name price M r. subst r.
  split; [|split; [|split; [|split]]].
  - intros it F.
    destruct (find_split _ _ _ F) as (l1 & l2 & E & N & U).
    assert (A : items (state_of (add id name price s))
                = (l1 ++ Item.mk (Item.id it) (Item.name it) (Item.price it)
                           (Item.qty it + 1)%float (Item.emoji it) :: l2)%list).
    { rewrite add_items_eq. unfold add_items. rewrite F. apply U. }
    split.
    + exists l1, l2. split; [exact E|]. split; [exact N | exact A].
    + intros n Q B.
      assert (T : JS.to_Z (Item.qty it + 1)%float = n + 1).
      { rewrite Q, succ_of_Z by exact B. apply to_Z_of_Z_le. lia. }
      split; [exact T|]. rewrite A, E. intros H. apply app_inv_head in H.
      injection H as H. apply (f_equal Item.qty) in H. cbn [Item.qty] in H.
      rewrite H, Q, to_Z_of_Z_le in T by lia. lia.
  - intros H. rewrite add_items_eq.
    split; [now apply add_items_new | now apply add_items_grows].
  - intros H line L E. rewrite add_items_eq, add_items_new in L by exact H.
    apply in_app_iff in L as [L|[<-|[]]]; [|exact M].
    exfalso. apply H. rewrite <- E. unfold ids. now apply in_map.
  - intros t T. destruct (add_run id name price s) as (s1 & _ & T1 & ->).
    rewrite <- T1 in T.
    destruct (showToast_some ("🛒 " ++ name ++ " added to cart!") "success" _ _ T)
      as (s2 & -> & _ & T2).
    split; [reflexivity | exact T2].
  - intros T. destruct (add_run id name price s) as (s1 & _ & T1 & ->).
    rewrite <- T1 in T. now rewrite showToast_none.
Qed.

Lemma add_with_malformed_price_still_adds_witness :
  malformed_price "abc" = true /\
  items (state_of (add "1" "Burger" "abc" (init page0))) <> items (init page0).
Proof.
  split; [reflexivity|].
  apply (proj1 (proj2 (add_with_malformed_price_still_adds
                         (init page0) "1" "Burger" "abc" eq_refl))).
  simpl; tauto.
Defined.

(** C6 as stated fails: with the unparsable price ["abc"] the call
    returns, the cart has a new line item whose price is [NaN], and the
    toast shows a success-kind message. *)
Lemma add_malformed_price_mutates_and_reports_success :
  let r := add "9" "Soup" "abc" (init page0) in
  malformed_price "abc" = true /\
  returns r = true /\
  items (init page0) = [] /\
  items (state_of r) = [Item.mk "9" "Soup" nan 1%float (Emoji "🍽️")] /\
  option_map className (toast (page (state_of r)))
  = Some "toast is-visible toast--success".
Proof. repeat split. Qed.


(** C7: [add] of an id in the cart keeps the order of the ids, [add] of
    a new id appends it at the end, [changeQty] keeps the order or only
    drops its id, and both leave the items of every other id as they
    were, in the same order.  So in every state reached from the empty
    cart each id has a call that inserted its line item, and the line
    items stand in the order of the calls that inserted them. *)
Theorem order_is_insertion_order :
  (forall (s : State) (id name price : string),
      In id (ids (items s)) ->
      ids (items (state_of (add id name price s))) = ids (items s)) /\
  (forall (s : State) (id name price : string),
      ~ In id (ids (items s)) ->
      ids (items (state_of (add id name price s))) = (ids (items s) ++ [id])%list) /\
  (forall (s : State) (id name price : string),
      filter (fun i => negb (Item.has_id id i)) (items (state_of (add id name price s)))
      = filter (fun i => negb (Item.has_id id i)) (items s)) /\
  (forall (s : State) (id : string) (delta : JS.number),
      let after := items (state_of (changeQty id delta s)) in
      (ids after = ids (items s) \/
       ids after = filter (fun x => negb (String.eqb x id)) (ids (items s))) /\
      filter (fun i => negb (Item.has_id id i)) after
      = filter (fun i => negb (Item.has_id id i)) (items s)) /\
  (forall (p : Page) (cs : list Call),
      let s := run cs (init p) in
      (forall id, In id (ids (items s)) -> exists k, inserted_at cs (init p) id k) /\
      (forall a b ka kb,
          before a b (ids (items s)) ->
          inserted_at cs (init p) a ka -> inserted_at cs (init p) b kb ->
          (ka < kb)%nat)).
Proof.
  split; [|split; [|split; [|split]]].
  - intros s id name price H. rewrite add_items_eq. unfold add_items.
    destruct (find (Item.has_id id) (items s)) eqn:F.
    + apply update_first_ids.
    + now apply find_none_iff in F.
  - intros s id name price H. rewrite add_items_eq, add_items_new by exact H.
    unfold ids. now rewrite map_app.
  - intros s id name price. rewrite add_items_eq. apply add_items_others.
  - intros s id delta after. subst after. rewrite changeQty_items_eq.
    split; [|apply changeQty_items_others].
    unfold changeQty_items. destruct (find (Item.has_id id) (items s)); [|now left].
    cbv zeta. destruct (Item.qty t + delta <=? 0)%float.
    + right. now rewrite filter_update_first, filter_ids.
    + left. apply update_first_ids.
  - intros p cs s. subst s. split.
    + intros id. apply insertion_exists.
    + intros a b ka kb. apply insertion_order.
Qed.

Lemma order_is_insertion_order_witness :
  let cs := [CallAdd "1" "Burger" "5.00"; CallAdd "2" "Pizza" "10";
             CallChangeQty "1" (-1)%float; CallAdd "1" "Burger" "5.00"] in
  ids (items (run cs (init page0))) = ["2"; "1"] /\
  inserted_at cs (init page0) "2" 1 /\
  inserted_at cs (init page0) "1" 3 /\
  (1 < 3)%nat.
Proof.
  cbv zeta.
  set (cs := [CallAdd "1" "Burger" "5.00"; CallAdd "2" "Pizza" "10";
              CallChangeQty "1" (-1)%float; CallAdd "1" "Burger" "5.00"]).
  assert (I2 : inserted_at cs (init page0) "2" 1).
  { split.
    - eexists. split; reflexivity.
    - intros j Hj. simpl in Hj.
      assert (E : j = 2%nat \/ j = 3%nat \/ j = 4%nat) by lia.
      destruct E as [-> | [-> | ->]]; vm_compute; tauto. }
  assert (I1 : inserted_at cs (init page0) "1" 3).
  { split.
    - eexists. split; reflexivity.
    - intros j Hj. simpl in Hj. assert (E : j = 4%nat) by lia.
      subst j. vm_compute. tauto. }
  split; [reflexivity|]. split; [exact I2|]. split; [exact I1|].
  apply (proj2 (proj2 (proj2 (proj2 (proj2 order_is_insertion_order))) page0 cs)
           "2" "1" 1%nat 3%nat); [|exact I2|exact I1].
  now exists [], [], [].
Defined.





(** C9, as the code has it: visibility is [Closed] or [Open]; a page
    whose markup is closed starts [Closed]; on a page with both
    [#cartDrawer] and [#cartOverlay], [open] yields [Open] and [close]
    yields [Closed] from every state, a second [open] or [close] leaves
    the drawer and the overlay as the first left them, and
    [open(); close()] ends [Closed]; on a page that lacks one of the two
    elements [open] and [close] do nothing; [add] and [changeQty] never
    change the visibility. *)
Theorem visibility_machine_on_mounted_page :
  (forall v : Visibility, v = Closed \/ v = Open) /\
  (forall p : Page, markup_closed p -> visibility (init p) = Closed) /\
  (forall s : State, mounted s = true ->
     let o := state_of (open s) in
     let c := state_of (close s) in
     let oo := state_of (open o) in
     let cc := state_of (close c) in
     returns (open s) = true /\ returns (close s) = true /\
     visibility o = Open /\ visibility c = Closed /\
     (visibility oo = Open /\
      drawerEl (page oo) = drawerEl (page o) /\
      overlayEl (page oo) = overlayEl (page o)) /\
     (visibility cc = Closed /\
      drawerEl (page cc) = drawerEl (page c) /\
      overlayEl (page cc) = overlayEl (page c)) /\
     visibility (state_of (close o)) = Closed) /\
  (forall s : State, mounted s = false ->
     open s = Ok tt s /\ close s = Ok tt s) /\
  (forall (s : State) (id name price : string),
     visibility (state_of (add id name price s)) = visibility s) /\
  (forall (s : State) (id : string) (delta : JS.number),
     visibility (state_of (changeQty id delta s)) = visibility s).
Proof.
  split; [|split; [|split; [|split; [|split]]]].
  - intros []; auto.
  - intros p H. unfold init.
    destruct (render_ok {| items := []; page := p |})
      as (s' & E & (_ & D & _) & _).
    rewrite E. cbn [state_of]. unfold visibility. rewrite D. simpl.
    unfold markup_closed in H. destruct (drawerEl p); [now rewrite H | reflexivity].
  - intros s H o c oo cc. subst oo cc o c.
    destruct (open_mounted s H) as (o & Eo & Mo & Vo & oo & Eoo & Doo & Ooo).
    destruct (close_mounted s H) as (c & Ec & Mc & Vc & cc & Ecc & Dcc & Occ).
    rewrite Eo, Ec. cbn [state_of returns]. rewrite Eoo, Ecc. cbn [state_of].
    destruct (close_mounted o Mo) as (c' & Ec' & _ & Vc' & _).
    rewrite Ec'. cbn [state_of].
    repeat split; try assumption.
    + rewrite <- Vo. now apply visibility_same.
    + rewrite <- Vc. now apply visibility_same.
  - intros s H. split; [now apply open_unmounted | now apply close_unmounted].
  - intros s id name price. apply visibility_same.
    now destruct (add_same id name price s) as (_ & -> & _).
  - intros s id delta. apply visibility_same.
    destruct (changeQty_same id delta s) as (s' & E & (_ & D & _) & _).
    rewrite E. exact D.
Qed.

Lemma visibility_machine_on_mounted_page_witness :
  mounted (init page0) = true /\
  visibility (state_of (open (init page0))) = Open.
Proof.
  split; [reflexivity|].
  apply (proj1 (proj2 (proj2 visibility_machine_on_mounted_page)) (init page0)).
  reflexivity.
Defined.

(** C9 as stated fails: on a page without [#cartOverlay], [open] returns
    at its guard and the drawer stays closed. *)
Lemma open_without_overlay_stays_closed :
  visibility (init page_without_overlay) = Closed /\
  visibility (state_of (open (init page_without_overlay))) <> Open.
Proof. split; [reflexivity | discriminate]. Qed.

(** C10: [open] and [close] return with the items, the rendered view
    and the toast as they were; after any sequence of them the items are
    the same list, and [getCount] and [getSubtotal] return what they
    returned before. *)
Theorem open_close_leave_cart_alone :
  forall (s : State) (l : list bool),
    let s' := run (toggles l) s in
    items s' = items s /\
    view (page s') = view (page s) /\
    toast (page s') = toast (page s) /\
    fst_value (getCount s') = fst_value (getCount s) /\
    fst_value (getSubtotal s') = fst_value (getSubtotal s).
Proof.
  intros s l. cbv zeta.
  assert (H : items (run (toggles l) s) = items s /\
              view (page (run (toggles l) s)) = view (page s) /\
              toast (page (run (toggles l) s)) = toast (page s)).
  { revert s. induction l as [|b l IH]; intros s; [now repeat split|].
    cbn [toggles map run fold_left].
    destruct (IH (step s (if b then CallOpen else CallClose))) as (I & V & T).
    unfold toggles, run in *. rewrite I, V, T. clear I V T IH.
    unfold step. destruct b; cbn [call].
    - destruct (open_same s) as (s' & -> & H). exact H.
    - destruct (close_same s) as (s' & -> & H). exact H. }
  destruct H as (I & V & T). repeat split; try assumption.
  - now rewrite !getCount_eq, I.
  - now rewrite !getSubtotal_eq, I.
Qed.

(** ** The spec's two scenarios *)

Example scenario_burger_twice :
  let s := run [CallAdd "1" "Burger" "5.00"; CallAdd "1" "Burger" "5.00"]
               (init page0) in
  items s = [Item.mk "1" "Burger" 5%float 2%float (Emoji "🍔")] /\
  fst_value (totals s) = Some (2%float, 10%float, 2.99%float, 12.99%float).
Proof. split; reflexivity. Qed.

Example scenario_pizza_removed :
  let s := run [CallAdd "2" "Pizza" "10"; CallChangeQty "2" (-1)%float] (init page0) in
  items s = [] /\
  fst_value (totals s) = Some (0%float, 0%float, 0%float, 0%float).
Proof. split; reflexivity. Qed.


(** * The cart's event handlers *)

(** The listeners the [Cart] module registers on the page. *)
Module CartEvents.

(** [document]'s [keydown] listener:
    [if (e.key === 'Escape' && drawerEl?.classList.contains('is-open')) close();] *)
Definition onKeydown (key : string) : M unit :=
  p <- get_page ;;
  let is_open :=
    match drawerEl p with
    | Some d => ClassList.contains "is-open" (classList d)
    | None => false
    end in
  if (String.eqb key "Escape" && is_open)%bool then close else ret tt.

(** The delegated [click] listener of [#cartBody], on a quantity button
    that carries [data-id] and [data-action], as the ones of the row
    template do.
    [changeQty(id, action === 'increment' ? 1 : -1)] *)
Definition onQtyClick (id action : string) : M unit :=
  changeQty id (if String.eqb action "increment" then 1%float else (-1)%float).

End CartEvents.

Import CartEvents.

(** ** Undoing a change of quantity *)

Lemma filter_others_absent k l :
  ~ In k (ids l) -> filter (fun i => negb (Item.has_id k i)) l = l.
Proof.
  induction l as [|x l IH]; simpl; intros H; [reflexivity|].
  destruct (Item.has_id k x) eqn:E.
  - apply has_id_iff in E. tauto.
  - simpl. f_equal. apply IH. tauto.
Qed.

Lemma find_update_first k d l it :
  find (Item.has_id k) l = Some it ->
  find (Item.has_id k) (update_first (Item.has_id k) (Item.add_qty d) l)
  = Some (Item.add_qty d it).
Proof.
  induction l as [|x l IH]; simpl; [discriminate|].
  destruct (Item.has_id k x) eqn:E; simpl.
  - intros [= <-]. now rewrite has_id_add_qty, E.
  - rewrite E. exact IH.
Qed.

(** Two changes of the first item with the id that cancel. *)
Lemma update_first_back k d e l it :
  find (Item.has_id k) l = Some it ->
  (Item.qty it + d + e)%float = Item.qty it ->
  update_first (Item.has_id k) (Item.add_qty e)
    (update_first (Item.has_id k) (Item.add_qty d) l) = l.
Proof.
  induction l as [|x l IH]; simpl; [discriminate|].
  destruct (Item.has_id k x) eqn:E; simpl.
  - intros [= <-] Q. rewrite has_id_add_qty, E. f_equal.
    destruct x. unfold Item.add_qty. simpl in *. now rewrite Q.
  - intros F Q. rewrite E. f_equal. now apply IH.
Qed.

(** For a positive safe integer [q] and a safe integer [d] with
    [0 < q + d < 2^53], adding [d] and then [-d] gives [q] back, and
    neither sum is [<= 0]. *)
Lemma add_then_opp q d :
  JS.isSafeInteger q = true -> (0 <? q)%float = true ->
  JS.isSafeInteger d = true ->
  0 < JS.to_Z q + JS.to_Z d < 2 ^ 53 ->
  (q + d <=? 0)%float = false /\
  (q + d + - d)%float = q /\
  (q + d + - d <=? 0)%float = false.
Proof.
  intros Sq Pq Sd B.
  destruct (safe_positive _ Sq Pq) as (Eq & Hq & Bq).
  destruct (opp_safe d) as [So To].
  assert (E1 : (q + d)%float = JS.of_Z (JS.to_Z q + JS.to_Z d))
    by (apply add_safe; (assumption || lia)).
  assert (T1 : JS.to_Z (q + d)%float = JS.to_Z q + JS.to_Z d)
    by (rewrite E1; apply to_Z_of_Z; lia).
  assert (S1 : JS.isSafeInteger (q + d)%float = true)
    by (rewrite E1; apply isSafeInteger_of_Z; lia).
  assert (E2 : (q + d + - d)%float = q).
  { rewrite add_safe; rewrite ?So, ?To, ?T1; try (assumption || lia).
    rewrite Eq at 2. f_equal. lia. }
  split; [|split; [exact E2|]].
  - rewrite E1, of_Z_leb by lia. apply Z.leb_gt. lia.
  - rewrite E2, Eq, of_Z_leb by lia. apply Z.leb_gt. lia.
Qed.

Lemma changeQty_items_undo k d l it :
  find (Item.has_id k) l = Some it ->
  JS.isSafeInteger (Item.qty it) = true -> (0 <? Item.qty it)%float = true ->
  JS.isSafeInteger d = true ->
  0 < JS.to_Z (Item.qty it) + JS.to_Z d < 2 ^ 53 ->
  changeQty_items k (- d)%float (changeQty_items k d l) = l.
Proof.
  intros F S P D B.
  destruct (add_then_opp _ _ S P D B) as (L1 & E & L2).
  unfold changeQty_items at 2. rewrite F. cbv zeta. rewrite L1.
  unfold changeQty_items. rewrite (find_update_first _ _ _ _ F). cbv zeta.
  cbn [Item.add_qty Item.qty]. rewrite L2.
  now apply (update_first_back k d (- d)%float l it).
Qed.

Lemma safe_found k l it :
  safe_qty l -> find (Item.has_id k) l = Some it ->
  JS.isSafeInteger (Item.qty it) = true.
Proof.
  intros S F. apply find_some_id in F as [_ F].
  unfold safe_qty in S. rewrite Forall_forall in S. now apply S.
Qed.

Lemma add_then_decrement_items id name price l :
  positive_qty l -> safe_qty l ->
  (forall it, find (Item.has_id id) l = Some it ->
              JS.to_Z (Item.qty it) + 1 < 2 ^ 53) ->
  changeQty_items id (-1)%float (add_items id name price l) = l.
Proof.
  intros P S B. unfold add_items.
  destruct (find (Item.has_id id) l) as [it|] eqn:F.
  - pose proof (positive_found _ _ _ P F) as Pq.
    pose proof (safe_found _ _ _ S F) as Sq.
    destruct (safe_positive _ Sq Pq) as (_ & Hq & _).
    specialize (B _ eq_refl).
    assert (T : 0 < JS.to_Z (Item.qty it) + JS.to_Z 1%float < 2 ^ 53)
      by (change (JS.to_Z 1%float) with 1; lia).
    destruct (add_then_opp _ 1%float Sq Pq eq_refl T) as (_ & E & L2).
    change (- (1))%float with (-1)%float in E, L2.
    unfold changeQty_items. rewrite (find_update_first _ _ _ _ F). cbv zeta.
    cbn [Item.add_qty Item.qty]. rewrite L2.
    now apply (update_first_back id 1%float (-1)%float l it).
  - apply find_none_iff in F.
    unfold changeQty_items. rewrite find_last by (exact F || reflexivity).
    cbv zeta. cbn [Item.qty].
    replace (1 + -1 <=? 0)%float with true by reflexivity.
    rewrite filter_update_first, filter_app. cbn [filter].
    unfold Item.has_id at 2. cbn [Item.id]. rewrite String.eqb_refl.
    cbn [negb]. rewrite app_nil_r. now apply filter_others_absent.
Qed.

(** X1: in a cart whose quantities are positive integers below 2^53,
    [add(id, ...)] followed by [changeQty(id, -1)] leaves the items
    exactly as they were, whether the id was in the cart or not (the
    incremented quantity staying below 2^53); and for an id in the cart,
    [changeQty(id, d)] followed by [changeQty(id, -d)] does so for every
    integer [d] with [0 < qty + d < 2^53]. *)
Theorem quantity_changes_undo :
  forall s : State,
    positive_qty (items s) -> safe_qty (items s) ->
    (forall id name price,
        (forall it, find (Item.has_id id) (items s) = Some it ->
                    JS.to_Z (Item.qty it) + 1 < 2 ^ 53) ->
        items (run [CallAdd id name price; CallChangeQty id (-1)%float] s)
        = items s) /\
    (forall id d it,
        find (Item.has_id id) (items s) = Some it ->
        JS.isSafeInteger d = true ->
        0 < JS.to_Z (Item.qty it) + JS.to_Z d < 2 ^ 53 ->
        items (run [CallChangeQty id d; CallChangeQty id (- d)%float] s)
        = items s).
Proof.
  intros s P S. split.
  - intros id name price B. rewrite run_items. cbn [fold_left step_items].
    now apply add_then_decrement_items.
  - intros id d it F D B. rewrite run_items. cbn [fold_left step_items].
    apply (changeQty_items_undo _ _ _ _ F); try assumption.
    + now apply (safe_found id (items s)).
    + now apply (positive_found id (items s)).
Qed.

Lemma quantity_changes_undo_witness :
  let s := run [CallAdd "1" "Burger" "5.00"; CallAdd "2" "Pizza" "10"] (init page0) in
  positive_qty (items s) /\ safe_qty (items s) /\
  items (run [CallAdd "3" "Sushi" "12.50"; CallChangeQty "3" (-1)%float] s) = items s /\
  items (run [CallChangeQty "2" 41%float; CallChangeQty "2" (-41)%float] s) = items s.
Proof.
  assert (P : positive_qty
                (items (run [CallAdd "1" "Burger" "5.00"; CallAdd "2" "Pizza" "10"]
                            (init page0)))) by (repeat constructor).
  assert (S : safe_qty
                (items (run [CallAdd "1" "Burger" "5.00"; CallAdd "2" "Pizza" "10"]
                            (init page0)))) by (repeat constructor).
  split; [exact P|]. split; [exact S|]. split.
  - apply (proj1 (quantity_changes_undo _ P S)). intros it F. discriminate F.
  - apply (proj2 (quantity_changes_undo _ P S) "2" 41%float
             (Item.mk "2" "Pizza" 10%float 1%float (Emoji "🍕")) eq_refl eq_refl).
    vm_compute. split; reflexivity.
Defined.

(** ** The quantity buttons *)

Lemma changeQty_absent_noop s id delta :
  ~ In id (ids (items s)) -> changeQty id delta s = Ok tt s.
Proof.
  intros H. apply find_none_iff in H.
  unfold changeQty. unfold_m. now rewrite H.
Qed.

Lemma changeQty_state id d s it rows :
  find (Item.has_id id) (items s) = Some it ->
  bodyEl (view (page s)) = Some rows ->
  changeQty id d s
  = Ok tt {| items := changeQty_items id d (items s);
             page := set_view (rendered_view (changeQty_items id d (items s))
                                             (view (page s))) (page s) |}.
Proof.
  intros F B. unfold changeQty, changeQty_items.
  unfold bind at 1. unfold get_items at 1. rewrite F.
  unfold bind at 1. unfold put_items at 1. cbv beta iota zeta.
  destruct (Item.qty it + d <=? 0)%float.
  - unfold bind at 1. unfold bind at 1. unfold get_items at 1.
    unfold put_items at 1. cbv beta iota.
    erewrite render_view by exact B. reflexivity.
  - unfold bind at 1. unfold ret at 1. cbv beta iota.
    erewrite render_view by exact B. reflexivity.
Qed.

Lemma rendered_view_again l l1 v0 :
  rendered_view l (rendered_view l1 (rendered_view l v0)) = rendered_view l v0.
Proof.
  unfold rendered_view. cbn [bodyEl emptyEl footerEl badgeEl cartBtn subtotalEl totalEl].
  destruct (emptyEl v0), (footerEl v0), (badgeEl v0), (cartBtn v0),
    (subtotalEl v0), (totalEl v0); reflexivity.
Qed.

(** X2: on a page with [#cartBody], in every state reached from the
    empty cart, a click on a "+" quantity button followed by a click on
    the "−" button with the same [data-id] puts the whole state back
    (items, rendered rows, badge, totals and toast are what they were),
    provided the line item of that id has a positive integer quantity
    that stays below 2^53 when incremented.  Buttons whose id is not in
    the cart change nothing. *)
Theorem plus_then_minus_restores_state :
  forall (p : Page) (rows : list Row) (cs : list Call) (id : string),
    bodyEl (view p) = Some rows ->
    let s := run cs (init p) in
    (forall it, find (Item.has_id id) (items s) = Some it ->
       JS.isSafeInteger (Item.qty it) = true /\
       (0 <? Item.qty it)%float = true /\
       JS.to_Z (Item.qty it) + 1 < 2 ^ 53) ->
    state_of (onQtyClick id "decrement" (state_of (onQtyClick id "increment" s))) = s.
Proof.
  intros p rows cs id B s Q.
  destruct (reachable_synced p rows cs B) as [v0 V]. fold s in V.
  unfold onQtyClick. cbn [String.eqb Ascii.eqb Bool.eqb].
  destruct (find (Item.has_id id) (items s)) as [it|] eqn:F.
  - destruct (Q _ eq_refl) as (Sq & Pq & Bq).
    destruct (safe_positive _ Sq Pq) as (_ & Hq & _).
    assert (T : 0 < JS.to_Z (Item.qty it) + JS.to_Z 1%float < 2 ^ 53)
      by (change (JS.to_Z 1%float) with 1; lia).
    destruct (add_then_opp _ 1%float Sq Pq eq_refl T) as (L1 & _ & _).
    assert (B1 : bodyEl (view (page s)) = Some (map row_of (items s)))
      by (now rewrite V).
    rewrite (changeQty_state _ _ _ _ _ F B1). cbn [state_of].
    erewrite changeQty_state; cycle 1.
    + cbn [items]. unfold changeQty_items. rewrite F. cbv zeta. rewrite L1.
      exact (find_update_first _ _ _ _ F).
    + reflexivity.
    + cbn [state_of items page set_view view].
      assert (U := changeQty_items_undo id 1%float _ _ F Sq Pq eq_refl T).
      change (- (1))%float with (-1)%float in U. rewrite U.
      rewrite V, rendered_view_again, <- V.
      destruct s as [its [dr ov vw ts bd]]. reflexivity.
  - apply find_none_iff in F.
    rewrite (changeQty_absent_noop _ _ _ F). cbn [state_of].
    now rewrite (changeQty_absent_noop _ _ _ F).
Qed.

Lemma plus_then_minus_restores_state_witness :
  let s := run [CallAdd "2" "Pizza" "10"] (init page0) in
  bodyEl (view page0) = Some [] /\
  state_of (onQtyClick "2" "decrement" (state_of (onQtyClick "2" "increment" s))) = s.
Proof.
  split; [reflexivity|].
  apply (plus_then_minus_restores_state page0 [] [CallAdd "2" "Pizza" "10"] "2" eq_refl).
  intros it [= <-]. vm_compute. repeat split.
Defined.

(** The bound is needed: at a quantity of 2^53 the "+" click is
    absorbed and the "−" click then takes one off. *)
Example plus_then_minus_at_2_53 :
  let s := run [CallAdd "2" "Pizza" "10";
                CallChangeQty "2" 9007199254740991%float] (init page0) in
  let s' := state_of (onQtyClick "2" "decrement"
                        (state_of (onQtyClick "2" "increment" s))) in
  map (fun i => JS.to_Z (Item.qty i)) (items s) = [2 ^ 53] /\
  map (fun i => JS.to_Z (Item.qty i)) (items s') = [2 ^ 53 - 1].
Proof. vm_compute. split; reflexivity. Qed.

(** ** The Escape key *)

(** X3: the Escape key closes an open drawer on a page that has both
    the drawer and the overlay; while the drawer is closed, and for every
    other key, the listener writes nothing: the state stays the same
    value (unlike [close()], which would still reset [body.style]). *)
Theorem escape_closes_only_an_open_drawer :
  (forall s : State,
      mounted s = true ->
      visibility (state_of (onKeydown "Escape" s)) = Closed) /\
  (forall (s : State) (key : string),
      visibility s = Closed \/ key <> "Escape" ->
      onKeydown key s = Ok tt s).
Proof.
  split.
  - intros s M. unfold onKeydown. unfold bind at 1. unfold get_page at 1.
    cbn [String.eqb Ascii.eqb Bool.eqb andb].
    destruct (close_mounted s M) as (c & Ec & _ & Vc & _).
    destruct (drawerEl (page s)) as [d|] eqn:D.
    + destruct (ClassList.contains "is-open" (classList d)) eqn:C.
      * rewrite Ec. exact Vc.
      * unfold ret. cbn [state_of]. unfold visibility. now rewrite D, C.
    + unfold mounted in M. now rewrite D in M.
  - intros s key H. unfold onKeydown. unfold_m.
    destruct H as [H|H].
    + unfold visibility in H. destruct (drawerEl (page s)) as [d|].
      * destruct (ClassList.contains "is-open" (classList d)); [discriminate|].
        now rewrite andb_false_r.
      * now rewrite andb_false_r.
    + apply String.eqb_neq in H. now rewrite H.
Qed.

Lemma escape_closes_only_an_open_drawer_witness :
  let s := state_of (open (init page0)) in
  visibility s = Open /\ mounted s = true /\
  visibility (state_of (onKeydown "Escape" s)) = Closed /\
  onKeydown "Enter" s = Ok tt s.
Proof.
  split; [reflexivity|]. split; [reflexivity|]. split.
  - now apply (proj1 escape_closes_only_an_open_drawer).
  - apply (proj2 escape_closes_only_an_open_drawer). right. discriminate.
Defined.

(** ** What [render] shows *)

(** X4: on a page with [#cartBody], in every state reached from the
    empty cart the empty-cart placeholder and the footer are shown in
    turn: the placeholder has [display: flex] and the footer
    [display: none] exactly when there are no items, [none] and [block]
    otherwise; and [render] has appended one [div] per line item, in the
    items' order, each of class [cart-item], tagged with the item's id
    and filled with the row template of that item. *)
Theorem placeholder_and_footer_follow_the_items :
  forall (p : Page) (rows : list Row) (cs : list Call),
    bodyEl (view p) = Some rows ->
    let s := run cs (init p) in
    let v := view (page s) in
    (forall d, emptyEl v = Some d ->
               d = match items s with [] => "flex" | _ :: _ => "none" end) /\
    (forall d, footerEl v = Some d ->
               d = match items s with [] => "none" | _ :: _ => "block" end) /\
    (exists rs, bodyEl v = Some rs /\
       List.length rs = List.length (items s) /\
       map row_itemId rs = ids (items s) /\
       map row_innerHTML rs = map row_template (items s) /\
       (forall r, In r rs -> row_className r = "cart-item")).
Proof.
  intros p rows cs B s v. subst v.
  destruct (reachable_synced p rows cs B) as [v0 V]. fold s in V. rewrite V.
  unfold rendered_view. cbn [bodyEl emptyEl footerEl].
  split; [|split].
  - intros d. destruct (emptyEl v0); simpl; [|discriminate].
    intros [= <-]. now destruct (items s).
  - intros d. destruct (footerEl v0); simpl; [|discriminate].
    intros [= <-]. now destruct (items s).
  - eexists. split; [reflexivity|]. unfold ids. rewrite !map_map, length_map.
    repeat split. intros r R. apply in_map_iff in R as (i & <- & _). reflexivity.
Qed.

Lemma placeholder_and_footer_follow_the_items_witness :
  let s := run [CallAdd "2" "Pizza" "10"; CallChangeQty "2" (-1)%float] (init page0) in
  bodyEl (view page0) = Some [] /\
  emptyEl (view (page s)) = Some "flex" /\
  "flex" = match items s with [] => "flex" | _ :: _ => "none" end.
Proof.
  split; [reflexivity|]. split; [reflexivity|].
  apply (proj1 (placeholder_and_footer_follow_the_items page0 []
                  [CallAdd "2" "Pizza" "10"; CallChangeQty "2" (-1)%float] eq_refl)).
  reflexivity.
Defined.

(** ** The emoji of a line item *)

Lemma emojiMap_keys_not_inherited k :
  In k (map fst emojiMap) -> existsb (String.eqb k) object_prototype = false.
Proof.
  simpl. intros [<-|[<-|[<-|[<-|[<-|[<-|[<-|[<-|[]]]]]]]]]; reflexivity.
Qed.

(** X5: the emoji [add] stores for a new id is the map's own entry for
    the ids ["1"] to ["8"]; for every other id it is the default plate,
    except for the twelve keys every object inherits from
    [Object.prototype] (["constructor"], ["toString"], ...): for those
    [emojiMap[id]] is the inherited member, which is truthy, so the
    default is not used and the stored value is not an emoji string. *)
Theorem emoji_lookup_falls_back_to_default :
  forall id : string,
    (forall e, In (id, e) emojiMap -> emoji_for id = Emoji e) /\
    (~ In id (map fst emojiMap) -> ~ In id object_prototype ->
       emoji_for id = Emoji "🍽️") /\
    (In id object_prototype -> emoji_for id = Inherited id) /\
    (forall (s : State) (name price : string),
        ~ In id (ids (items s)) ->
        exists line,
          find (Item.has_id id) (items (state_of (add id name price s))) = Some line /\
          Item.emoji line = emoji_for id).
Proof.
  intros id. split; [|split; [|split]].
  - intros e H. simpl in H.
    destruct H as [H|[H|[H|[H|[H|[H|[H|[H|[]]]]]]]]]; injection H as <- <-;
      reflexivity.
  - intros N1 N2. unfold emoji_for, emojiMap_get.
    destruct (find (fun kv => String.eqb (fst kv) id) emojiMap) as [kv|] eqn:F.
    + apply find_some in F as [F1 F2]. apply String.eqb_eq in F2.
      exfalso. apply N1. rewrite <- F2. now apply in_map.
    + destruct (existsb (String.eqb id) object_prototype) eqn:E; [|reflexivity].
      apply existsb_exists in E as (x & X1 & X2). apply String.eqb_eq in X2.
      subst x. tauto.
  - intros H. simpl in H.
    destruct H as [<-|[<-|[<-|[<-|[<-|[<-|[<-|[<-|[<-|[<-|[<-|[<-|[]]]]]]]]]]]]];
      reflexivity.
  - intros s name price N. rewrite add_items_eq, add_items_new by exact N.
    eexists. split; [now apply find_last|reflexivity].
Qed.

Lemma emoji_lookup_falls_back_to_default_witness :
  emoji_for "3" = Emoji "🍣" /\
  emoji_for "42" = Emoji "🍽️" /\
  emoji_for "constructor" = Inherited "constructor".
Proof.
  split; [|split].
  - apply (proj1 (emoji_lookup_falls_back_to_default "3")). simpl. tauto.
  - apply (proj1 (proj2 (emoji_lookup_falls_back_to_default "42")));
      simpl; intuition discriminate.
  - apply (proj1 (proj2 (proj2 (emoji_lookup_falls_back_to_default "constructor")))).
    simpl. tauto.
Defined.

(** ** Toasts *)

(** X6: toasts do not queue.  On a page with [#toast], a call of
    [showToast] returns and replaces text and class of the toast as a
    whole, so after two calls the state is the one the second call alone
    gives: no modifier of the first toast is left.  The class is
    ["toast is-visible"] alone for the default type.  Items, view, drawer
    and body are not touched.  Without [#toast] the call throws and
    changes nothing. *)
Theorem latest_toast_replaces_the_previous :
  forall (s : State) (m1 t1 m2 t2 : string),
    (forall t, toast (page s) = Some t ->
       let s1 := state_of (showToast m1 t1 s) in
       returns (showToast m1 t1 s) = true /\
       state_of (showToast m2 t2 s1) = state_of (showToast m2 t2 s) /\
       toast (page s1)
       = Some {| textContent := m1;
                 className := if String.eqb t1 "" then "toast is-visible"
                              else "toast is-visible toast--" ++ t1 |} /\
       items s1 = items s /\ view (page s1) = view (page s) /\
       drawerEl (page s1) = drawerEl (page s) /\
       overlayEl (page s1) = overlayEl (page s) /\
       body (page s1) = body (page s)) /\
    (toast (page s) = None -> showToast m1 t1 s = Thrown TypeError s).
Proof.
  intros s m1 t1 m2 t2. split.
  - intros t T. cbv zeta. unfold showToast. unfold_m. rewrite T.
    cbn [state_of returns page toast items view drawerEl overlayEl body].
    repeat split. destruct (String.eqb t1 ""); reflexivity.
  - apply showToast_none.
Qed.

Lemma latest_toast_replaces_the_previous_witness :
  toast (page (state_of (showToast "Saved" "success" (init page0))))
  = Some {| textContent := "Saved"; className := "toast is-visible toast--success" |}.
Proof.
  apply (proj1 (latest_toast_replaces_the_previous (init page0)
                  "Saved" "success" "" "") {| textContent := ""; className := "toast" |}).
  reflexivity.
Defined.
(** * The testimonial slider ([initTestimonialSlider]) *)

(** [list.forEach((x, i) => ...)] as a map that sees the index; the index
    is an integer, as the code compares it with [index]. *)
Fixpoint mapi_from {A B} (f : Z -> A -> B) (i : Z) (l : list A) : list B :=
  match l with
  | [] => []
  | x :: r => f i x :: mapi_from f (i + 1) r
  end.

Definition mapi {A B} (f : Z -> A -> B) (l : list A) : list B :=
  mapi_from f 0 l.

(** [el.classList.toggle(c, force)] *)
Definition toggle_force (c : string) (force : bool) (l : ClassList.t) : ClassList.t :=
  if force then ClassList.add c l else ClassList.remove c l.

Module Slider.

(** A [.slider-dot]: its class list and its [aria-selected] attribute. *)
Record Dot := {
  dot_classes : ClassList.t;
  aria_selected : option string
}.

(** The slider: [style.display] of each [.testimonial-card], the dots,
    [window.innerWidth], the variables [currentIndex], [touchStartX] and
    [touchEndX], and whether the interval [autoplayTimer] is set. *)
Record t := {
  cards : list string;
  dots : list Dot;
  innerWidth : Z;
  currentIndex : Z;
  autoplay : bool;
  touchStartX : JS.number;
  touchEndX : JS.number
}.

Definition set_autoplay (b : bool) (s : t) : t :=
  {| cards := cards s; dots := dots s; innerWidth := innerWidth s;
     currentIndex := currentIndex s; autoplay := b;
     touchStartX := touchStartX s; touchEndX := touchEndX s |}.

(** [cards.length] *)
Definition n_cards (s : t) : Z := Z.of_nat (List.length (cards s)).

(** [isMobile()] *)
Definition isMobile (s : t) : bool := innerWidth s <? 768.

(** [goTo(index)] *)
Definition goTo (index : Z) (s : t) : t :=
  if negb (isMobile s) then s
  else
    {| cards := mapi (fun i _ => if i =? index then "block" else "none") (cards s);
       dots :=
         mapi (fun i d =>
                 {| dot_classes :=
                      toggle_force "slider-dot--active" (i =? index) (dot_classes d);
                    aria_selected := Some (if i =? index then "true" else "false") |})
              (dots s);
       innerWidth := innerWidth s;
       currentIndex := index;
       autoplay := autoplay s;
       touchStartX := touchStartX s;
       touchEndX := touchEndX s |}.

(** [initSlider()] *)
Definition initSlider (s : t) : t :=
  if isMobile s then goTo (currentIndex s) s
  else
    {| cards := map (fun _ => "") (cards s);
       dots :=
         mapi (fun i d =>
                 {| dot_classes :=
                      toggle_force "slider-dot--active" (i =? 0) (dot_classes d);
                    aria_selected := aria_selected d |})
              (dots s);
       innerWidth := innerWidth s;
       currentIndex := currentIndex s;
       autoplay := autoplay s;
       touchStartX := touchStartX s;
       touchEndX := touchEndX s |}.

(** [stopAutoplay()]: [clearInterval(autoplayTimer)] *)
Definition stopAutoplay (s : t) : t := set_autoplay false s.

(** [startAutoplay()]: clears the interval, then sets it again *)
Definition startAutoplay (s : t) : t := set_autoplay true (stopAutoplay s).

(** [(currentIndex + 1) % cards.length] and
    [(currentIndex - 1 + cards.length) % cards.length]; [%] is the
    remainder that takes the sign of the dividend. *)
Definition next_index (s : t) : Z := Z.rem (currentIndex s + 1) (n_cards s).
Definition prev_index (s : t) : Z :=
  Z.rem (currentIndex s - 1 + n_cards s) (n_cards s).

(** What can happen to the slider: a click on [#sliderPrev], on
    [#sliderNext] or on dot [i]; a key pressed, a touch started or ended
    (at [screenX]), the pointer entering or leaving [#testimonialSlider];
    a tick of the autoplay interval; the window resized to a width; the
    debounced resize timer firing. *)
Inductive Event :=
| PrevClick
| NextClick
| DotClick (i : nat)
| KeyDown (key : string)
| TouchStart (screenX : JS.number)
| TouchEnd (screenX : JS.number)
| MouseEnter
| MouseLeave
| AutoplayTick
| WindowResize (width : Z)
| ResizeTimer.

Definition handle (s : t) (e : Event) : t :=
  match e with
  | PrevClick => stopAutoplay (goTo (prev_index s) s)
  | NextClick => stopAutoplay (goTo (next_index s) s)
  | DotClick i =>
      if (i <? List.length (dots s))%nat
      then stopAutoplay (goTo (Z.of_nat i) s)
      else s                                  (* there is no such dot *)
  | KeyDown key =>
      let s1 := if String.eqb key "ArrowLeft"
                then stopAutoplay (goTo (prev_index s) s) else s in
      if String.eqb key "ArrowRight"
      then stopAutoplay (goTo (next_index s1) s1) else s1
  | TouchStart x =>
      {| cards := cards s; dots := dots s; innerWidth := innerWidth s;
         currentIndex := currentIndex s; autoplay := autoplay s;
         touchStartX := x; touchEndX := touchEndX s |}
  | TouchEnd x =>
      let s1 := {| cards := cards s; dots := dots s; innerWidth := innerWidth s;
                   currentIndex := currentIndex s; autoplay := autoplay s;
                   touchStartX := touchStartX s; touchEndX := x |} in
      let diff := (touchStartX s1 - touchEndX s1)%float in
      if (50 <? abs diff)%float
      then stopAutoplay
             (if (0 <? diff)%float then goTo (next_index s1) s1
              else goTo (prev_index s1) s1)
      else s1
  | MouseEnter => stopAutoplay s
  | MouseLeave => startAutoplay s
  | AutoplayTick =>
      if autoplay s
      then (if isMobile s then goTo (next_index s) s else s)
      else s                                  (* no interval is set *)
  | WindowResize w =>
      {| cards := cards s; dots := dots s; innerWidth := w;
         currentIndex := currentIndex s; autoplay := autoplay s;
         touchStartX := touchStartX s; touchEndX := touchEndX s |}
  | ResizeTimer => initSlider s
  end.

Definition run (es : list Event) (s : t) : t := fold_left handle es s.

(** The module's start on a page with the given cards and dots:
    nothing is set up when there are no cards or no dots; otherwise
    [currentIndex = 0], [initSlider()], [startAutoplay()]. *)
Definition init (cs : list string) (ds : list Dot) (width : Z) : option t :=
  match cs, ds with
  | [], _ | _, [] => None
  | _ :: _, _ :: _ =>
      Some (startAutoplay
              (initSlider {| cards := cs; dots := ds; innerWidth := width;
                             currentIndex := 0; autoplay := false;
                             touchStartX := 0%float; touchEndX := 0%float |}))
  end.

(** The events by which the user moves the slider by hand. *)
Definition is_navigation (e : Event) : bool :=
  match e with
  | PrevClick | NextClick | DotClick _ => true
  | _ => false
  end.

(** Card [j] is the one shown and dot [j] the one marked. *)
Definition shows (s : t) : Prop :=
  (forall j d, nth_error (cards s) j = Some d ->
      d = if Z.of_nat j =? currentIndex s then "block" else "none") /\
  (forall j d, nth_error (dots s) j = Some d ->
      ClassList.contains "slider-dot--active" (dot_classes d)
      = (Z.of_nat j =? currentIndex s) /\
      aria_selected d
      = Some (if Z.of_nat j =? currentIndex s then "true" else "false")).

Definition is_resize (e : Event) : bool :=
  match e with WindowResize _ => true | _ => false end.

End Slider.

Import Slider.

(** ** Lists mapped with their index *)

Lemma length_mapi_from {A B} (f : Z -> A -> B) i l :
  List.length (mapi_from f i l) = List.length l.
Proof.
  revert i. induction l as [|x l IH]; intros i; simpl; [reflexivity|].
  now rewrite IH.
Qed.

Lemma nth_error_mapi_from {A B} (f : Z -> A -> B) i l j :
  nth_error (mapi_from f i l) j
  = option_map (f (i + Z.of_nat j)) (nth_error l j).
Proof.
  revert i j. induction l as [|x l IH]; intros i j.
  - now destruct j.
  - destruct j as [|j]; simpl.
    + now rewrite Z.add_0_r.
    + rewrite IH. do 2 f_equal. lia.
Qed.

Lemma nth_error_mapi {A B} (f : Z -> A -> B) l j :
  nth_error (mapi f l) j = option_map (f (Z.of_nat j)) (nth_error l j).
Proof. unfold mapi. now rewrite nth_error_mapi_from. Qed.

Lemma contains_toggle_force c b l :
  ClassList.contains c (toggle_force c b l) = b.
Proof.
  destruct b; simpl; [apply contains_add | apply contains_remove].
Qed.

(** ** One step of the slider *)

Lemma goTo_desktop i s : isMobile s = false -> goTo i s = s.
Proof. intros H. unfold goTo. now rewrite H. Qed.

Lemma goTo_mobile i s :
  isMobile s = true ->
  shows (goTo i s) /\ currentIndex (goTo i s) = i /\
  n_cards (goTo i s) = n_cards s /\
  List.length (dots (goTo i s)) = List.length (dots s) /\
  innerWidth (goTo i s) = innerWidth s /\
  autoplay (goTo i s) = autoplay s.
Proof.
  intros H. unfold goTo, n_cards, shows. rewrite H.
  cbn [negb cards dots currentIndex innerWidth autoplay].
  unfold mapi. rewrite !length_mapi_from. repeat split.
  - intros j d. fold (mapi (fun (i0 : Z) (_ : string) =>
                              if i0 =? i then "block" else "none") (cards s)).
    rewrite nth_error_mapi. destruct (nth_error (cards s) j); simpl; [|discriminate].
    now intros [= <-].
  - revert H0. match goal with |- nth_error ?l _ = _ -> _ => change l with
      (mapi (fun i0 d0 =>
               {| dot_classes := toggle_force "slider-dot--active" (i0 =? i) (dot_classes d0);
                  aria_selected := Some (if i0 =? i then "true" else "false") |})
            (dots s)) end.
    rewrite nth_error_mapi. destruct (nth_error (dots s) j); simpl; [|discriminate].
    intros [= <-]. apply contains_toggle_force.
  - revert H0. match goal with |- nth_error ?l _ = _ -> _ => change l with
      (mapi (fun i0 d0 =>
               {| dot_classes := toggle_force "slider-dot--active" (i0 =? i) (dot_classes d0);
                  aria_selected := Some (if i0 =? i then "true" else "false") |})
            (dots s)) end.
    rewrite nth_error_mapi. destruct (nth_error (dots s) j); simpl; [|discriminate].
    now intros [= <-].
Qed.

Lemma rem_next c n :
  0 <= c < n -> Z.rem (c + 1) n = if c + 1 =? n then 0 else c + 1.
Proof.
  intros H. rewrite Z.rem_mod_nonneg by lia.
  destruct (Z.eqb_spec (c + 1) n) as [->|N].
  - apply Z_mod_same_full.
  - apply Z.mod_small. lia.
Qed.

Lemma rem_prev c n :
  0 <= c < n -> Z.rem (c - 1 + n) n = if c =? 0 then n - 1 else c - 1.
Proof.
  intros H. rewrite Z.rem_mod_nonneg by lia.
  destruct (Z.eqb_spec c 0) as [->|N].
  - replace (0 - 1 + n) with (n - 1) by lia. apply Z.mod_small. lia.
  - replace (c - 1 + n) with (c - 1 + 1 * n) by lia.
    rewrite Z_mod_plus_full. apply Z.mod_small. lia.
Qed.

Lemma next_index_range s :
  0 <= currentIndex s < n_cards s -> 0 <= next_index s < n_cards s.
Proof.
  intros H. unfold next_index. rewrite rem_next by exact H.
  destruct (Z.eqb_spec (currentIndex s + 1) (n_cards s)); lia.
Qed.

Lemma prev_index_range s :
  0 <= currentIndex s < n_cards s -> 0 <= prev_index s < n_cards s.
Proof.
  intros H. unfold prev_index. rewrite rem_prev by exact H.
  destruct (Z.eqb_spec (currentIndex s) 0); lia.
Qed.

Definition in_range (s : Slider.t) : Prop := 0 <= currentIndex s < n_cards s.

Definition dots_fit (s : Slider.t) : Prop :=
  (List.length (dots s) <= List.length (cards s))%nat.

(** [s'] has the cards, the dots, the index and the width of [s]. *)
Definition same_slide (s s' : Slider.t) : Prop :=
  cards s' = cards s /\ dots s' = dots s /\
  currentIndex s' = currentIndex s /\ innerWidth s' = innerWidth s.

Lemma goTo_keeps i s :
  n_cards (goTo i s) = n_cards s /\
  List.length (dots (goTo i s)) = List.length (dots s) /\
  innerWidth (goTo i s) = innerWidth s /\
  autoplay (goTo i s) = autoplay s.
Proof.
  destruct (isMobile s) eqn:M.
  - now destruct (goTo_mobile i s M) as (_ & _ & ? & ? & ? & ?).
  - now rewrite goTo_desktop.
Qed.

Lemma goTo_in_range i s :
  in_range s -> 0 <= i < n_cards s -> in_range (goTo i s).
Proof.
  intros R I. unfold in_range. destruct (isMobile s) eqn:M.
  - destruct (goTo_mobile i s M) as (_ & -> & -> & _). exact I.
  - now rewrite goTo_desktop.
Qed.

Lemma goTo_same i s s' :
  same_slide s s' -> same_slide (goTo i s) (goTo i s').
Proof.
  intros (C & D & I & W). unfold goTo, isMobile. rewrite W.
  destruct (innerWidth s <? 768); simpl.
  - unfold same_slide. simpl. now rewrite C, D.
  - now repeat split.
Qed.

(** Every handler ends in [goTo(i)] for an [i] in range, in [initSlider()],
    or leaves cards, dots and index alone. *)
Lemma handle_cases s e :
  in_range s -> dots_fit s ->
  (exists i, 0 <= i < n_cards s /\ same_slide (goTo i s) (handle s e)) \/
  same_slide s (handle s e) \/
  same_slide (initSlider s) (handle s e) \/
  (exists w, e = WindowResize w /\ cards (handle s e) = cards s /\
             dots (handle s e) = dots s /\
             currentIndex (handle s e) = currentIndex s).
Proof.
  intros R F.
  assert (Rn := next_index_range s R). assert (Rp := prev_index_range s R).
  destruct e as [| |i|key|x|x| | | |w|]; cbn [handle].
  - left. exists (prev_index s). split; [exact Rp|]. now repeat split.
  - left. exists (next_index s). split; [exact Rn|]. now repeat split.
  - destruct (Nat.ltb_spec i (List.length (dots s))).
    + left. exists (Z.of_nat i). split; [|now repeat split].
      unfold dots_fit in F. unfold n_cards. lia.
    + right. left. now repeat split.
  - destruct (String.eqb key "ArrowLeft") eqn:L.
    + apply String.eqb_eq in L. subst key.
      cbn [String.eqb Ascii.eqb Bool.eqb].
      left. exists (prev_index s). split; [exact Rp|]. now repeat split.
    + destruct (String.eqb key "ArrowRight").
      * left. exists (next_index s). split; [exact Rn|]. now repeat split.
      * right. left. now repeat split.
  - right. left. now repeat split.
  - set (s1 := {| cards := cards s; dots := dots s; innerWidth := innerWidth s;
                  currentIndex := currentIndex s; autoplay := autoplay s;
                  touchStartX := touchStartX s; touchEndX := x |}).
    assert (S1 : same_slide s1 s) by now repeat split.
    cbv zeta.
    destruct (50 <? abs (touchStartX s1 - touchEndX s1))%float.
    + left. destruct (0 <? touchStartX s1 - touchEndX s1)%float.
      * exists (next_index s). split; [exact Rn|].
        apply (goTo_same (next_index s)) in S1.
        destruct S1 as (? & ? & ? & ?). now repeat split.
      * exists (prev_index s). split; [exact Rp|].
        apply (goTo_same (prev_index s)) in S1.
        destruct S1 as (? & ? & ? & ?). now repeat split.
    + right. left. now repeat split.
  - right. left. now repeat split.
  - right. left. now repeat split.
  - destruct (autoplay s); [|right; left; now repeat split].
    destruct (isMobile s) eqn:M; [|right; left; now repeat split].
    left. exists (next_index s). split; [exact Rn|]. now repeat split.
  - right. right. right. exists w. now repeat split.
  - right. right. left. now repeat split.
Qed.

Lemma initSlider_mobile s : isMobile s = true -> initSlider s = goTo (currentIndex s) s.
Proof. intros H. unfold initSlider. now rewrite H. Qed.

Lemma initSlider_keeps s :
  n_cards (initSlider s) = n_cards s /\
  List.length (dots (initSlider s)) = List.length (dots s) /\
  currentIndex (initSlider s) = currentIndex s /\
  innerWidth (initSlider s) = innerWidth s.
Proof.
  unfold initSlider. destruct (isMobile s) eqn:M.
  - destruct (goTo_mobile (currentIndex s) s M) as (_ & ? & ? & ? & ? & _).
    now repeat split.
  - unfold n_cards, mapi. cbn [cards dots currentIndex innerWidth].
    now rewrite length_map, length_mapi_from.
Qed.

Lemma same_slide_keeps s s' :
  same_slide s s' ->
  n_cards s' = n_cards s /\ List.length (dots s') = List.length (dots s) /\
  currentIndex s' = currentIndex s /\ innerWidth s' = innerWidth s.
Proof. intros (C & D & I & W). unfold n_cards. now rewrite C, D. Qed.

Lemma handle_in_range s e :
  in_range s -> dots_fit s ->
  in_range (handle s e) /\ dots_fit (handle s e) /\
  n_cards (handle s e) = n_cards s.
Proof.
  intros R F. unfold in_range, dots_fit in *.
  assert (K : forall a b : Slider.t,
             n_cards b = n_cards a -> List.length (dots b) = List.length (dots a) ->
             (List.length (dots a) <= List.length (cards a))%nat ->
             (List.length (dots b) <= List.length (cards b))%nat).
  { unfold n_cards. intros a b. lia. }
  destruct (handle_cases s e R F)
    as [(i & I & S) | [S | [S | (w & _ & C & D & E)]]].
  - apply same_slide_keeps in S as (N & L & X & _).
    destruct (goTo_keeps i s) as (N' & L' & _).
    pose proof (goTo_in_range i s R I) as R'. unfold in_range in R'.
    assert (Nh : n_cards (handle s e) = n_cards s) by congruence.
    assert (Lh : List.length (dots (handle s e)) = List.length (dots s))
      by congruence.
    split; [rewrite X, Nh; rewrite N' in R'; exact R'|].
    split; [now apply (K s) | exact Nh].
  - apply same_slide_keeps in S as (N & L & X & _).
    split; [rewrite X, N; exact R|]. split; [now apply (K s) | exact N].
  - apply same_slide_keeps in S as (N & L & X & _).
    destruct (initSlider_keeps s) as (N' & L' & X' & _).
    assert (Nh : n_cards (handle s e) = n_cards s) by congruence.
    assert (Lh : List.length (dots (handle s e)) = List.length (dots s))
      by congruence.
    split; [rewrite X, Nh, X'; exact R|].
    split; [now apply (K s) | exact Nh].
  - unfold n_cards. rewrite E, C, D. now repeat split.
Qed.

Lemma init_in_range cs ds w s0 :
  init cs ds w = Some s0 ->
  (List.length ds <= List.length cs)%nat ->
  in_range s0 /\ dots_fit s0 /\ n_cards s0 = Z.of_nat (List.length cs) /\
  innerWidth s0 = w.
Proof.
  unfold init. destruct cs as [|c cs]; [discriminate|].
  destruct ds as [|d ds]; [discriminate|]. intros [= <-] F.
  set (b := {| cards := c :: cs; dots := d :: ds; innerWidth := w;
               currentIndex := 0; autoplay := false;
               touchStartX := 0%float; touchEndX := 0%float |}).
  destruct (initSlider_keeps b) as (N & L & X & W).
  unfold in_range, dots_fit, startAutoplay, stopAutoplay, set_autoplay, n_cards in *.
  cbn [cards dots currentIndex innerWidth] in *.
  rewrite X, W. cbn [currentIndex innerWidth b cards dots List.length] in *.
  repeat split; lia.
Qed.

Lemma run_in_range es s :
  in_range s -> dots_fit s ->
  in_range (Slider.run es s) /\ n_cards (Slider.run es s) = n_cards s.
Proof.
  revert s. induction es as [|e es IH]; intros s R F; [now split|].
  cbn [Slider.run fold_left]. destruct (handle_in_range s e R F) as (R' & F' & N).
  destruct (IH _ R' F') as (R'' & N'). split; [exact R''|].
  unfold Slider.run in N'. congruence.
Qed.

(** X7: on a page with at least as many cards as dots, whatever the
    user and the timers do (arrows, dots, keys, swipes, autoplay ticks,
    resizes), [currentIndex] stays a valid card index:
    [0 <= currentIndex < cards.length]. *)
Theorem slider_index_stays_in_range :
  forall (cs : list string) (ds : list Dot) (w : Z) (s0 : Slider.t)
         (es : list Event),
    init cs ds w = Some s0 ->
    (List.length ds <= List.length cs)%nat ->
    0 <= currentIndex (Slider.run es s0) < Z.of_nat (List.length cs) /\
    List.length (cards (Slider.run es s0)) = List.length cs.
Proof.
  intros cs ds w s0 es I F.
  destruct (init_in_range _ _ _ _ I F) as (R & F' & N & _).
  destruct (run_in_range es s0 R F') as (R' & N').
  unfold in_range in R'. rewrite N', N in R'. split; [exact R'|].
  unfold n_cards in *. lia.
Qed.

(** A page with three testimonial cards and three dots, the first one
    marked, as the markup has them before the script runs. *)
Definition three_cards : list string := [""; ""; ""].
Definition three_dots : list Dot :=
  [ {| dot_classes := ["slider-dot"; "slider-dot--active"]; aria_selected := Some "true" |};
    {| dot_classes := ["slider-dot"]; aria_selected := Some "false" |};
    {| dot_classes := ["slider-dot"]; aria_selected := Some "false" |} ].

(** The slider on that page, in a window 375 wide. *)
Definition phone_slider : Slider.t :=
  startAutoplay
    (initSlider {| cards := three_cards; dots := three_dots; innerWidth := 375;
                   currentIndex := 0; autoplay := false;
                   touchStartX := 0%float; touchEndX := 0%float |}).

Lemma slider_index_stays_in_range_witness :
  init three_cards three_dots 375 = Some phone_slider /\
  0 <= currentIndex (Slider.run [PrevClick; PrevClick; DotClick 2; NextClick] phone_slider) < 3.
Proof.
  split; [reflexivity|].
  apply (slider_index_stays_in_range three_cards three_dots 375 phone_slider
           [PrevClick; PrevClick; DotClick 2; NextClick] eq_refl).
  simpl. lia.
Defined.

Lemma shows_same a b : same_slide a b -> shows a -> shows b.
Proof.
  intros (C & D & I & _) [H1 H2]. unfold shows. rewrite C, D, I. now split.
Qed.

Lemma isMobile_same a b : same_slide a b -> isMobile b = isMobile a.
Proof. intros (_ & _ & _ & W). unfold isMobile. now rewrite W. Qed.

Lemma handle_shows s e :
  in_range s -> dots_fit s -> isMobile s = true -> shows s ->
  is_resize e = false ->
  shows (handle s e) /\ isMobile (handle s e) = true.
Proof.
  intros R F M H E.
  assert (G : forall i, shows (goTo i s) /\ isMobile (goTo i s) = true).
  { intros i. destruct (goTo_mobile i s M) as (S & _ & _ & _ & W & _).
    split; [exact S|]. unfold isMobile in *. now rewrite W. }
  destruct (handle_cases s e R F)
    as [(i & _ & S) | [S | [S | (w & -> & _)]]].
  - destruct (G i) as [G1 G2]. split; [now apply (shows_same _ _ S)|].
    now rewrite (isMobile_same _ _ S).
  - split; [now apply (shows_same _ _ S)|]. now rewrite (isMobile_same _ _ S).
  - rewrite (initSlider_mobile s M) in S. destruct (G (currentIndex s)) as [G1 G2].
    split; [now apply (shows_same _ _ S)|]. now rewrite (isMobile_same _ _ S).
  - discriminate E.
Qed.

Lemma run_shows es s :
  in_range s -> dots_fit s -> isMobile s = true -> shows s ->
  Forall (fun e => is_resize e = false) es ->
  shows (Slider.run es s) /\ in_range (Slider.run es s).
Proof.
  revert s. induction es as [|e es IH]; intros s R F M H A; [now split|].
  inversion A as [|? ? E A']; subst. cbn [Slider.run fold_left].
  destruct (handle_in_range s e R F) as (R' & F' & _).
  destruct (handle_shows s e R F M H E) as (H' & M').
  now apply IH.
Qed.

(** X8: in a window narrower than 768 that is not resized, on a page
    with at least as many cards as dots, after any sequence of clicks,
    keys, swipes and autoplay ticks exactly the card at [currentIndex] is
    displayed ([block], every other card [none]), and exactly the dot at
    [currentIndex] carries [slider-dot--active] and
    [aria-selected="true"]. *)
Theorem slider_shows_the_current_card :
  forall (cs : list string) (ds : list Dot) (w : Z) (s0 : Slider.t)
         (es : list Event),
    init cs ds w = Some s0 ->
    w < 768 ->
    (List.length ds <= List.length cs)%nat ->
    Forall (fun e => is_resize e = false) es ->
    let s := Slider.run es s0 in
    nth_error (cards s) (Z.to_nat (currentIndex s)) = Some "block" /\
    (forall j d, nth_error (cards s) j = Some d ->
       d = if Z.of_nat j =? currentIndex s then "block" else "none") /\
    (forall j d, nth_error (dots s) j = Some d ->
       ClassList.contains "slider-dot--active" (dot_classes d)
       = (Z.of_nat j =? currentIndex s) /\
       aria_selected d
       = Some (if Z.of_nat j =? currentIndex s then "true" else "false")).
Proof.
  intros cs ds w s0 es I W F A s.
  destruct (init_in_range _ _ _ _ I F) as (R & F' & N & W').
  assert (M : isMobile s0 = true).
  { unfold isMobile. rewrite W'. now apply Z.ltb_lt. }
  assert (H : shows s0).
  { unfold init in I. destruct cs as [|c cs]; [discriminate|].
    destruct ds as [|d ds]; [discriminate|]. injection I as <-.
    set (b := {| cards := c :: cs; dots := d :: ds; innerWidth := w;
                 currentIndex := 0; autoplay := false;
                 touchStartX := 0%float; touchEndX := 0%float |}).
    assert (Mb : isMobile b = true) by (unfold isMobile; simpl; now apply Z.ltb_lt).
    rewrite (initSlider_mobile b Mb).
    now destruct (goTo_mobile (currentIndex b) b Mb) as (S & _). }
  destruct (run_shows es s0 R F' M H A) as ([H1 H2] & R'). fold s in H1, H2, R'.
  split; [|split; [exact H1 | exact H2]].
  unfold in_range, n_cards in R'.
  destruct (nth_error (cards s) (Z.to_nat (currentIndex s))) as [d|] eqn:E.
  - rewrite (H1 _ _ E). rewrite Z2Nat.id by lia. now rewrite Z.eqb_refl.
  - apply nth_error_None in E. lia.
Qed.

Lemma slider_shows_the_current_card_witness :
  let s := Slider.run [NextClick; AutoplayTick; PrevClick; DotClick 2] phone_slider in
  init three_cards three_dots 375 = Some phone_slider /\
  nth_error (cards s) (Z.to_nat (currentIndex s)) = Some "block".
Proof.
  split; [reflexivity|].
  apply (slider_shows_the_current_card three_cards three_dots 375 phone_slider
           [NextClick; AutoplayTick; PrevClick; DotClick 2] eq_refl eq_refl);
    [simpl; lia | repeat constructor].
Defined.

(** ** Next and previous *)

Lemma next_click s :
  isMobile s = true ->
  currentIndex (handle s NextClick) = next_index s /\
  n_cards (handle s NextClick) = n_cards s /\
  isMobile (handle s NextClick) = true.
Proof.
  intros M. cbn [handle].
  destruct (goTo_mobile (next_index s) s M) as (_ & I & N & _ & W & _).
  unfold isMobile in *. cbn [stopAutoplay set_autoplay currentIndex innerWidth].
  unfold n_cards in *. cbn [cards]. now rewrite W.
Qed.

Lemma prev_click s :
  isMobile s = true ->
  currentIndex (handle s PrevClick) = prev_index s /\
  n_cards (handle s PrevClick) = n_cards s /\
  isMobile (handle s PrevClick) = true.
Proof.
  intros M. cbn [handle].
  destruct (goTo_mobile (prev_index s) s M) as (_ & I & N & _ & W & _).
  unfold isMobile in *. cbn [stopAutoplay set_autoplay currentIndex innerWidth].
  unfold n_cards in *. cbn [cards]. now rewrite W.
Qed.

Lemma next_clicks k s :
  isMobile s = true -> in_range s ->
  currentIndex (Slider.run (repeat NextClick k) s)
  = (currentIndex s + Z.of_nat k) mod n_cards s.
Proof.
  revert s. induction k as [|k IH]; intros s M R; unfold in_range in R.
  - simpl. rewrite Z.add_0_r. symmetry. now apply Z.mod_small.
  - cbn [repeat Slider.run fold_left].
    destruct (next_click s M) as (I & N & M').
    pose proof (next_index_range s R) as R'.
    assert (R'' : in_range (handle s NextClick))
      by (unfold in_range; now rewrite I, N).
    unfold Slider.run in IH. rewrite (IH _ M' R''), I, N.
    unfold next_index. rewrite Z.rem_mod_nonneg by lia.
    rewrite Zplus_mod_idemp_l. f_equal. lia.
Qed.

(** X9: in a narrow window, from a valid index, "next" then "previous"
    and "previous" then "next" come back to the same index; [k] times
    "next" lands on [(currentIndex + k) mod cards.length], so going
    through all the cards once comes back to the start. *)
Theorem slider_navigation_wraps_around :
  forall s : Slider.t,
    isMobile s = true ->
    0 <= currentIndex s < n_cards s ->
    currentIndex (Slider.run [NextClick; PrevClick] s) = currentIndex s /\
    currentIndex (Slider.run [PrevClick; NextClick] s) = currentIndex s /\
    (forall k : nat,
        currentIndex (Slider.run (repeat NextClick k) s)
        = (currentIndex s + Z.of_nat k) mod n_cards s) /\
    currentIndex (Slider.run (repeat NextClick (List.length (cards s))) s)
    = currentIndex s.
Proof.
  intros s M R. split; [|split; [|split]].
  - cbn [Slider.run fold_left].
    destruct (next_click s M) as (I & N & M').
    destruct (prev_click _ M') as (I' & _).
    rewrite I'. unfold prev_index. rewrite I, N.
    pose proof (next_index_range s R) as R'.
    rewrite rem_prev by exact R'. unfold next_index in *.
    rewrite rem_next in * by exact R.
    destruct (Z.eqb_spec (currentIndex s + 1) (n_cards s)).
    + simpl. lia.
    + destruct (Z.eqb_spec (currentIndex s + 1) 0); lia.
  - cbn [Slider.run fold_left].
    destruct (prev_click s M) as (I & N & M').
    destruct (next_click _ M') as (I' & _).
    rewrite I'. unfold next_index. rewrite I, N.
    pose proof (prev_index_range s R) as R'.
    rewrite rem_next by exact R'. unfold prev_index in *.
    rewrite rem_prev in * by exact R.
    destruct (Z.eqb_spec (currentIndex s) 0).
    + destruct (Z.eqb_spec (n_cards s - 1 + 1) (n_cards s)); lia.
    + destruct (Z.eqb_spec (currentIndex s - 1 + 1) (n_cards s)); lia.
  - intros k. now apply next_clicks.
  - rewrite next_clicks by assumption. fold (n_cards s).
    rewrite <- (Z.mul_1_l (n_cards s)) at 1.
    rewrite Z_mod_plus_full. now apply Z.mod_small.
Qed.

Lemma slider_navigation_wraps_around_witness :
  isMobile phone_slider = true /\
  0 <= currentIndex phone_slider < n_cards phone_slider /\
  currentIndex (Slider.run [PrevClick; NextClick] phone_slider)
  = currentIndex phone_slider.
Proof.
  split; [reflexivity|]. split; [vm_compute; split; [discriminate|reflexivity]|].
  apply (slider_navigation_wraps_around phone_slider eq_refl).
  vm_compute. split; [discriminate|reflexivity].
Defined.

(** ** Wide windows *)

Lemma handle_desktop s e :
  isMobile s = false ->
  is_resize e = false -> e <> ResizeTimer ->
  cards (handle s e) = cards s /\ dots (handle s e) = dots s /\
  currentIndex (handle s e) = currentIndex s.
Proof.
  intros M E T.
  destruct e as [| |i|key|x|x| | | |w|]; cbn [handle];
    try discriminate E; try congruence;
    rewrite ?goTo_desktop by exact M; try now repeat split.
  - destruct (i <? List.length (dots s))%nat; now repeat split.
  - destruct (String.eqb key "ArrowLeft"), (String.eqb key "ArrowRight");
      rewrite ?(goTo_desktop (prev_index s) s M), ?(goTo_desktop (next_index s) s M),
        ?(goTo_desktop _ (stopAutoplay s) M); now repeat split.
  - cbv zeta. rewrite ?goTo_desktop by exact M.
    destruct (50 <? _)%float; [destruct (0 <? _)%float|]; now repeat split.
  - rewrite M. destruct (autoplay s); now repeat split.
Qed.

(** X10: in a window at least 768 wide the arrows, the dots, the keys,
    swipes and autoplay ticks change neither the cards nor the dots nor
    [currentIndex].  After a resize to such a width the timer's
    [initSlider] shows every card ([display] cleared) and keeps
    [currentIndex]; after a resize back below 768 it shows the card that
    was current before. *)
Theorem slider_rests_on_wide_windows :
  forall s : Slider.t,
    (768 <= innerWidth s ->
     forall e, is_resize e = false -> e <> ResizeTimer ->
       cards (handle s e) = cards s /\ dots (handle s e) = dots s /\
       currentIndex (handle s e) = currentIndex s) /\
    (forall wide narrow,
        768 <= wide -> narrow < 768 ->
        let d := Slider.run [WindowResize wide; ResizeTimer] s in
        let m := Slider.run [WindowResize narrow; ResizeTimer] d in
        (forall c, In c (cards d) -> c = "") /\
        currentIndex d = currentIndex s /\
        currentIndex m = currentIndex s /\
        shows m).
Proof.
  intros s. split.
  - intros W e E T. apply handle_desktop; [|exact E|exact T].
    unfold isMobile. now apply Z.ltb_ge.
  - intros wide narrow W N d m. subst m d.
    cbn [Slider.run fold_left handle].
    set (s1 := {| cards := cards s; dots := dots s; innerWidth := wide;
                  currentIndex := currentIndex s; autoplay := autoplay s;
                  touchStartX := touchStartX s; touchEndX := touchEndX s |}).
    assert (M1 : isMobile s1 = false) by (unfold isMobile; now apply Z.ltb_ge).
    assert (D : initSlider s1 =
                {| cards := map (fun _ => "") (cards s);
                   dots := mapi (fun i d =>
                             {| dot_classes := toggle_force "slider-dot--active" (i =? 0) (dot_classes d);
                                aria_selected := aria_selected d |}) (dots s);
                   innerWidth := wide; currentIndex := currentIndex s;
                   autoplay := autoplay s;
                   touchStartX := touchStartX s; touchEndX := touchEndX s |}).
    { unfold initSlider. now rewrite M1. }
    rewrite D. cbn [cards dots currentIndex autoplay touchStartX touchEndX].
    split; [|split; [reflexivity|]].
    + intros c H. apply in_map_iff in H as (x & <- & _). reflexivity.
    + match goal with |- context [initSlider ?s2] =>
        assert (M2 : isMobile s2 = true) by (unfold isMobile; now apply Z.ltb_lt);
        rewrite (initSlider_mobile s2 M2);
        destruct (goTo_mobile (currentIndex s2) s2 M2) as (S & I & _)
      end.
      split; [exact I | exact S].
Qed.

Lemma slider_rests_on_wide_windows_witness :
  let d := Slider.run [NextClick; WindowResize 1280; ResizeTimer] phone_slider in
  768 <= innerWidth d /\
  currentIndex (handle d NextClick) = 1.
Proof.
  split; [vm_compute; discriminate|].
  assert (H := proj1 (slider_rests_on_wide_windows
                        (Slider.run [NextClick; WindowResize 1280; ResizeTimer] phone_slider))).
  cbv zeta. rewrite (proj2 (proj2 (H ltac:(vm_compute; discriminate) NextClick
                                     eq_refl ltac:(discriminate)))).
  reflexivity.
Defined.

(** ** More dots than cards *)

(** X11: the dots are not checked against the cards.  In a narrow window
    a click on a dot whose number is not a card's hides every card
    ([display: none] on all of them) and leaves [currentIndex] outside
    the cards; the next "next" brings it back to
    [(currentIndex + 1) % cards.length]. *)
Theorem surplus_dot_hides_every_card :
  forall (s : Slider.t) (i : nat),
    isMobile s = true ->
    (List.length (cards s) <= i < List.length (dots s))%nat ->
    let s' := handle s (DotClick i) in
    (forall c, In c (cards s') -> c = "none") /\
    List.length (cards s') = List.length (cards s) /\
    currentIndex s' = Z.of_nat i /\
    currentIndex (handle s' NextClick) = Z.rem (Z.of_nat i + 1) (n_cards s).
Proof.
  intros s i M [L U] s'.
  assert (E : s' = stopAutoplay (goTo (Z.of_nat i) s)).
  { subst s'. cbn [handle].
    destruct (Nat.ltb_spec i (List.length (dots s))); [reflexivity | lia]. }
  destruct (goTo_mobile (Z.of_nat i) s M) as ((S & _) & I & N & _ & W & _).
  assert (C : cards s' = cards (goTo (Z.of_nat i) s)) by now rewrite E.
  assert (I' : currentIndex s' = Z.of_nat i) by now rewrite E.
  assert (N' : n_cards s' = n_cards s) by (unfold n_cards in *; now rewrite C).
  assert (M' : isMobile s' = true).
  { unfold isMobile in *. rewrite E. cbn [stopAutoplay set_autoplay innerWidth].
    now rewrite W. }
  split; [|split; [|split]].
  - intros c H0. rewrite C in H0. apply In_nth_error in H0 as (j & J).
    rewrite (S _ _ J).
    assert (j < List.length (cards (goTo (Z.of_nat i) s)))%nat
      by (apply nth_error_Some; congruence).
    unfold n_cards in N. rewrite I.
    destruct (Z.eqb_spec (Z.of_nat j) (Z.of_nat i)); [lia | reflexivity].
  - unfold n_cards in N'. lia.
  - exact I'.
  - destruct (next_click s' M') as (-> & _).
    unfold next_index. now rewrite I', N'.
Qed.

Lemma surplus_dot_hides_every_card_witness :
  let s := {| cards := [""; ""]; dots := three_dots; innerWidth := 375;
              currentIndex := 0; autoplay := true;
              touchStartX := 0%float; touchEndX := 0%float |} in
  isMobile s = true /\
  cards (handle s (DotClick 2)) = ["none"; "none"] /\
  currentIndex (handle s (DotClick 2)) = 2.
Proof.
  split; [reflexivity|]. split; [reflexivity|].
  apply (surplus_dot_hides_every_card
           {| cards := [""; ""]; dots := three_dots; innerWidth := 375;
              currentIndex := 0; autoplay := true;
              touchStartX := 0%float; touchEndX := 0%float |} 2 eq_refl).
  simpl. lia.
Defined.

(** ** Autoplay *)

(** The events that end in [stopAutoplay()]. *)
Definition stops_autoplay (s : Slider.t) (e : Event) : bool :=
  match e with
  | PrevClick | NextClick | MouseEnter => true
  | DotClick i => (i <? List.length (dots s))%nat
  | KeyDown key => (String.eqb key "ArrowLeft" || String.eqb key "ArrowRight")%bool
  | TouchEnd x => (50 <? abs (touchStartX s - x))%float
  | _ => false
  end.

Lemma autoplay_stopped s e :
  stops_autoplay s e = true -> autoplay (handle s e) = false.
Proof.
  destruct e as [| |i|key|x|x| | | |w|]; cbn [stops_autoplay handle];
    try discriminate; try reflexivity.
  - now intros ->.
  - destruct (String.eqb key "ArrowLeft"), (String.eqb key "ArrowRight");
      try discriminate; reflexivity.
  - cbv zeta. cbn [touchStartX touchEndX]. now intros ->.
Qed.

Lemma autoplay_stays_off s e :
  e <> MouseLeave -> autoplay s = false -> autoplay (handle s e) = false.
Proof.
  intros N A.
  assert (G : forall i x, autoplay x = false -> autoplay (goTo i x) = false).
  { intros i x Hx. now destruct (goTo_keeps i x) as (_ & _ & _ & ->). }
  destruct e as [| |i|key|x|x| | | |w|]; cbn [handle]; try reflexivity;
    try assumption; try congruence.
  - now destruct (i <? List.length (dots s))%nat.
  - destruct (String.eqb key "ArrowLeft"), (String.eqb key "ArrowRight");
      try reflexivity; assumption.
  - cbv zeta. destruct (50 <? _)%float; [reflexivity | exact A].
  - now rewrite A.
  - unfold initSlider. destruct (isMobile s); [now apply G | exact A].
Qed.

(** X12: once the user has moved the slider by hand (arrow button, dot,
    arrow key, swipe) or put the pointer on it, the autoplay interval is
    cleared, and nothing sets it again but the pointer leaving the
    slider: until that happens the slider does not advance by itself. *)
Theorem manual_navigation_stops_autoplay :
  forall (s : Slider.t) (e : Event) (es : list Event),
    stops_autoplay s e = true ->
    Forall (fun e' => e' <> MouseLeave) es ->
    let s' := Slider.run (e :: es) s in
    autoplay s' = false /\ handle s' AutoplayTick = s'.
Proof.
  intros s e es H A s'.
  assert (O : autoplay s' = false).
  { subst s'. cbn [Slider.run fold_left].
    pose proof (autoplay_stopped s e H) as O.
    revert O. generalize (handle s e). clear H.
    induction A as [|e' es N A IH]; intros x O; [exact O|].
    cbn [fold_left]. apply IH. now apply autoplay_stays_off. }
  split; [exact O|]. cbn [handle]. now rewrite O.
Qed.

Lemma manual_navigation_stops_autoplay_witness :
  autoplay phone_slider = true /\
  stops_autoplay phone_slider NextClick = true /\
  autoplay (Slider.run [NextClick; AutoplayTick; MouseEnter] phone_slider) = false.
Proof.
  split; [reflexivity|]. split; [reflexivity|].
  apply (manual_navigation_stops_autoplay phone_slider NextClick
           [AutoplayTick; MouseEnter] eq_refl).
  repeat constructor; discriminate.
Defined.

(** * The mobile menu ([initMobileMenu]) *)

Module MobileMenu.

(** [#hamburgerBtn]: its class list and [aria-expanded]. *)
Record Hamburger := {
  hamburger_classes : ClassList.t;
  aria_expanded : option string
}.

(** The page as the menu and the cart see it: the hamburger and
    [#mobileMenu] (both are there, or [initMobileMenu] installs nothing),
    and the cart's state, whose page holds [document.body.style]. *)
Record Site := {
  hamburger : Hamburger;
  menu : Element;
  cart : State
}.

(** [document.body.style.overflow = v] *)
Definition set_overflow (v : string) (s : State) : State :=
  set_page
    {| drawerEl := drawerEl (page s); overlayEl := overlayEl (page s);
       view := view (page s); toast := toast (page s);
       body := {| overflow := v; paddingRight := paddingRight (body (page s));
                  scrollbarWidth := scrollbarWidth (body (page s)) |} |} s.

(** [openMenu()] *)
Definition openMenu (x : Site) : Site :=
  {| hamburger :=
       {| hamburger_classes := ClassList.add "is-open" (hamburger_classes (hamburger x));
          aria_expanded := Some "true" |};
     menu := {| classList := ClassList.add "is-open" (classList (menu x));
                aria_hidden := Some "false" |};
     cart := set_overflow "hidden" (cart x) |}.

(** [closeMenu()] *)
Definition closeMenu (x : Site) : Site :=
  {| hamburger :=
       {| hamburger_classes := ClassList.remove "is-open" (hamburger_classes (hamburger x));
          aria_expanded := Some "false" |};
     menu := {| classList := ClassList.remove "is-open" (classList (menu x));
                aria_hidden := Some "true" |};
     cart := set_overflow "" (cart x) |}.

(** The hamburger's [click] listener. *)
Definition onHamburgerClick (x : Site) : Site :=
  let isOpen := ClassList.contains "is-open" (hamburger_classes (hamburger x)) in
  if isOpen then closeMenu x else openMenu x.

(** The [click] listener of every [.mobile-menu__link]. *)
Definition onLinkClick (x : Site) : Site := closeMenu x.

(** The menu's [keydown] listener on [document]. *)
Definition onKeydown (key : string) (x : Site) : Site :=
  if (String.eqb key "Escape" && ClassList.contains "is-open" (classList (menu x)))%bool
  then closeMenu x else x.

(** A key pressed anywhere: [document] runs the menu's listener, then
    the cart's, in the order they were added. *)
Definition documentKeydown (key : string) (x : Site) : Site :=
  let x1 := onKeydown key x in
  {| hamburger := hamburger x1; menu := menu x1;
     cart := state_of (CartEvents.onKeydown key (cart x1)) |}.

(** A call of the cart, on the site. *)
Definition cartCall (c : Call) (x : Site) : Site :=
  {| hamburger := hamburger x; menu := menu x; cart := Cart.step (cart x) c |}.

(** The menu is open, as the hamburger's listener tests it. *)
Definition isOpen (x : Site) : bool :=
  ClassList.contains "is-open" (hamburger_classes (hamburger x)).

(** The menu's class and the two ARIA attributes say what [isOpen] says. *)
Definition mirrored (x : Site) : Prop :=
  ClassList.contains "is-open" (classList (menu x)) = isOpen x /\
  aria_expanded (hamburger x) = Some (if isOpen x then "true" else "false") /\
  aria_hidden (menu x) = Some (if isOpen x then "false" else "true").

(** [document.body.style.overflow] *)
Definition bodyOverflow (x : Site) : string := overflow (body (page (cart x))).

End MobileMenu.

Import MobileMenu.

Lemma openMenu_spec x :
  isOpen (openMenu x) = true /\ mirrored (openMenu x) /\
  bodyOverflow (openMenu x) = "hidden".
Proof.
  unfold isOpen, mirrored, isOpen, bodyOverflow, openMenu. simpl.
  rewrite !contains_add. now repeat split.
Qed.

Lemma closeMenu_spec x :
  isOpen (closeMenu x) = false /\ mirrored (closeMenu x) /\
  bodyOverflow (closeMenu x) = "".
Proof.
  unfold isOpen, mirrored, isOpen, bodyOverflow, closeMenu. simpl.
  rewrite !contains_remove. now repeat split.
Qed.

(** X13: a click on the hamburger flips the menu, whatever the markup
    was: afterwards the menu's class, [aria-expanded] and [aria-hidden]
    all agree with the hamburger's class, and the page scroll is locked
    ([overflow: hidden]) exactly when the menu is open; so two clicks
    give back the open/closed state.  A link of the menu closes it; the
    Escape key closes it when it is open, and every other key, or Escape
    on a closed menu, changes nothing. *)
Theorem hamburger_click_toggles_the_menu :
  forall x : Site,
    (isOpen (onHamburgerClick x) = negb (isOpen x) /\
     mirrored (onHamburgerClick x) /\
     bodyOverflow (onHamburgerClick x)
     = (if isOpen (onHamburgerClick x) then "hidden" else "")) /\
    isOpen (onHamburgerClick (onHamburgerClick x)) = isOpen x /\
    (isOpen (onLinkClick x) = false /\ mirrored (onLinkClick x)) /\
    (mirrored x -> isOpen x = true ->
       isOpen (onKeydown "Escape" x) = false /\ mirrored (onKeydown "Escape" x)) /\
    (forall key, key <> "Escape" \/ ClassList.contains "is-open" (classList (menu x)) = false ->
       onKeydown key x = x).
Proof.
  intros x.
  assert (T : forall y, isOpen (onHamburgerClick y) = negb (isOpen y) /\
                        mirrored (onHamburgerClick y) /\
                        bodyOverflow (onHamburgerClick y)
                        = (if isOpen (onHamburgerClick y) then "hidden" else "")).
  { intros y. unfold onHamburgerClick. fold (isOpen y).
    destruct (isOpen y) eqn:O.
    - destruct (closeMenu_spec y) as (-> & ? & ->).
      split; [reflexivity|]. split; [assumption | reflexivity].
    - destruct (openMenu_spec y) as (-> & ? & ->).
      split; [reflexivity|]. split; [assumption | reflexivity]. }
  split; [apply T|]. split; [|split; [|split]].
  - destruct (T (onHamburgerClick x)) as (-> & _).
    destruct (T x) as (-> & _). apply negb_involutive.
  - unfold onLinkClick. now destruct (closeMenu_spec x) as (? & ? & _).
  - intros (M & _) O. unfold onKeydown. rewrite M, O.
    cbn [String.eqb Ascii.eqb Bool.eqb andb].
    now destruct (closeMenu_spec x) as (? & ? & _).
  - intros key [H|H]; unfold onKeydown.
    + apply String.eqb_neq in H. now rewrite H.
    + now rewrite H, andb_false_r.
Qed.

(** A sample site: the menu closed, the cart freshly set up on the sample
    page. *)
Definition site0 : Site :=
  {| hamburger := {| hamburger_classes := ["navbar__hamburger"];
                     aria_expanded := Some "false" |};
     menu := {| classList := ["mobile-menu"]; aria_hidden := Some "true" |};
     cart := Cart.init page0 |}.

Lemma hamburger_click_toggles_the_menu_witness :
  mirrored (onHamburgerClick site0) /\ isOpen (onHamburgerClick site0) = true /\
  isOpen (onKeydown "Escape" (onHamburgerClick site0)) = false.
Proof.
  assert (M : mirrored (onHamburgerClick site0))
    by apply (proj1 (hamburger_click_toggles_the_menu site0)).
  split; [exact M|]. split; [reflexivity|].
  now apply (proj1 (proj2 (proj2 (proj2 (hamburger_click_toggles_the_menu
                                            (onHamburgerClick site0)))))).
Defined.

(** X14: the scroll lock is one flag, [body.style.overflow], that the
    menu and the cart both write.  Closing the menu clears it even while
    the cart drawer is open, and closing the cart clears it even while
    the menu is open; neither touches the other's open state. *)
Theorem scroll_lock_is_shared_by_menu_and_cart :
  forall x : Site,
    (visibility (cart (closeMenu x)) = visibility (cart x) /\
     bodyOverflow (closeMenu x) = "") /\
    (mounted (cart x) = true ->
     isOpen (cartCall CallClose x) = isOpen x /\
     menu (cartCall CallClose x) = menu x /\
     bodyOverflow (cartCall CallClose x) = "") /\
    (mounted (cart x) = true ->
     let y := closeMenu (cartCall CallOpen x) in
     visibility (cart y) = Open /\ bodyOverflow y = "").
Proof.
  intros x. split; [|split].
  - split; reflexivity.
  - intros M. unfold cartCall, isOpen, bodyOverflow. cbn [hamburger menu cart].
    split; [reflexivity|]. split; [reflexivity|].
    unfold Cart.step. cbn [call]. unfold mounted in M. unfold close. unfold_m.
    destruct (drawerEl (page (cart x))), (overlayEl (page (cart x)));
      try discriminate. reflexivity.
  - intros M y. subst y. split; [|reflexivity].
    unfold closeMenu, cartCall. cbn [cart].
    change (visibility (set_overflow "" (Cart.step (cart x) CallOpen)))
      with (visibility (Cart.step (cart x) CallOpen)).
    unfold Cart.step. cbn [call].
    now destruct (open_mounted _ M) as (o & -> & _ & V & _).
Qed.

Lemma scroll_lock_is_shared_by_menu_and_cart_witness :
  let y := onLinkClick (cartCall CallOpen (onHamburgerClick site0)) in
  mounted (cart site0) = true /\
  visibility (cart y) = Open /\ bodyOverflow y = "".
Proof.
  split; [reflexivity|].
  apply (proj2 (proj2 (scroll_lock_is_shared_by_menu_and_cart (onHamburgerClick site0)))).
  reflexivity.
Defined.

Lemma close_clears_overflow s :
  mounted s = true -> overflow (body (page (state_of (close s)))) = "".
Proof.
  unfold mounted, close. unfold_m.
  destruct (drawerEl (page s)), (overlayEl (page s)); try discriminate.
  reflexivity.
Qed.

(** X15: one press of Escape closes both the open menu and the open cart
    drawer: [document] runs the menu's listener and the cart's. *)
Theorem escape_closes_menu_and_cart :
  forall x : Site,
    mirrored x -> isOpen x = true ->
    mounted (cart x) = true -> visibility (cart x) = Open ->
    let y := documentKeydown "Escape" x in
    isOpen y = false /\ visibility (cart y) = Closed /\ bodyOverflow y = "".
Proof.
  intros x (Mi & _) O M V y. subst y. unfold documentKeydown. cbv zeta.
  assert (E : onKeydown "Escape" x = closeMenu x).
  { unfold onKeydown. rewrite Mi, O. reflexivity. }
  rewrite E. cbn [hamburger menu cart].
  destruct (closeMenu_spec x) as (C & _).
  split; [exact C|].
  assert (M' : mounted (cart (closeMenu x)) = true) by exact M.
  assert (V' : visibility (cart (closeMenu x)) = Open) by exact V.
  set (c := cart (closeMenu x)) in *.
  assert (K : CartEvents.onKeydown "Escape" c = close c).
  { unfold CartEvents.onKeydown. unfold bind at 1. unfold get_page at 1.
    cbn [String.eqb Ascii.eqb Bool.eqb andb].
    unfold visibility in V'. destruct (drawerEl (page c)) as [d|]; [|discriminate].
    now destruct (ClassList.contains "is-open" (classList d)). }
  rewrite K. unfold bodyOverflow. cbn [cart]. split.
  - now destruct (close_mounted c M') as (c' & -> & _ & Vc & _).
  - now apply close_clears_overflow.
Qed.

Lemma escape_closes_menu_and_cart_witness :
  let x := cartCall CallOpen (onHamburgerClick site0) in
  isOpen x = true /\ visibility (cart x) = Open /\
  isOpen (documentKeydown "Escape" x) = false /\
  visibility (cart (documentKeydown "Escape" x)) = Closed.
Proof.
  split; [reflexivity|]. split; [reflexivity|].
  destruct (escape_closes_menu_and_cart (cartCall CallOpen (onHamburgerClick site0)))
    as (A & B & _); try reflexivity; [now repeat split | now split].
Defined.

(** * The category filter ([initCategoryFilter]) *)

Module CategoryFilter.

(** A [.category-card] button: [dataset.category] ([None] when the
    attribute is missing), its class list and [aria-pressed]. *)
Record Button := {
  category : option string;
  button_classes : ClassList.t;
  aria_pressed : option string
}.

(** A [.dish-card]: [dataset.category], its [aria-hidden] attribute and
    the four style properties the listener writes. *)
Record Card := {
  card_category : option string;
  card_aria_hidden : option string;
  animation : string;
  opacity : string;
  transform : string;
  transition : string
}.

(** A callback handed to [requestAnimationFrame] and not run yet: the
    outer arrow function the listener passes for card [i], or the inner
    one that the outer one passes in its turn. *)
Inductive Callback :=
| Outer (i : Z)
| Inner (i : Z).

(** The buttons, the cards, and the list of animation frame callbacks
    of the document, in the order they were requested. *)
Record t := {
  buttons : list Button;
  cards : list Card;
  callbacks : list Callback
}.

(** [a === b] on values that are a string or [undefined]. *)
Definition strict_eq (a b : option string) : bool :=
  match a, b with
  | Some x, Some y => String.eqb x y
  | None, None => true
  | _, _ => false
  end.

(** [selected === 'all' || card.dataset.category === selected] *)
Definition matches (selected : option string) (card : Card) : bool :=
  (strict_eq selected (Some "all") || strict_eq (card_category card) selected)%bool.

(** The body of [buttons.forEach(b => ...)]. *)
Definition release (b : Button) : Button :=
  {| category := category b;
     button_classes := ClassList.remove "category-card--active" (button_classes b);
     aria_pressed := Some "false" |}.

(** What the listener then does to the clicked button. *)
Definition press (b : Button) : Button :=
  {| category := category b;
     button_classes := ClassList.add "category-card--active" (button_classes b);
     aria_pressed := Some "true" |}.

(** What the body of [cards.forEach((card, i) => ...)] writes to the
    card. *)
Definition show_or_hide (selected : option string) (card : Card) : Card :=
  if matches selected card
  then {| card_category := card_category card;
          card_aria_hidden := None;
          animation := "none";
          opacity := "0";
          transform := "translateY(20px)";
          transition := transition card |}
  else {| card_category := card_category card;
          card_aria_hidden := Some "true";
          animation := animation card;
          opacity := "";
          transform := "";
          transition := "" |}.

(** The indices [i] for which that body calls [requestAnimationFrame]:
    those of the matching cards, in the order of [forEach]. *)
Fixpoint matching_from (selected : option string) (i : Z) (l : list Card) : list Z :=
  match l with
  | [] => []
  | card :: r =>
      if matches selected card
      then i :: matching_from selected (i + 1) r
      else matching_from selected (i + 1) r
  end.

Definition requests (selected : option string) (l : list Card) : list Callback :=
  map Outer (matching_from selected 0 l).

(** [`${i * 60}ms`] *)
Definition delay (i : Z) : string :=
  NilZero.string_of_int (Z.to_int (i * 60)) ++ "ms".

(** The inner callback of card [i]. *)
Definition reveal (i : Z) (card : Card) : Card :=
  {| card_category := card_category card;
     card_aria_hidden := card_aria_hidden card;
     animation := animation card;
     opacity := "1";
     transform := "translateY(0)";
     transition := "opacity 0.4s ease " ++ delay i
                   ++ ", transform 0.4s ease " ++ delay i |}.

(** Running one callback: the outer one requests the inner one, the
    inner one writes the styles of its card. *)
Definition run_callback (s : t) (c : Callback) : t :=
  match c with
  | Outer i =>
      {| buttons := buttons s; cards := cards s;
         callbacks := (callbacks s ++ [Inner i])%list |}
  | Inner i =>
      {| buttons := buttons s;
         cards := mapi (fun j card => if j =? i then reveal i card else card)
                       (cards s);
         callbacks := callbacks s |}
  end.

(** An animation frame: the callbacks requested before it run in the
    order they were requested; what they request waits for the next
    frame. *)
Definition onAnimationFrame (s : t) : t :=
  fold_left run_callback (callbacks s)
    {| buttons := buttons s; cards := cards s; callbacks := [] |}.

(** The [click] listener of button number [k].  The listeners are only
    installed on a page with buttons and cards
    ([if (!buttons.length || !cards.length) return;]). *)
Definition onClick (k : nat) (s : t) : t :=
  match nth_error (buttons s) k, cards s with
  | None, _ | _, [] => s                        (* there is no such listener *)
  | Some btn, _ :: _ =>
      let selected := category btn in
      {| buttons :=
           mapi (fun i b => if i =? Z.of_nat k then press (release b) else release b)
                (buttons s);
         cards := map (show_or_hide selected) (cards s);
         callbacks := (callbacks s ++ requests selected (cards s))%list |}
  end.

(** The button carries the active class. *)
Definition active (b : Button) : bool :=
  ClassList.contains "category-card--active" (button_classes b).

(** Card [i] once the frames of a click on [selected] have run. *)
Definition settled (selected : option string) (i : Z) (card : Card) : Card :=
  if matches selected card
  then {| card_category := card_category card;
          card_aria_hidden := None;
          animation := "none";
          opacity := "1";
          transform := "translateY(0)";
          transition := "opacity 0.4s ease " ++ delay i
                        ++ ", transform 0.4s ease " ++ delay i |}
  else {| card_category := card_category card;
          card_aria_hidden := Some "true";
          animation := animation card;
          opacity := "";
          transform := "";
          transition := "" |}.

End CategoryFilter.

Lemma remove_add_remove c l :
  ClassList.remove c (ClassList.add c (ClassList.remove c l)) = ClassList.remove c l.
Proof.
  unfold ClassList.add. rewrite contains_remove. unfold ClassList.remove.
  rewrite filter_app. cbn [filter]. rewrite String.eqb_refl. cbn [negb].
  rewrite app_nil_r. apply filter_idem.
Qed.

Lemma release_press_again b :
  CategoryFilter.release (CategoryFilter.press (CategoryFilter.release b))
  = CategoryFilter.release b.
Proof.
  unfold CategoryFilter.release, CategoryFilter.press.
  cbn [CategoryFilter.category CategoryFilter.button_classes].
  f_equal. apply remove_add_remove.
Qed.

Lemma release_again b :
  CategoryFilter.release (CategoryFilter.release b) = CategoryFilter.release b.
Proof.
  unfold CategoryFilter.release. simpl. f_equal. apply remove_idem.
Qed.

Lemma mapi_from_mapi_from {A} (f g h : Z -> A -> A) i l :
  (forall j x, f j (g j x) = h j x) ->
  mapi_from f i (mapi_from g i l) = mapi_from h i l.
Proof.
  intros H. revert i. induction l as [|x l IH]; intros i; simpl; [reflexivity|].
  now rewrite H, IH.
Qed.

(** ** The frames of a click *)

Section Frames.

Import CategoryFilter.

Variable selected : option string.

(** The inner callback of card [i], on the list of cards that starts at
    index [i0]. *)
Definition reveal_at (i0 i : Z) (l : list Card) : list Card :=
  mapi_from (fun j card => if j =? i then reveal i card else card) i0 l.

Lemma reveal_at_below i0 i l : i < i0 -> reveal_at i0 i l = l.
Proof.
  unfold reveal_at. revert i0. induction l as [|c l IH]; intros i0 H; simpl;
    [reflexivity|].
  destruct (Z.eqb_spec i0 i); [lia|]. f_equal. apply IH. lia.
Qed.

Lemma matching_from_ge i0 l x : In x (matching_from selected i0 l) -> i0 <= x.
Proof.
  revert i0. induction l as [|c l IH]; intros i0; simpl; [tauto|].
  destruct (matches selected c); simpl.
  - intros [<-|H]; [lia|]. apply IH in H. lia.
  - intros H. apply IH in H. lia.
Qed.

Lemma reveal_tail i0 (js : list Z) c l :
  (forall x, In x js -> i0 < x) ->
  fold_left (fun cs i => reveal_at i0 i cs) js (c :: l)
  = c :: fold_left (fun cs i => reveal_at (i0 + 1) i cs) js l.
Proof.
  revert l. induction js as [|j js IH]; intros l H; simpl; [reflexivity|].
  unfold reveal_at at 2. simpl.
  destruct (Z.eqb_spec i0 j) as [E|E];
    [specialize (H j (or_introl eq_refl)); lia|].
  apply IH. intros x X. apply H. now right.
Qed.

(** Running the inner callbacks of the matching cards on the cards the
    click left behind. *)
Lemma reveal_matching i0 l :
  fold_left (fun cs i => reveal_at i0 i cs) (matching_from selected i0 l)
    (map (show_or_hide selected) l)
  = mapi_from (settled selected) i0 l.
Proof.
  revert i0. induction l as [|c l IH]; intros i0; [reflexivity|].
  assert (G : forall x, In x (matching_from selected (i0 + 1) l) -> i0 < x)
    by (intros x X; apply matching_from_ge in X; lia).
  cbn [matching_from map mapi_from].
  destruct (matches selected c) eqn:M.
  - cbn [fold_left].
    assert (E : reveal_at i0 i0
                  (show_or_hide selected c :: map (show_or_hide selected) l)
                = settled selected i0 c :: map (show_or_hide selected) l).
    { unfold reveal_at. cbn [mapi_from]. rewrite Z.eqb_refl. f_equal.
      - unfold settled, show_or_hide. rewrite M. reflexivity.
      - apply (reveal_at_below (i0 + 1) i0). lia. }
    rewrite E, reveal_tail by exact G. now rewrite IH.
  - assert (E : show_or_hide selected c = settled selected i0 c)
      by (unfold settled, show_or_hide; now rewrite M).
    rewrite reveal_tail by exact G. now rewrite IH, E.
Qed.

Lemma frame_of_outers b cs (js : list Z) acc :
  fold_left run_callback (map Outer js)
    {| buttons := b; cards := cs; callbacks := acc |}
  = {| buttons := b; cards := cs; callbacks := (acc ++ map Inner js)%list |}.
Proof.
  revert acc. induction js as [|j js IH]; intros acc; simpl.
  - now rewrite app_nil_r.
  - rewrite IH, <- app_assoc. reflexivity.
Qed.

Lemma frame_of_inners b (js : list Z) cs acc :
  fold_left run_callback (map Inner js)
    {| buttons := b; cards := cs; callbacks := acc |}
  = {| buttons := b;
       cards := fold_left (fun cs i => reveal_at 0 i cs) js cs;
       callbacks := acc |}.
Proof.
  revert cs. induction js as [|j js IH]; intros cs; simpl; [reflexivity|].
  now rewrite IH.
Qed.

(** Two frames after the click, from a state without callbacks. *)
Lemma two_frames b cs :
  onAnimationFrame
    (onAnimationFrame
       {| buttons := b; cards := map (show_or_hide selected) cs;
          callbacks := requests selected cs |})
  = {| buttons := b; cards := mapi (settled selected) cs; callbacks := [] |}.
Proof.
  unfold onAnimationFrame at 2. cbn [buttons cards callbacks]. unfold requests.
  rewrite frame_of_outers. cbn [app].
  unfold onAnimationFrame. cbn [buttons cards callbacks].
  rewrite frame_of_inners. unfold mapi. now rewrite reveal_matching.
Qed.

Lemma settled_again i c : settled selected i (settled selected i c) = settled selected i c.
Proof.
  unfold settled at 2. destruct (matches selected c) eqn:M;
    unfold settled, matches in *; cbn [card_category]; rewrite M; reflexivity.
Qed.

End Frames.

(** X16: after a click on a category button exactly that button carries
    [category-card--active] and [aria-pressed="true"], every other button
    has [aria-pressed="false"]; a dish card ends with
    [aria-hidden="true"] exactly when its category differs from the
    button's and the button is not the ["all"] one, otherwise the
    attribute is removed; and the click requests one animation frame per
    matching card.  When no callback was pending at the click, two frames
    later none is pending, every matching card has [opacity: 1], no
    offset and its staggered transition, every other card has the three
    properties cleared; a further click on the same button followed by
    its two frames gives that same state again. *)
Theorem category_click_selects_one_button :
  forall (s : CategoryFilter.t) (k : nat) (btn : CategoryFilter.Button),
    nth_error (CategoryFilter.buttons s) k = Some btn ->
    CategoryFilter.cards s <> [] ->
    let selected := CategoryFilter.category btn in
    let s' := CategoryFilter.onClick k s in
    (forall j b, nth_error (CategoryFilter.buttons s') j = Some b ->
       CategoryFilter.active b = (j =? k)%nat /\
       CategoryFilter.aria_pressed b = Some (if (j =? k)%nat then "true" else "false")) /\
    (forall j c, nth_error (CategoryFilter.cards s) j = Some c ->
       option_map CategoryFilter.card_aria_hidden (nth_error (CategoryFilter.cards s') j)
       = Some (if CategoryFilter.matches selected c then None else Some "true")) /\
    (selected = Some "all" ->
       forall c, In c (CategoryFilter.cards s') -> CategoryFilter.card_aria_hidden c = None) /\
    CategoryFilter.callbacks s'
    = (CategoryFilter.callbacks s
       ++ map CategoryFilter.Outer
            (CategoryFilter.matching_from selected 0 (CategoryFilter.cards s)))%list /\
    (CategoryFilter.callbacks s = [] ->
       let s2 := CategoryFilter.onAnimationFrame (CategoryFilter.onAnimationFrame s') in
       CategoryFilter.callbacks s2 = [] /\
       CategoryFilter.buttons s2 = CategoryFilter.buttons s' /\
       (forall j c, nth_error (CategoryFilter.cards s) j = Some c ->
          nth_error (CategoryFilter.cards s2) j
          = Some (CategoryFilter.settled selected (Z.of_nat j) c)) /\
       CategoryFilter.onAnimationFrame
         (CategoryFilter.onAnimationFrame (CategoryFilter.onClick k s2)) = s2).
Proof.
  intros s k btn B N selected s'. subst s'. unfold CategoryFilter.onClick. rewrite B.
  destruct (CategoryFilter.cards s) as [|card0 rest] eqn:Cs; [congruence|]. clear N.
  rewrite <- Cs. fold selected.
  cbv zeta. cbn [CategoryFilter.buttons CategoryFilter.cards CategoryFilter.callbacks].
  split; [|split; [|split; [|split]]].
  - intros j b. rewrite nth_error_mapi.
    destruct (nth_error (CategoryFilter.buttons s) j) as [b0|]; simpl; [|discriminate].
    intros [= <-]. unfold CategoryFilter.active.
    destruct (Z.eqb_spec (Z.of_nat j) (Z.of_nat k)) as [E|E].
    + apply Nat2Z.inj in E. subst j. rewrite Nat.eqb_refl. simpl.
      now rewrite contains_add.
    + assert (j <> k) by congruence. apply Nat.eqb_neq in H. rewrite H. simpl.
      now rewrite contains_remove.
  - intros j c C. rewrite nth_error_map, C. simpl.
    unfold CategoryFilter.show_or_hide.
    now destruct (CategoryFilter.matches selected c).
  - intros A c H. apply in_map_iff in H as (c0 & <- & _).
    unfold CategoryFilter.show_or_hide, CategoryFilter.matches. rewrite A. reflexivity.
  - reflexivity.
  - intros Q. rewrite Q. cbn [app]. rewrite two_frames.
    cbn [CategoryFilter.buttons CategoryFilter.cards CategoryFilter.callbacks].
    split; [reflexivity|]. split; [reflexivity|]. split.
    + intros j c C. now rewrite nth_error_mapi, C.
    + rewrite nth_error_mapi, B. cbn [option_map].
      assert (Ck : CategoryFilter.category
                     (if Z.of_nat k =? Z.of_nat k
                      then CategoryFilter.press (CategoryFilter.release btn)
                      else CategoryFilter.release btn) = selected)
        by (now destruct (Z.of_nat k =? Z.of_nat k)).
      rewrite Ck.
      destruct (mapi (CategoryFilter.settled selected) (CategoryFilter.cards s))
        as [|c1 r1] eqn:M1.
      { rewrite Cs in M1. discriminate M1. }
      rewrite <- M1. cbn [app]. rewrite two_frames. f_equal.
      * unfold mapi. apply mapi_from_mapi_from. intros j x.
        destruct (j =? Z.of_nat k).
        -- unfold CategoryFilter.press at 1. rewrite release_press_again. reflexivity.
        -- apply release_again.
      * unfold mapi. apply mapi_from_mapi_from. intros j x. apply settled_again.
Qed.

Lemma category_click_selects_one_button_witness :
  let s := {| CategoryFilter.buttons :=
                [ {| CategoryFilter.category := Some "all";
                     CategoryFilter.button_classes := ["category-card"; "category-card--active"];
                     CategoryFilter.aria_pressed := Some "true" |};
                  {| CategoryFilter.category := Some "pizza";
                     CategoryFilter.button_classes := ["category-card"];
                     CategoryFilter.aria_pressed := Some "false" |} ];
              CategoryFilter.cards :=
                [ {| CategoryFilter.card_category := Some "burger";
                     CategoryFilter.card_aria_hidden := None;
                     CategoryFilter.animation := ""; CategoryFilter.opacity := "";
                     CategoryFilter.transform := ""; CategoryFilter.transition := "" |};
                  {| CategoryFilter.card_category := Some "pizza";
                     CategoryFilter.card_aria_hidden := None;
                     CategoryFilter.animation := ""; CategoryFilter.opacity := "";
                     CategoryFilter.transform := ""; CategoryFilter.transition := "" |} ];
              CategoryFilter.callbacks := [] |} in
  map CategoryFilter.card_aria_hidden (CategoryFilter.cards (CategoryFilter.onClick 1 s))
  = [Some "true"; None] /\
  CategoryFilter.callbacks (CategoryFilter.onClick 1 s) = [CategoryFilter.Outer 1] /\
  map CategoryFilter.transition
    (CategoryFilter.cards
       (CategoryFilter.onAnimationFrame
          (CategoryFilter.onAnimationFrame (CategoryFilter.onClick 1 s))))
  = [""; "opacity 0.4s ease 60ms, transform 0.4s ease 60ms"].
Proof.
  cbv zeta.
  match goal with
  | |- context [CategoryFilter.onClick 1 ?s] =>
      destruct (category_click_selects_one_button s 1
                  {| CategoryFilter.category := Some "pizza";
                     CategoryFilter.button_classes := ["category-card"];
                     CategoryFilter.aria_pressed := Some "false" |}
                  eq_refl ltac:(discriminate)) as (_ & _ & _ & C & _)
  end.
  split; [reflexivity|]. split; [|reflexivity].
  rewrite C. reflexivity.
Defined.

(** A callback that is still pending at the next click reveals its card
    whatever that click decided: after a click on "all" and, before any
    frame, a click on "pizza", the burger card is hidden from assistive
    technology and shown with [opacity: 1]. *)
Example stale_frame_reveals_a_hidden_card :
  let card c := {| CategoryFilter.card_category := Some c;
                   CategoryFilter.card_aria_hidden := None;
                   CategoryFilter.animation := ""; CategoryFilter.opacity := "";
                   CategoryFilter.transform := ""; CategoryFilter.transition := "" |} in
  let button c := {| CategoryFilter.category := Some c;
                     CategoryFilter.button_classes := ["category-card"];
                     CategoryFilter.aria_pressed := Some "false" |} in
  let s := {| CategoryFilter.buttons := [button "all"; button "pizza"];
              CategoryFilter.cards := [card "burger"; card "pizza"];
              CategoryFilter.callbacks := [] |} in
  let s' := CategoryFilter.onAnimationFrame
              (CategoryFilter.onAnimationFrame
                 (CategoryFilter.onClick 1 (CategoryFilter.onClick 0 s))) in
  map (fun c => (CategoryFilter.card_aria_hidden c, CategoryFilter.opacity c))
      (CategoryFilter.cards s')
  = [(Some "true", "1"); (None, "1")].
Proof. reflexivity. Qed.

(** * Text of the form fields *)

(** Strings are UTF-8 bytes; [trim()] and regular expressions see
    characters.  [Text] goes from bytes to code points and back. *)
Module Text.

(** The code points of a UTF-8 byte sequence. *)
Fixpoint decode (s : list N) : list N :=
  match s with
  | [] => []
  | b :: r =>
      if (b <? 192)%N then b :: decode r
      else
        match r with
        | [] => [b]
        | b1 :: r1 =>
            if (b <? 224)%N
            then ((b - 192) * 64 + (b1 - 128))%N :: decode r1
            else
              match r1 with
              | [] => [b; b1]
              | b2 :: r2 =>
                  if (b <? 240)%N
                  then ((b - 224) * 4096 + (b1 - 128) * 64 + (b2 - 128))%N :: decode r2
                  else
                    match r2 with
                    | [] => [b; b1; b2]
                    | b3 :: r3 =>
                        ((b - 240) * 262144 + (b1 - 128) * 4096
                         + (b2 - 128) * 64 + (b3 - 128))%N :: decode r3
                    end
              end
        end
  end.

(** The UTF-8 bytes of one code point. *)
Definition encode1 (c : N) : list N :=
  if (c <? 128)%N then [c]
  else if (c <? 2048)%N then [192 + c / 64; 128 + c mod 64]%N
  else if (c <? 65536)%N
       then [224 + c / 4096; 128 + (c / 64) mod 64; 128 + c mod 64]%N
       else [240 + c / 262144; 128 + (c / 4096) mod 64;
             128 + (c / 64) mod 64; 128 + c mod 64]%N.

Definition encode (l : list N) : list N := flat_map encode1 l.

Definition of_bytes (l : list N) : string :=
  string_of_list_ascii (map ascii_of_N l).

(** [WhiteSpace] and [LineTerminator] code points: what [trim()] strips
    and what [\s] matches. *)
Definition is_white_space (c : N) : bool :=
  ((9 <=? c) && (c <=? 13) || (c =? 32) || (c =? 160) || (c =? 5760)
   || (8192 <=? c) && (c <=? 8202) || (c =? 8232) || (c =? 8233)
   || (c =? 8239) || (c =? 8287) || (c =? 12288) || (c =? 65279))%N%bool.

Fixpoint trim_start (l : list N) : list N :=
  match l with
  | c :: r => if is_white_space c then trim_start r else l
  | [] => []
  end.

(** [String.prototype.trim], on code points. *)
Definition trim_points (l : list N) : list N :=
  rev (trim_start (rev (trim_start l))).

(** [s.trim()] *)
Definition trim (s : string) : string :=
  of_bytes (encode (trim_points (decode (JS.bytes s)))).

(** The characters of [s.trim()]. *)
Definition trimmed (s : string) : list N := trim_points (decode (JS.bytes s)).

End Text.

(** * Regular expressions *)

Module Regex.

(** Patterns over code points; a class is given by its test. *)
Inductive t :=
| Fail
| Eps
| Class (p : N -> bool)
| Seq (a b : t)
| Alt (a b : t)
| Star (a : t).

(** [a+] *)
Definition Plus (a : t) : t := Seq a (Star a).

(** The strings a pattern matches as a whole. *)
Inductive lang : t -> list N -> Prop :=
| L_eps : lang Eps []
| L_class p c : p c = true -> lang (Class p) [c]
| L_seq a b s1 s2 : lang a s1 -> lang b s2 -> lang (Seq a b) (s1 ++ s2)
| L_alt_l a b s : lang a s -> lang (Alt a b) s
| L_alt_r a b s : lang b s -> lang (Alt a b) s
| L_star_nil a : lang (Star a) []
| L_star_cons a s1 s2 : lang a s1 -> lang (Star a) s2 -> lang (Star a) (s1 ++ s2).

Fixpoint nullable (r : t) : bool :=
  match r with
  | Fail => false
  | Eps => true
  | Class _ => false
  | Seq a b => nullable a && nullable b
  | Alt a b => nullable a || nullable b
  | Star _ => true
  end.

(** What is left of the pattern after the character [c]. *)
Fixpoint deriv (c : N) (r : t) : t :=
  match r with
  | Fail => Fail
  | Eps => Fail
  | Class p => if p c then Eps else Fail
  | Seq a b =>
      Alt (Seq (deriv c a) b) (if nullable a then deriv c b else Fail)
  | Alt a b => Alt (deriv c a) (deriv c b)
  | Star a => Seq (deriv c a) (Star a)
  end.

(** [/^r$/.test(s)] *)
Definition test (r : t) (s : list N) : bool :=
  nullable (fold_left (fun r c => deriv c r) s r).

End Regex.

Lemma nullable_lang r : Regex.nullable r = true <-> Regex.lang r [].
Proof.
  split.
  - induction r; simpl; intros H; try discriminate.
    + constructor.
    + apply andb_true_iff in H as [H1 H2].
      change (@nil N) with (@nil N ++ [])%list. constructor; auto.
    + apply orb_true_iff in H as [H|H]; [apply Regex.L_alt_l | apply Regex.L_alt_r]; auto.
    + constructor.
  - intros H. remember [] as w eqn:W.
    induction H; simpl; try discriminate; try reflexivity.
    + apply app_eq_nil in W as [-> ->]. now rewrite IHlang1, IHlang2.
    + now rewrite IHlang.
    + rewrite IHlang by assumption. apply orb_true_r.
Qed.

Lemma deriv_complete r w :
  Regex.lang r w -> forall c s, w = c :: s -> Regex.lang (Regex.deriv c r) s.
Proof.
  induction 1 as [|p c0 P|a b s1 s2 H1 IH1 H2 IH2|a b s0 H IH|a b s0 H IH|a
                 |a s1 s2 H1 IH1 H2 IH2]; intros c s W; simpl.
  - discriminate.
  - injection W as -> <-. rewrite P. constructor.
  - destruct s1 as [|c1 s1]; simpl in W.
    + apply Regex.L_alt_r.
      apply nullable_lang in H1. rewrite H1. now apply IH2.
    + injection W as -> <-. apply Regex.L_alt_l. constructor; auto.
  - apply Regex.L_alt_l. auto.
  - apply Regex.L_alt_r. auto.
  - discriminate.
  - destruct s1 as [|c1 s1]; simpl in W.
    + now apply IH2.
    + injection W as -> <-. constructor; auto.
Qed.

Lemma deriv_sound r :
  forall c s, Regex.lang (Regex.deriv c r) s -> Regex.lang r (c :: s).
Proof.
  induction r as [| |p|a IHa b IHb|a IHa b IHb|a IHa]; intros c s H; simpl in H.
  - inversion H.
  - inversion H.
  - destruct (p c) eqn:P; inversion H; subst. now constructor.
  - inversion H as [| | | ? ? ? H'| ? ? ? H'| |]; subst.
    + inversion H' as [| |? ? s1 s2 Ha Hb| | | |]; subst.
      change (c :: s1 ++ s2) with ((c :: s1) ++ s2)%list. constructor; auto.
    + destruct (Regex.nullable a) eqn:N; [|inversion H'].
      change (c :: s) with ([] ++ c :: s)%list. constructor; auto.
      now apply nullable_lang.
  - inversion H; subst; [apply Regex.L_alt_l | apply Regex.L_alt_r]; auto.
  - inversion H as [| |? ? s1 s2 Ha Hb| | | |]; subst.
    change (c :: s1 ++ s2) with ((c :: s1) ++ s2)%list. constructor; auto.
Qed.

(** The matcher decides the language. *)
Lemma test_lang r s : Regex.test r s = true <-> Regex.lang r s.
Proof.
  unfold Regex.test. revert r. induction s as [|c s IH]; intros r; simpl.
  - apply nullable_lang.
  - rewrite IH. split; [apply deriv_sound|].
    intros H. now apply (deriv_complete _ _ H).
Qed.

Lemma lang_star_class p s :
  Regex.lang (Regex.Star (Regex.Class p)) s <-> forallb p s = true.
Proof.
  split.
  - intros H. remember (Regex.Star (Regex.Class p)) as r eqn:R.
    induction H; try discriminate; [reflexivity|].
    injection R as ->. inversion H as [|? ? P| | | | |]; subst. simpl.
    rewrite IHlang2 by reflexivity. now rewrite P.
  - induction s as [|c s IH]; simpl; intros H; [constructor|].
    apply andb_true_iff in H as [H1 H2].
    change (c :: s) with ([c] ++ s)%list. constructor; [now constructor | auto].
Qed.

Lemma lang_plus_class p s :
  Regex.lang (Regex.Plus (Regex.Class p)) s <-> s <> [] /\ forallb p s = true.
Proof.
  unfold Regex.Plus. split.
  - intros H. inversion H as [| |? ? s1 s2 Ha Hb| | | |]; subst.
    inversion Ha as [|? ? P| | | | |]; subst. split; [discriminate|]. simpl.
    apply lang_star_class in Hb. now rewrite P, Hb.
  - intros [N F]. destruct s as [|c s]; [congruence|]. simpl in F.
    apply andb_true_iff in F as [F1 F2].
    change (c :: s) with ([c] ++ s)%list.
    constructor; [now constructor | now apply lang_star_class].
Qed.

(** * The newsletter form ([initNewsletter]) *)

Module Newsletter.

(** [.newsletter__btn]: its text and whether it is disabled. *)
Record SubmitButton := {
  btn_text : string;
  disabled : bool
}.

(** [#newsletterEmail] (its value, whether it has the focus), the
    form's button if there is one, and the page that holds the toast. *)
Record t := {
  value : string;
  focused : bool;
  button : option SubmitButton;
  site : State
}.

(** [[^\s@]] *)
Definition not_space_or_at (c : N) : bool :=
  negb (Text.is_white_space c || (c =? 64)%N).

(** [/^[^\s@]+@[^\s@]+\.[^\s@]+$/].  A character outside the basic
    plane is two code units for the pattern, both in the class
    [[^\s@]]; under [+] that is the same as one code point in it. *)
Definition emailRegex : Regex.t :=
  Regex.Seq (Regex.Plus (Regex.Class not_space_or_at))
    (Regex.Seq (Regex.Class (fun c => (c =? 64)%N))
       (Regex.Seq (Regex.Plus (Regex.Class not_space_or_at))
          (Regex.Seq (Regex.Class (fun c => (c =? 46)%N))
             (Regex.Plus (Regex.Class not_space_or_at))))).

(** The negation of [!email || !emailRegex.test(email)] for
    [email = input.value.trim()]. *)
Definition accepts (v : string) : bool :=
  let email := Text.trimmed v in
  negb (match email with [] => true | _ :: _ => false end
        || negb (Regex.test emailRegex email)).

(** The form's [submit] listener ([e.preventDefault()] keeps the page
    from being left).  A throwing [showToast] ends it. *)
Definition onSubmit (n : t) : t :=
  if negb (accepts (value n))
  then
    match showToast "⚠️ Please enter a valid email address." "" (site n) with
    | Ok _ s' =>
        {| value := value n; focused := true; button := button n; site := s' |}
    | Thrown _ s' =>
        {| value := value n; focused := focused n; button := button n; site := s' |}
    end
  else
    match showToast "🎉 You're subscribed! Check your inbox for deals." "success"
            (site n) with
    | Ok _ s' =>
        {| value := "";
           focused := focused n;
           button :=
             option_map (fun _ => {| btn_text := "✓ Subscribed!"; disabled := true |})
               (button n);
           site := s' |}
    | Thrown _ s' =>
        {| value := value n; focused := focused n; button := button n; site := s' |}
    end.

End Newsletter.

Lemma lang_email s :
  Regex.lang Newsletter.emailRegex s <->
  exists l d t,
    s = (l ++ 64%N :: d ++ 46%N :: t)%list /\
    l <> [] /\ d <> [] /\ t <> [] /\
    forallb Newsletter.not_space_or_at l = true /\
    forallb Newsletter.not_space_or_at d = true /\
    forallb Newsletter.not_space_or_at t = true.
Proof.
  unfold Newsletter.emailRegex. split.
  - intros H.
    inversion H as [| |? ? l r1 Hl H1| | | |]; subst.
    inversion H1 as [| |? ? a r2 Ha H2| | | |]; subst.
    inversion H2 as [| |? ? d r3 Hd H3| | | |]; subst.
    inversion H3 as [| |? ? b t Hb Ht| | | |]; subst.
    inversion Ha as [|? ca Pa| | | | |]; subst.
    inversion Hb as [|? cb Pb| | | | |]; subst.
    apply N.eqb_eq in Pa, Pb. subst ca cb.
    apply lang_plus_class in Hl as [? ?], Hd as [? ?], Ht as [? ?].
    exists l, d, t. simpl. now repeat split.
  - intros (l & d & t & -> & Nl & Nd & Nt & Fl & Fd & Ft).
    constructor; [now apply lang_plus_class|].
    change (64%N :: d ++ 46%N :: t) with ([64%N] ++ d ++ [46%N] ++ t)%list.
    constructor; [now constructor|].
    constructor; [now apply lang_plus_class|].
    constructor; [now constructor | now apply lang_plus_class].
Qed.

Lemma no_at_count l :
  forallb Newsletter.not_space_or_at l = true ->
  count_occ N.eq_dec l 64%N = 0%nat /\
  forallb (fun c => negb (Text.is_white_space c)) l = true.
Proof.
  induction l as [|c l IH]; simpl; intros H; [now split|].
  apply andb_true_iff in H as [H1 H2]. destruct (IH H2) as [I1 I2].
  unfold Newsletter.not_space_or_at in H1.
  apply negb_true_iff, orb_false_iff in H1 as [W A].
  apply N.eqb_neq in A. rewrite W, I2. simpl.
  destruct (N.eq_dec c 64); [congruence | now split].
Qed.

(** X17: the newsletter form accepts an address exactly when, once
    trimmed, it reads [local@domain.tld] with three non-empty parts free
    of white space and of [@] (the domain part may hold more dots); an
    accepted address therefore has exactly one [@] and no white space.
    On a page with the toast, a rejected address shows the warning toast
    in the default style, keeps the field's text and focuses the field;
    an accepted one shows the success toast, empties the field and
    disables the button. *)
Theorem newsletter_accepts_well_formed_addresses :
  forall n : Newsletter.t,
    let email := Text.trimmed (Newsletter.value n) in
    (Newsletter.accepts (Newsletter.value n) = true <->
     exists l d t,
       email = (l ++ 64%N :: d ++ 46%N :: t)%list /\
       l <> [] /\ d <> [] /\ t <> [] /\
       forallb Newsletter.not_space_or_at l = true /\
       forallb Newsletter.not_space_or_at d = true /\
       forallb Newsletter.not_space_or_at t = true) /\
    (Newsletter.accepts (Newsletter.value n) = true ->
     count_occ N.eq_dec email 64%N = 1%nat /\
     forallb (fun c => negb (Text.is_white_space c)) email = true) /\
    (forall t0, toast (page (Newsletter.site n)) = Some t0 ->
       let n' := Newsletter.onSubmit n in
       if Newsletter.accepts (Newsletter.value n)
       then Newsletter.value n' = "" /\
            toast (page (Newsletter.site n'))
            = Some {| textContent := "🎉 You're subscribed! Check your inbox for deals.";
                      className := "toast is-visible toast--success" |} /\
            (forall b, Newsletter.button n = Some b ->
               Newsletter.button n'
               = Some {| Newsletter.btn_text := "✓ Subscribed!";
                         Newsletter.disabled := true |})
       else Newsletter.value n' = Newsletter.value n /\
            Newsletter.focused n' = true /\
            Newsletter.button n' = Newsletter.button n /\
            toast (page (Newsletter.site n'))
            = Some {| textContent := "⚠️ Please enter a valid email address.";
                      className := "toast is-visible" |}).
Proof.
  intros n email.
  assert (A : Newsletter.accepts (Newsletter.value n) = true <->
              Regex.lang Newsletter.emailRegex email).
  { unfold Newsletter.accepts. fold email. cbv zeta.
    rewrite negb_true_iff, orb_false_iff, negb_false_iff, test_lang.
    split; [tauto|]. intros H. split; [|exact H].
    apply lang_email in H as (l & d & t & -> & Nl & _).
    destruct l; [congruence | reflexivity]. }
  split; [|split].
  - rewrite A. apply lang_email.
  - intros H. apply A, lang_email in H
      as (l & d & t & -> & _ & _ & _ & Fl & Fd & Ft).
    destruct (no_at_count _ Fl) as [Cl Wl], (no_at_count _ Fd) as [Cd Wd],
      (no_at_count _ Ft) as [Ct Wt].
    split.
    + rewrite count_occ_app. simpl. rewrite count_occ_app. simpl.
      rewrite Cl, Cd, Ct. reflexivity.
    + rewrite forallb_app. simpl. rewrite forallb_app. simpl.
      now rewrite Wl, Wd, Wt.
  - intros t0 T n'. subst n'. unfold Newsletter.onSubmit.
    destruct (Newsletter.accepts (Newsletter.value n)); cbn [negb].
    + destruct (showToast_some "🎉 You're subscribed! Check your inbox for deals."
                  "success" _ _ T) as (s' & -> & _ & T').
      cbn [Newsletter.value Newsletter.site Newsletter.button].
      split; [reflexivity|]. split; [exact T'|]. now intros b ->.
    + destruct (showToast_some "⚠️ Please enter a valid email address." "" _ _ T)
        as (s' & -> & _ & T').
      cbn [Newsletter.value Newsletter.site Newsletter.button Newsletter.focused].
      now repeat split.
Qed.

Lemma newsletter_accepts_well_formed_addresses_witness :
  Newsletter.accepts "  ada@example.co.uk " = true /\
  count_occ N.eq_dec (Text.trimmed "  ada@example.co.uk ") 64%N = 1%nat /\
  Newsletter.accepts "ada@example" = false /\
  Newsletter.accepts "ada lovelace@example.org" = false.
Proof.
  split; [reflexivity|]. split; [|split; reflexivity].
  apply (proj1 (proj2 (newsletter_accepts_well_formed_addresses
                         {| Newsletter.value := "  ada@example.co.uk ";
                            Newsletter.focused := false;
                            Newsletter.button := None;
                            Newsletter.site := Cart.init page0 |}))).
  reflexivity.
Defined.

(** * The search bar ([initSearch]) *)

Module Search.

(** [.search-bar__input] (value, placeholder, focus) and the page that
    holds the toast. *)
Record t := {
  value : string;
  placeholder : string;
  focused : bool;
  site : State
}.

(** The double quote character. *)
Definition quote : string := String (ascii_of_nat 34) EmptyString.

(** The button's [click] listener; the Enter key in the field calls it
    through [searchBtn.click()]. *)
Definition onClick (x : t) : t :=
  let query := Text.trim (value x) in
  if String.eqb query ""
  then {| value := value x;
          placeholder := "Please enter an address first...";
          focused := true;
          site := site x |}
  else {| value := value x; placeholder := placeholder x; focused := focused x;
          site := state_of
                    (showToast ("🔍 Searching for food near " ++ quote ++ query
                                ++ quote ++ "...") "" (site x)) |}.

(** The field's [keydown] listener. *)
Definition onKeydown (key : string) (x : t) : t :=
  if String.eqb key "Enter" then onClick x else x.

End Search.

Lemma trim_start_nil l :
  Text.trim_start l = [] <-> forallb Text.is_white_space l = true.
Proof.
  induction l as [|c l IH]; simpl; [tauto|].
  destruct (Text.is_white_space c); simpl; [exact IH|].
  split; discriminate.
Qed.

Lemma trim_start_white l :
  forallb Text.is_white_space l = true ->
  forallb Text.is_white_space (Text.trim_start l) = true.
Proof. intros H. apply trim_start_nil in H. now rewrite H. Qed.

Lemma trim_points_nil l :
  Text.trim_points l = [] <-> forallb Text.is_white_space l = true.
Proof.
  unfold Text.trim_points. split.
  - intros H. apply (f_equal (@rev N)) in H. rewrite rev_involutive in H.
    simpl in H. apply trim_start_nil in H.
    rewrite forallb_forall in H.
    destruct (Text.trim_start l) as [|c r] eqn:E; [now apply trim_start_nil|].
    exfalso.
    assert (W : Text.is_white_space c = true)
      by (apply H; apply in_rev; rewrite rev_involutive; now left).
    clear H. induction l as [|x l IH]; simpl in E; [discriminate|].
    destruct (Text.is_white_space x) eqn:X; [now apply IH|].
    injection E as -> _. congruence.
  - intros H. apply trim_start_nil in H. now rewrite H.
Qed.

Lemma encode_nil l : Text.encode l = [] <-> l = [].
Proof.
  split; [|now intros ->]. destruct l as [|c l]; [reflexivity|].
  unfold Text.encode. simpl. unfold Text.encode1.
  destruct (c <? 128)%N; [discriminate|].
  destruct (c <? 2048)%N; [discriminate|].
  destruct (c <? 65536)%N; discriminate.
Qed.

Lemma trim_empty s :
  String.eqb (Text.trim s) "" = true <->
  forallb Text.is_white_space (Text.decode (JS.bytes s)) = true.
Proof.
  rewrite String.eqb_eq, <- trim_points_nil. unfold Text.trim, Text.of_bytes.
  fold (Text.trimmed s). unfold Text.trimmed. rewrite <- encode_nil.
  destruct (Text.encode (Text.trim_points (Text.decode (JS.bytes s)))); simpl;
    split; congruence.
Qed.

(** X18: a search for nothing never reaches the toast: when the field
    holds only white space (or is empty) the click focuses the field and
    swaps the placeholder for the reminder, and the toast and the field's
    text stay as they were; otherwise the field is left alone and, on a
    page with the toast, the toast quotes the trimmed query in the
    default style.  The Enter key does what the click does; other keys
    do nothing. *)
Theorem blank_search_asks_for_an_address :
  forall x : Search.t,
    let blank := forallb Text.is_white_space (Text.decode (JS.bytes (Search.value x))) in
    let x' := Search.onClick x in
    (blank = true ->
       x' = {| Search.value := Search.value x;
               Search.placeholder := "Please enter an address first...";
               Search.focused := true;
               Search.site := Search.site x |}) /\
    (blank = false ->
       Search.value x' = Search.value x /\
       Search.placeholder x' = Search.placeholder x /\
       Search.focused x' = Search.focused x /\
       Text.trim (Search.value x) <> "" /\
       forall t0, toast (page (Search.site x)) = Some t0 ->
         toast (page (Search.site x'))
         = Some {| textContent := "🔍 Searching for food near " ++ Search.quote
                                  ++ Text.trim (Search.value x) ++ Search.quote ++ "...";
                   className := "toast is-visible" |}) /\
    Search.onKeydown "Enter" x = x' /\
    (forall key, key <> "Enter" -> Search.onKeydown key x = x).
Proof.
  intros x blank x'. subst x' blank. unfold Search.onClick. cbv zeta.
  pose proof (trim_empty (Search.value x)) as E.
  destruct (String.eqb (Text.trim (Search.value x)) "") eqn:Q.
  - split; [reflexivity|]. split.
    + intros H. rewrite (proj1 E eq_refl) in H. discriminate.
    + split; [unfold Search.onKeydown, Search.onClick; simpl; now rewrite Q|].
      intros key H. unfold Search.onKeydown. apply String.eqb_neq in H.
      now rewrite H.
  - split.
    + intros H. apply E in H. discriminate.
    + split.
      * intros _. cbn [Search.value Search.placeholder Search.focused Search.site].
        repeat split. { now apply String.eqb_neq. }
        intros t0 T.
        now destruct (showToast_some
                        ("🔍 Searching for food near " ++ Search.quote
                         ++ Text.trim (Search.value x) ++ Search.quote ++ "...")
                        "" _ _ T) as (s' & -> & _ & T').
      * split; [unfold Search.onKeydown, Search.onClick; simpl; now rewrite Q|].
        intros key H. unfold Search.onKeydown. apply String.eqb_neq in H.
        now rewrite H.
Qed.

Lemma blank_search_asks_for_an_address_witness :
  let x := {| Search.value := "   "; Search.placeholder := "Enter your delivery address...";
              Search.focused := false; Search.site := Cart.init page0 |} in
  forallb Text.is_white_space (Text.decode (JS.bytes (Search.value x))) = true /\
  Search.placeholder (Search.onClick x) = "Please enter an address first..." /\
  Search.site (Search.onClick x) = Search.site x.
Proof.
  split; [reflexivity|].
  rewrite (proj1 (blank_search_asks_for_an_address
                    {| Search.value := "   ";
                       Search.placeholder := "Enter your delivery address...";
                       Search.focused := false; Search.site := Cart.init page0 |})
                 eq_refl).
  split; reflexivity.
Defined.

(** * Favourites ([initFavourites]) *)

Module Favourites.

(** A [.dish-card__fav] button: its class list, its text, and what
    [btn.closest('.dish-card')?.querySelector('.dish-card__name')?.textContent]
    gives ([None] for [undefined]). *)
Record Button := {
  fav_classes : ClassList.t;
  fav_text : string;
  card_name : option string
}.

(** [el.classList.toggle(c)]: the new list and the returned flag. *)
Definition toggle (c : string) (l : ClassList.t) : ClassList.t * bool :=
  if ClassList.contains c l then (ClassList.remove c l, false)
  else (ClassList.add c l, true).

(** [... || 'Item'] *)
Definition cardName (b : Button) : string :=
  match card_name b with
  | Some s => if String.eqb s "" then "Item" else s
  | None => "Item"
  end.

(** The button's [click] listener, on the button and the page that
    holds the toast. *)
Definition onClick (b : Button) (s : State) : Button * Result unit :=
  let '(classes, isFaved) := toggle "is-faved" (fav_classes b) in
  let b' := {| fav_classes := classes;
               fav_text := if isFaved then "♥" else "♡";
               card_name := card_name b |} in
  (b', showToast (if isFaved
                  then "❤️ " ++ cardName b' ++ " added to favourites!"
                  else "💔 Removed from favourites") "success" s).

Definition faved (b : Button) : bool := ClassList.contains "is-faved" (fav_classes b).

End Favourites.

(** X19: a click on a heart flips [is-faved]; the heart is full exactly
    when the dish is now a favourite, so after two clicks flag and heart
    are those of the first click undone; on a page with the toast, the
    message of a click that makes a favourite is made of the text of the
    card's name element, or of ["Item"] when that element is missing or
    its text is empty, and the message of a click that removes one names
    no dish. *)
Theorem favourite_click_flips_the_heart :
  forall (b : Favourites.Button) (s : State),
    let b1 := fst (Favourites.onClick b s) in
    let r1 := snd (Favourites.onClick b s) in
    let b2 := fst (Favourites.onClick b1 (state_of r1)) in
    let message := option_map textContent (toast (page (state_of r1))) in
    Favourites.faved b1 = negb (Favourites.faved b) /\
    Favourites.fav_text b1 = (if Favourites.faved b1 then "♥" else "♡") /\
    Favourites.faved b2 = Favourites.faved b /\
    Favourites.fav_text b2 = (if Favourites.faved b then "♥" else "♡") /\
    (forall t0, toast (page s) = Some t0 ->
       (Favourites.faved b = true ->
          message = Some "💔 Removed from favourites") /\
       (Favourites.faved b = false ->
          (forall n, Favourites.card_name b = Some n -> n <> "" ->
             message = Some ("❤️ " ++ n ++ " added to favourites!")) /\
          (Favourites.card_name b = None \/ Favourites.card_name b = Some "" ->
             message = Some "❤️ Item added to favourites!"))).
Proof.
  intros b s.
  assert (T : forall x y,
             Favourites.faved (fst (Favourites.onClick x y)) = negb (Favourites.faved x) /\
             Favourites.fav_text (fst (Favourites.onClick x y))
             = (if Favourites.faved (fst (Favourites.onClick x y)) then "♥" else "♡")).
  { intros x y. unfold Favourites.onClick, Favourites.toggle, Favourites.faved.
    destruct (ClassList.contains "is-faved" (Favourites.fav_classes x)) eqn:C;
      cbn [fst Favourites.fav_classes Favourites.fav_text].
    - now rewrite contains_remove.
    - now rewrite contains_add. }
  cbv zeta. destruct (T b s) as [F1 X1].
  destruct (T (fst (Favourites.onClick b s)) (state_of (snd (Favourites.onClick b s))))
    as [F2 X2].
  split; [exact F1|]. split; [exact X1|].
  split; [rewrite F2, F1; apply negb_involutive|].
  split; [rewrite X2, F2, F1; now rewrite negb_involutive|].
  intros t0 T0.
  assert (M : option_map textContent
                (toast (page (state_of (snd (Favourites.onClick b s)))))
              = Some (if Favourites.faved b
                      then "💔 Removed from favourites"
                      else "❤️ " ++ Favourites.cardName b ++ " added to favourites!")).
  { unfold Favourites.onClick, Favourites.toggle, Favourites.faved.
    destruct (ClassList.contains "is-faved" (Favourites.fav_classes b));
      cbn [snd];
      match goal with |- context [showToast ?m ?t s] =>
        destruct (showToast_some m t s t0 T0) as (s' & E & _ & T') end;
      rewrite E; cbn [state_of]; rewrite T'; reflexivity. }
  rewrite M. split.
  - now intros ->.
  - intros ->. split.
    + intros n C D. unfold Favourites.cardName. rewrite C.
      apply String.eqb_neq in D. now rewrite D.
    + intros [C|C]; unfold Favourites.cardName; now rewrite C.
Qed.

Lemma favourite_click_flips_the_heart_witness :
  let b := {| Favourites.fav_classes := ["dish-card__fav"];
              Favourites.fav_text := "♡";
              Favourites.card_name := Some "Margherita" |} in
  option_map textContent
    (toast (page (state_of (snd (Favourites.onClick b (Cart.init page0))))))
  = Some "❤️ Margherita added to favourites!".
Proof.
  cbv zeta.
  destruct (proj2 (proj2 (proj2 (proj2
              (favourite_click_flips_the_heart
                 {| Favourites.fav_classes := ["dish-card__fav"];
                    Favourites.fav_text := "♡";
                    Favourites.card_name := Some "Margherita" |} (Cart.init page0)))))
              {| textContent := ""; className := "toast" |} eq_refl) as [_ H].
  destruct (H eq_refl) as [H1 _].
  exact (H1 "Margherita" eq_refl ltac:(discriminate)).
Defined.

(** * The active navigation link ([initActiveNav]) *)

Module ActiveNav.

(** A [section[id]]: its id, [offsetTop] and [offsetHeight]. *)
Record Section := {
  id : string;
  offsetTop : Z;
  offsetHeight : Z
}.

(** A [.navbar__link]: its [href] attribute ([None] when it has none)
    and its class list. *)
Record Link := {
  href : option string;
  link_classes : ClassList.t
}.

Record t := {
  sections : list Section;
  navLinks : list Link;
  scrollY : JS.number          (* window.scrollY *)
}.

(** [scrollY >= top && scrollY < top + height] for the local
    [scrollY = window.scrollY + 120]. *)
Definition in_view (y : JS.number) (sec : Section) : bool :=
  ((JS.of_Z (offsetTop sec) <=? y)
   && (y <? JS.of_Z (offsetTop sec) + JS.of_Z (offsetHeight sec)))%float.

(** [link.getAttribute('href') === '#' + id] *)
Definition points_to (sec : Section) (link : Link) : bool :=
  match href link with
  | Some h => String.eqb h ("#" ++ id sec)
  | None => false
  end.

(** The inner [navLinks.forEach(...)] for one section. *)
Definition highlight (sec : Section) (links : list Link) : list Link :=
  map (fun link =>
         {| href := href link;
            link_classes :=
              toggle_force "navbar__link--active" (points_to sec link)
                (link_classes link) |})
      links.

(** [updateActiveLink()] *)
Definition updateActiveLink (s : t) : t :=
  let y := (scrollY s + 120)%float in
  {| sections := sections s;
     navLinks :=
       fold_left (fun links sec => if in_view y sec then highlight sec links else links)
                 (sections s) (navLinks s);
     scrollY := scrollY s |}.

(** The last section, in document order, that holds the position. *)
Definition current (y : JS.number) (secs : list Section) : option Section :=
  find (in_view y) (rev secs).

Definition is_active (link : Link) : bool :=
  ClassList.contains "navbar__link--active" (link_classes link).

End ActiveNav.

Lemma highlight_nth sec links j :
  nth_error (ActiveNav.highlight sec links) j
  = option_map (fun link =>
                  {| ActiveNav.href := ActiveNav.href link;
                     ActiveNav.link_classes :=
                       toggle_force "navbar__link--active"
                         (ActiveNav.points_to sec link) (ActiveNav.link_classes link) |})
               (nth_error links j).
Proof. unfold ActiveNav.highlight. apply nth_error_map. Qed.

Lemma update_links_fold y secs links :
  let links' :=
    fold_left (fun ls sec => if ActiveNav.in_view y sec
                             then ActiveNav.highlight sec ls else ls) secs links in
  match ActiveNav.current y secs with
  | None => links' = links
  | Some sec =>
      forall j, exists2 l0 : option ActiveNav.Link,
        nth_error links' j
        = option_map (fun link =>
             {| ActiveNav.href := ActiveNav.href link;
                ActiveNav.link_classes :=
                  toggle_force "navbar__link--active"
                    (ActiveNav.points_to sec link) (ActiveNav.link_classes link) |}) l0
        & option_map ActiveNav.href l0 = option_map ActiveNav.href (nth_error links j)
  end.
Proof.
  cbv zeta. unfold ActiveNav.current.
  induction secs as [|sec secs IH] using rev_ind; [reflexivity|].
  rewrite fold_left_app, rev_app_distr. simpl.
  destruct (ActiveNav.in_view y sec) eqn:V.
  - intros j. rewrite highlight_nth.
    set (mid := fold_left _ secs links) in *.
    exists (nth_error mid j); [reflexivity|].
    destruct (find (ActiveNav.in_view y) (rev secs)) as [sec0|].
    + destruct (IH j) as [l0 E H]. rewrite E, <- H. now destruct l0.
    + now rewrite IH.
  - exact IH.
Qed.

(** X20: on a scroll, when no section holds the position
    [window.scrollY + 120], every link stays as it was (the highlight of
    the section left behind remains); otherwise a link ends up with
    [navbar__link--active] exactly when its [href] is [#] followed by the
    id of the last section that holds the position, and links without an
    [href] are never active. *)
Theorem active_link_follows_the_last_section_in_view :
  forall s : ActiveNav.t,
    let y := (ActiveNav.scrollY s + 120)%float in
    let s' := ActiveNav.updateActiveLink s in
    (ActiveNav.current y (ActiveNav.sections s) = None -> s' = s) /\
    (forall sec, ActiveNav.current y (ActiveNav.sections s) = Some sec ->
       ActiveNav.in_view y sec = true /\
       forall j link', nth_error (ActiveNav.navLinks s') j = Some link' ->
         exists link, nth_error (ActiveNav.navLinks s) j = Some link /\
           ActiveNav.href link' = ActiveNav.href link /\
           ActiveNav.is_active link' = ActiveNav.points_to sec link' /\
           (ActiveNav.href link' = None -> ActiveNav.is_active link' = false)).
Proof.
  intros s y s'. subst s'. unfold ActiveNav.updateActiveLink. cbv zeta. fold y.
  pose proof (update_links_fold y (ActiveNav.sections s) (ActiveNav.navLinks s)) as F.
  cbv zeta in F. split.
  - intros N. rewrite N in F. rewrite F. now destruct s.
  - intros sec C. rewrite C in F. split.
    + unfold ActiveNav.current in C. now apply find_some in C.
    + cbn [ActiveNav.navLinks]. intros j link' L.
      destruct (F j) as [l0 E H]. rewrite L in E.
      destruct l0 as [link0|]; [|discriminate]. simpl in E, H.
      destruct (nth_error (ActiveNav.navLinks s) j) as [link|]; [|discriminate].
      exists link. split; [reflexivity|]. injection H as H. injection E as ->.
      unfold ActiveNav.is_active, ActiveNav.points_to.
      cbn [ActiveNav.href ActiveNav.link_classes].
      rewrite contains_toggle_force. split; [exact H|]. split; [reflexivity|].
      now intros ->.
Qed.

Lemma active_link_follows_the_last_section_in_view_witness :
  let s := {| ActiveNav.sections :=
                [ {| ActiveNav.id := "home"; ActiveNav.offsetTop := 0;
                     ActiveNav.offsetHeight := 700 |};
                  {| ActiveNav.id := "menu"; ActiveNav.offsetTop := 900;
                     ActiveNav.offsetHeight := 1200 |} ];
              ActiveNav.navLinks :=
                [ {| ActiveNav.href := Some "#home";
                     ActiveNav.link_classes := ["navbar__link"; "navbar__link--active"] |};
                  {| ActiveNav.href := Some "#menu";
                     ActiveNav.link_classes := ["navbar__link"] |} ];
              ActiveNav.scrollY := 650%float |} in
  ActiveNav.current (ActiveNav.scrollY s + 120)%float (ActiveNav.sections s) = None /\
  ActiveNav.updateActiveLink s = s.
Proof.
  split; [reflexivity|].
  now apply (proj1 (active_link_follows_the_last_section_in_view _)).
Defined.
